(** * Chat-memory persistence: SQLiteChatMemory, InMemoryChatMemory and
      PersistentMessageManager

    A shallow embedding of
      - src/agent/src/lib/runtime/memory/SQLiteChatMemory.ts
      - the PersistentMessageManager class (src/unnamed/part_000)
    and the properties of the persistence protocol proved about it. *)

From Stdlib Require Import ZArith Lia Ascii String.
From stdpp Require Import base option list strings pretty sorting gmap.

Set Default Proof Using "Type".
Set Warnings "-register-all".
Local Open Scope string_scope.
Local Open Scope list_scope.

(* ===================================================================== *)
(** ** JavaScript values *)
(* ===================================================================== *)

(** JSON-shaped JavaScript values.  A JavaScript [undefined] is the [None]
    of an [option JSON]. *)
Inductive JSON : Type :=
| JNull
| JBool (b : bool)
| JNum (n : Z)
| JStr (s : string)
| JArr (items : list JSON)
| JObj (fields : list (string * JSON)).

(** A plain JavaScript object, [Record<string, unknown>]: keys in insertion
    order. *)
Definition Obj : Type := list (string * JSON).

(** [o[k]] *)
Fixpoint obj_get (k : string) (o : Obj) : option JSON :=
  match o with
  | [] => None
  | (k', v) :: o' => if String.eqb k k' then Some v else obj_get k o'
  end.

(** [o[k] = v]: overwrites an existing key in place, otherwise appends. *)
Fixpoint obj_set (k : string) (v : JSON) (o : Obj) : Obj :=
  match o with
  | [] => [(k, v)]
  | (k', v') :: o' =>
      if String.eqb k k' then (k, v) :: o' else (k', v') :: obj_set k v o'
  end.

(** [Object.keys(v).length] for a truthy [v]. *)
Definition Object_keys_length (v : JSON) : nat :=
  match v with
  | JObj o => length o
  | JArr xs => length xs
  | JStr s => String.length s
  | _ => 0
  end.

(** JavaScript truthiness of a possibly undefined value. *)
Definition truthy (v : option JSON) : bool :=
  match v with
  | None | Some JNull => false
  | Some (JBool b) => b
  | Some (JNum n) => negb (n =? 0)%Z
  | Some (JStr s) => negb (String.eqb s EmptyString)
  | Some (JArr _) | Some (JObj _) => true
  end.

(** [typeof v === 'string'] *)
Definition typeof_string (v : option JSON) : option string :=
  match v with Some (JStr s) => Some s | _ => None end.

(** [typeof v === 'object'] (true of [null], arrays and objects) *)
Definition typeof_object (v : option JSON) : bool :=
  match v with
  | Some JNull | Some (JArr _) | Some (JObj _) => true
  | _ => false
  end.

(** [Array.isArray(v)] *)
Definition Array_isArray (v : option JSON) : option (list JSON) :=
  match v with Some (JArr xs) => Some xs | _ => None end.

(* ===================================================================== *)
(** ** Results, exceptions and the state monad of the embedding *)
(* ===================================================================== *)

(** A call either returns or throws an [Error] carrying a message. *)
Inductive Res (A : Type) : Type :=
| Ok (a : A)
| Throw (message : string).
Arguments Ok {A} a.
Arguments Throw {A} message.

(** Computations over a mutable state [S] that may throw.  The state
    survives a throw, as object fields assigned before an exception do. *)
Definition M (S A : Type) : Type := S -> Res A * S.

Definition ret {S A} (a : A) : M S A := fun s => (Ok a, s).

Definition bind {S A B} (m : M S A) (k : A -> M S B) : M S B :=
  fun s => match m s with
           | (Ok a, s') => k a s'
           | (Throw e, s') => (Throw e, s')
           end.

#[global] Instance M_ret {S} : MRet (M S) := fun A => @ret S A.
#[global] Instance M_bind {S} : MBind (M S) := fun A B k m => bind m k.

Definition throw {S A} (e : string) : M S A := fun s => (Throw e, s).
Definition get {S} : M S S := fun s => (Ok s, s).
Definition modify {S} (f : S -> S) : M S unit := fun s => (Ok tt, f s).

(** A call that touches no state. *)
Definition lift_res {S A} (r : Res A) : M S A := fun s => (r, s).

(** [try { body } catch (error) { handler(message) }] *)
Definition try_catch {S A} (body : M S A) (handler : string -> M S A) : M S A :=
  fun s => match body s with
           | (Ok a, s') => (Ok a, s')
           | (Throw e, s') => handler e s'
           end.

(** [try { body } finally { fin }] *)
Definition try_finally {S A} (body : M S A) (fin : M S unit) : M S A :=
  fun s => let '(r, s') := body s in
           match fin s' with
           | (Ok _, s'') => (r, s'')
           | (Throw e, s'') => (Throw e, s'')
           end.

(** Runs a computation on a component of a larger state. *)
Definition zoom {S T A} (proj : S -> T) (upd : T -> S -> S) (m : M T A) : M S A :=
  fun s => let '(r, t') := m (proj s) in (r, upd t' s).

(* ===================================================================== *)
(** ** Messages and stored rows *)
(* ===================================================================== *)

(** The message classes the manager handles: LangChain's four and the two
    of MessageManager.  [content] is a string ([JStr]) or a structure;
    [additional_kwargs] defaults to the empty object. *)
Inductive BaseMessage : Type :=
| SystemMessage (content : JSON) (additional_kwargs : JSON)
| HumanMessage (content : JSON) (additional_kwargs : JSON)
| AIMessage (content : JSON) (additional_kwargs : JSON)
    (tool_calls invalid_tool_calls : list JSON) (usage_metadata : option JSON)
| ToolMessage (content : JSON) (additional_kwargs : JSON)
    (tool_call_id : string) (status : option string)
    (artifact : option JSON) (metadata : option JSON)
| BrowserStateMessage (content : JSON) (additional_kwargs : JSON)
| TodoListMessage (content : JSON) (additional_kwargs : JSON).

Definition msg_content (m : BaseMessage) : JSON :=
  match m with
  | SystemMessage c _ | HumanMessage c _ | AIMessage c _ _ _ _
  | ToolMessage c _ _ _ _ _ | BrowserStateMessage c _ | TodoListMessage c _ => c
  end.

Definition msg_additional_kwargs (m : BaseMessage) : JSON :=
  match m with
  | SystemMessage _ k | HumanMessage _ k | AIMessage _ k _ _ _
  | ToolMessage _ k _ _ _ _ | BrowserStateMessage _ k | TodoListMessage _ k => k
  end.

(** The values of the [MessageType] enum. *)
Module MessageType.
Definition SYSTEM := "system".
Definition HUMAN := "human".
Definition AI := "ai".
Definition TOOL := "tool".
Definition BROWSER_STATE := "browser_state".
Definition TODO_LIST := "todo_list".
End MessageType.

(** Modelled from the spec: [MessageManager._getMessageType], of the base
    class that is not part of the sources; the spec has the row's role be
    "the message's kind tag". *)
Definition _getMessageType (m : BaseMessage) : string :=
  match m with
  | SystemMessage _ _ => MessageType.SYSTEM
  | HumanMessage _ _ => MessageType.HUMAN
  | AIMessage _ _ _ _ _ => MessageType.AI
  | ToolMessage _ _ _ _ _ _ => MessageType.TOOL
  | BrowserStateMessage _ _ => MessageType.BROWSER_STATE
  | TodoListMessage _ _ => MessageType.TODO_LIST
  end.

(** [interface ChatMemoryMessage] *)
Record ChatMemoryMessage : Type := {
  role : string;
  content : string;
  sequence : Z;
  createdAt : option Z;
  metadata : option Obj
}.

(* ===================================================================== *)
(** ** The JavaScript runtime and the outside world *)
(* ===================================================================== *)

(** The two message classes the manager builds from the content alone,
    [new SystemMessage(content)] and [new HumanMessage(content)]. *)
Inductive ContentClass : Type := SystemClass | HumanClass.

(** The built-ins and the message classes the code calls.
    [JSON.stringify] and [JSON.parse] may throw; [String(v)] does not.
    LangChain's message classes take a string, the content, or a record of
    fields.  What they make of an only argument that is neither (they read
    it as the fields: the message has no content, or the call throws) is
    [Message_of_value]; the tool calls [new AIMessage(fields)] derives from
    [fields.additional_kwargs.tool_calls] when [fields.tool_calls] is
    undefined are [Derived_tool_calls]: tool calls and invalid tool calls. *)
Class JSRuntime : Type := {
  JSON_stringify : JSON -> Res string;
  JSON_parse : string -> Res JSON;
  String_of : JSON -> string;
  Message_of_value : ContentClass -> JSON -> Res BaseMessage;
  Derived_tool_calls : JSON -> list JSON * list JSON
}.

(** The calls that leave the process and may fail there. *)
Inductive ExtOp : Type :=
| OpRequire (moduleName : string)
| OpFsExists | OpFsMkdir
| OpOpen (path : string)
| OpPragma (query : string)
| OpExec
| OpPrepare
| OpBegin | OpCommit
| OpUpsertConversation | OpDeleteMessages | OpDeleteConversation
| OpInsertMessage (nth : nat)
| OpSelectMessages
| OpConstruct (message : BaseMessage).

(** What the outside world answers during one operation of the program. *)
Record Env : Type := {
  env_fails : ExtOp -> bool;
  env_clock : nat -> Z;
  env_BROWSEROS_CHAT_MEMORY_ID : option string;
  env_BROWSEROS_CHAT_MEMORY_PATH : option string;
  env_cwd : string;
  env_path_join : string -> string -> string
}.

(** [Logging.log(source, message, level)] *)
Record LogEntry : Type := { log_source : string; log_message : string; log_level : string }.

(* ===================================================================== *)
(** ** The embedded relational store *)
(* ===================================================================== *)

(** A row of table [conversations]. *)
Record ConversationRow : Type := {
  conv_id : string;
  conv_created_at : Z;
  conv_updated_at : Z
}.

(** A row of table [chat_messages]; the table keeps them in rowid order. *)
Record MessageRow : Type := {
  row_conversation_id : string;
  row_role : string;
  row_content : string;
  row_metadata : option string;
  row_sequence : Z;
  row_created_at : Z
}.

(** The content of one database file. *)
Record Database : Type := {
  conversations : list ConversationRow;
  chat_messages : list MessageRow
}.

Definition empty_database : Database :=
  {| conversations := []; chat_messages := [] |}.

(** The calls the manager makes on its storage adapter, recorded in order. *)
Inductive AdapterCall : Type :=
| CallInitialize
| CallIsAvailable
| CallReplaceConversation (conversationId : string) (messages : list ChatMemoryMessage)
| CallGetMessages (conversationId : string)
| CallClearConversation (conversationId : string).

(** Everything outside the objects: the database files by path, the log,
    the number of clock readings taken so far and the adapter calls made. *)
Record World : Type := {
  disk : gmap string Database;
  log : list LogEntry;
  clock_reads : nat;
  adapter_calls : list AdapterCall
}.

Definition set_disk (d : gmap string Database) (w : World) : World :=
  {| disk := d; log := log w; clock_reads := clock_reads w;
     adapter_calls := adapter_calls w |}.

Definition database_at (path : string) (w : World) : Database :=
  default empty_database (disk w !! path).

Section WorldOps.
Context {O : Type}.

  (** The state of a method call: the world and the receiver [this]. *)
Definition get_world : M (World * O) World := fun s => (Ok (fst s), s).
Definition modify_world (f : World -> World) : M (World * O) unit :=
    fun s => (Ok tt, (f (fst s), snd s)).
Definition this : M (World * O) O := fun s => (Ok (snd s), s).
Definition modify_this (f : O -> O) : M (World * O) unit :=
    fun s => (Ok tt, (fst s, f (snd s))).

  (** [Logging.log] *)
Definition Logging_log (source message level : string) : M (World * O) unit :=
    modify_world (fun w =>
      {| disk := disk w;
         log := log w ++ [{| log_source := source; log_message := message; log_level := level |}];
         clock_reads := clock_reads w; adapter_calls := adapter_calls w |}).

  (** [Date.now()] *)
Definition Date_now (env : Env) : M (World * O) Z :=
    fun s => (Ok (env_clock env (clock_reads (fst s))),
              ({| disk := disk (fst s); log := log (fst s);
                  clock_reads := S (clock_reads (fst s));
                  adapter_calls := adapter_calls (fst s) |}, snd s)).

  (** An external call that fails with [message] when the world says so. *)
Definition external (env : Env) (op : ExtOp) (message : string) : M (World * O) unit :=
    if env_fails env op then throw message else ret tt.

Definition record_call (c : AdapterCall) : M (World * O) unit :=
    modify_world (fun w =>
      {| disk := disk w; log := log w; clock_reads := clock_reads w;
         adapter_calls := adapter_calls w ++ [c] |}).
End WorldOps.

(* ===================================================================== *)
(** ** SQLiteChatMemory.ts: the durable adapter *)
(* ===================================================================== *)

(** Stable insertion sort by [sequence]: [ORDER BY sequence ASC]. *)
Fixpoint insert_by_sequence (r : MessageRow) (rs : list MessageRow) : list MessageRow :=
  match rs with
  | [] => [r]
  | r' :: rs' =>
      if (row_sequence r <? row_sequence r')%Z then r :: r' :: rs'
      else r' :: insert_by_sequence r rs'
  end.

Definition order_by_sequence (rs : list MessageRow) : list MessageRow :=
  foldl (fun sorted r => insert_by_sequence r sorted) [] rs.

(** ASCII white space: the characters 9 to 13 and the space. *)
Definition is_white_space (c : ascii) : bool :=
  let n := nat_of_ascii c in (Nat.leb 9 n && Nat.leb n 13) || Nat.eqb n 32.

(** The string of the bytes given by their numbers. *)
Definition bytes (numbers : list nat) : string :=
  fold_right (fun n s => String (ascii_of_nat n) s) EmptyString numbers.

(** The white space and line terminators [String.prototype.trim] strips,
    each in UTF-8, as the strings of the model are: U+0009 to U+000D,
    U+0020, U+00A0, U+1680, U+2000 to U+200A, U+2028, U+2029, U+202F,
    U+205F, U+3000 and U+FEFF. *)
Definition js_white_space : list string :=
  [ bytes [9]; bytes [10]; bytes [11]; bytes [12]; bytes [13]; bytes [32];
    bytes [194; 160];
    bytes [225; 154; 128];
    bytes [226; 128; 128]; bytes [226; 128; 129]; bytes [226; 128; 130];
    bytes [226; 128; 131]; bytes [226; 128; 132]; bytes [226; 128; 133];
    bytes [226; 128; 134]; bytes [226; 128; 135]; bytes [226; 128; 136];
    bytes [226; 128; 137]; bytes [226; 128; 138];
    bytes [226; 128; 168]; bytes [226; 128; 169]; bytes [226; 128; 175];
    bytes [226; 129; 159];
    bytes [227; 128; 128];
    bytes [239; 187; 191] ].

Definition is_js_white_space (u : string) : bool := existsb (String.eqb u) js_white_space.

(** [s.trim().length > 0]: the string has a character that [trim] does
    not strip.  The characters are read from the left, one, two or three
    bytes at a time. *)
Fixpoint trim_nonempty (s : string) : bool :=
  match s with
  | EmptyString => false
  | String c1 s1 =>
      if is_js_white_space (String c1 EmptyString) then trim_nonempty s1
      else
        match s1 with
        | EmptyString => true
        | String c2 s2 =>
            if is_js_white_space (String c1 (String c2 EmptyString)) then trim_nonempty s2
            else
              match s2 with
              | EmptyString => true
              | String c3 s3 =>
                  if is_js_white_space (String c1 (String c2 (String c3 EmptyString)))
                  then trim_nonempty s3
                  else true
              end
        end
  end.

(** [s.endsWith('/') ? s.slice(0, -1) : s] *)
Fixpoint strip_trailing_slash (s : string) : string :=
  match s with
  | EmptyString => EmptyString
  | String c EmptyString => if Ascii.eqb c "/"%char then EmptyString else s
  | String c s' => String c (strip_trailing_slash s')
  end.

(** [function dynamicRequire]: the module, or [null] when [require] is
    missing or throws; modules are told apart by name only. *)
Definition dynamicRequire (env : Env) (moduleName : string) : option string :=
  if env_fails env (OpRequire moduleName) then None else Some moduleName.

Module SQLiteChatMemory.

(** An open connection: the file it was opened on. *)
Record BetterSqlite3Database : Type := { connection_path : string }.

(** The five statements prepared on a connection. *)
Record PreparedStatements : Type := { prepared_on : BetterSqlite3Database }.

Record t : Type := {
  dbPath : string;
  journalMode : string;
  database : option BetterSqlite3Database;
  statements : option PreparedStatements;
  initialized : bool;
  driver : option string
}.

Record SQLiteChatMemoryOptions : Type := {
  opt_dbPath : option string;
  opt_journalMode : option string
}.

Definition set_database (d : option BetterSqlite3Database) (o : t) : t :=
  {| dbPath := dbPath o; journalMode := journalMode o; database := d;
     statements := statements o; initialized := initialized o; driver := driver o |}.
Definition set_statements (st : option PreparedStatements) (o : t) : t :=
  {| dbPath := dbPath o; journalMode := journalMode o; database := database o;
     statements := st; initialized := initialized o; driver := driver o |}.
Definition set_initialized (b : bool) (o : t) : t :=
  {| dbPath := dbPath o; journalMode := journalMode o; database := database o;
     statements := statements o; initialized := b; driver := driver o |}.
Definition set_driver (d : option string) (o : t) : t :=
  {| dbPath := dbPath o; journalMode := journalMode o; database := database o;
     statements := statements o; initialized := initialized o; driver := d |}.

Definition State : Type := World * t.

(** *** The statements, run on the file of the connection *)

Definition modify_database (db : BetterSqlite3Database) (f : Database -> Database)
  : M State unit :=
  modify_world (fun w =>
    set_disk (<[connection_path db := f (database_at (connection_path db) w)]> (disk w)) w).

(** [INSERT INTO conversations ... ON CONFLICT(id) DO UPDATE SET updated_at] *)
Fixpoint upsert_conversation (id : string) (created updated : Z)
  (cs : list ConversationRow) : list ConversationRow :=
  match cs with
  | [] => [{| conv_id := id; conv_created_at := created; conv_updated_at := updated |}]
  | c :: cs' =>
      if String.eqb (conv_id c) id
      then {| conv_id := id; conv_created_at := conv_created_at c;
              conv_updated_at := updated |} :: cs'
      else c :: upsert_conversation id created updated cs'
  end.

Definition upsertConversation_run (env : Env) (st : PreparedStatements)
  (id : string) (created updated : Z) : M State unit :=
  external env OpUpsertConversation "upsertConversation failed" ;;
  modify_database (prepared_on st) (fun d =>
    {| conversations := upsert_conversation id created updated (conversations d);
       chat_messages := chat_messages d |}).

(** [DELETE FROM chat_messages WHERE conversation_id = ?] *)
Definition deleteMessages_run (env : Env) (st : PreparedStatements) (id : string)
  : M State unit :=
  external env OpDeleteMessages "deleteMessages failed" ;;
  modify_database (prepared_on st) (fun d =>
    {| conversations := conversations d;
       chat_messages :=
         filter (fun r => negb (String.eqb (row_conversation_id r) id)) (chat_messages d) |}).

(** [INSERT INTO chat_messages ...]; the foreign key needs the conversation. *)
Definition insertMessage_run (env : Env) (st : PreparedStatements) (nth : nat)
  (r : MessageRow) : M State unit :=
  external env (OpInsertMessage nth) "insertMessage failed" ;;
  w ← get_world;
  let d := database_at (connection_path (prepared_on st)) w in
  if existsb (fun c => String.eqb (conv_id c) (row_conversation_id r)) (conversations d)
  then modify_database (prepared_on st) (fun d =>
         {| conversations := conversations d; chat_messages := chat_messages d ++ [r] |})
  else throw "FOREIGN KEY constraint failed".

(** [DELETE FROM conversations WHERE id = ?], cascading to its messages. *)
Definition deleteConversation_run (env : Env) (st : PreparedStatements) (id : string)
  : M State unit :=
  external env OpDeleteConversation "deleteConversation failed" ;;
  modify_database (prepared_on st) (fun d =>
    {| conversations := filter (fun c => negb (String.eqb (conv_id c) id)) (conversations d);
       chat_messages :=
         filter (fun r => negb (String.eqb (row_conversation_id r) id)) (chat_messages d) |}).

(** [SELECT ... FROM chat_messages WHERE conversation_id = ? ORDER BY sequence ASC] *)
Definition selectMessages_all (env : Env) (st : PreparedStatements) (id : string)
  : M State (list MessageRow) :=
  external env OpSelectMessages "selectMessages failed" ;;
  w ← get_world;
  mret (order_by_sequence
          (filter (fun r => String.eqb (row_conversation_id r) id)
                  (chat_messages (database_at (connection_path (prepared_on st)) w)))).

(** [db.transaction(handler)]: the returned function runs the handler
    between BEGIN and COMMIT, and rolls back and rethrows when either the
    handler or the commit throws. *)
Definition transaction {A} (env : Env) (db : BetterSqlite3Database)
  (handler : A -> M State unit) : A -> M State unit :=
  fun args =>
    external env OpBegin "cannot start a transaction" ;;
    before ← get_world;
    try_catch
      (handler args ;; external env OpCommit "cannot commit the transaction")
      (fun message => modify_world (set_disk (disk before)) ;; throw message).

(** *** The class *)

Section Methods.
Context {RT : JSRuntime}.

(** [provided && provided.trim().length > 0] *)
Definition given_path (provided : option string) : option string :=
  match provided with
  | Some p => if trim_nonempty p then Some p else None
  | None => None
  end.

(** [private resolveDatabasePath] *)
Definition resolveDatabasePath (env : Env) (provided : option string) : string :=
  match given_path provided with
  | Some p => p
  | None =>
      match given_path (env_BROWSEROS_CHAT_MEMORY_PATH env) with
      | Some envPath => envPath
      | None =>
          match dynamicRequire env "path" with
          | Some _ => env_path_join env (env_cwd env) "chat_memory.sqlite"
          | None => strip_trailing_slash (env_cwd env) +:+ "/chat_memory.sqlite"
          end
      end
  end.

(** [constructor(options)] *)
Definition new (env : Env) (options : SQLiteChatMemoryOptions) : t :=
  {| dbPath := resolveDatabasePath env (opt_dbPath options);
     journalMode := default "WAL" (opt_journalMode options);
     database := None; statements := None; initialized := false; driver := None |}.

(** [private loadDriver] *)
Definition loadDriver (env : Env) : M State (option string) :=
  self ← this;
  match driver self with
  | Some d => mret (Some d)
  | None =>
      match dynamicRequire env "better-sqlite3" with
      | Some loaded => modify_this (set_driver (Some loaded))
      | None => mret tt
      end ;;
      self' ← this;
      mret (driver self')
  end.

(** [private ensureDirectoryExists]: its failures are ignored. *)
Definition ensureDirectoryExists (env : Env) (filePath : string) : M State unit :=
  match dynamicRequire env "fs", dynamicRequire env "path" with
  | Some _, Some _ =>
      try_catch
        (external env OpFsExists "existsSync failed" ;;
         external env OpFsMkdir "mkdirSync failed")
        (fun _ => mret tt)
  | _, _ => mret tt
  end.

(** [private createSchema] *)
Definition createSchema (env : Env) : M State unit :=
  self ← this;
  match database self with
  | None => mret tt
  | Some db => external env OpExec "exec failed"
  end.

(** [private prepareStatements] *)
Definition prepareStatements (env : Env) : M State unit :=
  self ← this;
  match database self with
  | None => mret tt
  | Some db =>
      external env OpPrepare "prepare failed" ;;
      modify_this (set_statements (Some {| prepared_on := db |}))
  end.

(** [private ensureDatabase] *)
Definition ensureDatabase (env : Env) : M State (option BetterSqlite3Database) :=
  self ← this;
  match database self with
  | Some db => mret (Some db)
  | None =>
      try_catch
        (Driver ← loadDriver env;
         match Driver with
         | None => throw "better-sqlite3 module is not available"
         | Some _ =>
             ensureDirectoryExists env (dbPath self) ;;
             external env (OpOpen (dbPath self)) "unable to open database file" ;;
             modify_this (set_database (Some {| connection_path := dbPath self |})) ;;
             external env (OpPragma ("journal_mode = " +:+ journalMode self)) "pragma failed" ;;
             external env (OpPragma "foreign_keys = ON") "pragma failed" ;;
             createSchema env ;;
             prepareStatements env ;;
             modify_this (set_initialized true)
         end)
        (fun message =>
           Logging_log "SQLiteChatMemory"
             ("Failed to initialize SQLite memory: " +:+ message) "warning" ;;
           modify_this (set_database None) ;;
           modify_this (set_statements None)) ;;
      self' ← this;
      mret (database self')
  end.

(** [initialize()] *)
Definition initialize (env : Env) : M State unit :=
  ensureDatabase env ;; mret tt.

(** [isAvailable()] *)
Definition isAvailable (env : Env) : M State bool :=
  db ← ensureDatabase env;
  mret (bool_decide (is_Some db)).

(** [row.metadata ? JSON.stringify(row.metadata) : null] *)
Definition metadata_json (row : ChatMemoryMessage) : Res (option string) :=
  match metadata row with
  | Some md =>
      match JSON_stringify (JObj md) with
      | Ok text => Ok (Some text)
      | Throw message => Throw message
      end
  | None => Ok None
  end.

(** The loop of [replaceConversation] over the rows, from the [nth] one. *)
Fixpoint insert_rows (env : Env) (st : PreparedStatements) (conversationId : string)
  (now : Z) (nth : nat) (rows : list ChatMemoryMessage) : M State unit :=
  match rows with
  | [] => mret tt
  | row :: rows' =>
      metadataJson ← lift_res (metadata_json row);
      insertMessage_run env st nth
        {| row_conversation_id := conversationId;
           row_role := role row;
           row_content := content row;
           row_metadata := metadataJson;
           row_sequence := sequence row;
           row_created_at := default now (createdAt row) |} ;;
      insert_rows env st conversationId now (S nth) rows'
  end.

(** [replaceConversation(conversationId, messages)] *)
Definition replaceConversation (env : Env) (conversationId : string)
  (messages : list ChatMemoryMessage) : M State unit :=
  db ← ensureDatabase env;
  self ← this;
  match db, statements self with
  | Some db, Some st =>
      now ← Date_now env;
      let run := transaction env db (fun rows =>
        upsertConversation_run env st conversationId now now ;;
        deleteMessages_run env st conversationId ;;
        insert_rows env st conversationId now 0 rows) in
      try_catch (run messages)
        (fun message =>
           Logging_log "SQLiteChatMemory"
             ("Failed to persist chat history: " +:+ message) "error")
  | _, _ => mret tt
  end.

(** [private deserializeRow].  The columns are typed by the schema and by
    [insertMessage], so the [typeof] guards on [content], [sequence] and
    [created_at] take their first branch.  A decoded metadata text that is
    [null] reads as no metadata; one that is not an object has none of the
    keys the manager reads and is kept as the empty record. *)
Definition deserializeRow (row : MessageRow) : ChatMemoryMessage :=
  {| role := row_role row;
     content := row_content row;
     sequence := row_sequence row;
     createdAt := Some (row_created_at row);
     metadata :=
       match row_metadata row with
       | Some metadataRaw =>
           if (0 <? String.length metadataRaw)%nat
           then match JSON_parse metadataRaw with
                | Ok (JObj md) => Some md
                | Ok JNull => None
                | Ok _ => Some []
                | Throw _ => None
                end
           else None
       | None => None
       end |}.

(** [getMessages(conversationId)] *)
Definition getMessages (env : Env) (conversationId : string)
  : M State (list ChatMemoryMessage) :=
  db ← ensureDatabase env;
  self ← this;
  match db, statements self with
  | Some db, Some st =>
      try_catch
        (rows ← selectMessages_all env st conversationId;
         mret (map deserializeRow rows))
        (fun message =>
           Logging_log "SQLiteChatMemory"
             ("Failed to load chat history: " +:+ message) "error" ;;
           mret [])
  | _, _ => mret []
  end.

(** [clearConversation(conversationId)] *)
Definition clearConversation (env : Env) (conversationId : string) : M State unit :=
  db ← ensureDatabase env;
  self ← this;
  match db, statements self with
  | Some db, Some st =>
      let run := transaction env db (fun id =>
        deleteMessages_run env st id ;;
        deleteConversation_run env st id) in
      try_catch (run conversationId)
        (fun message =>
           Logging_log "SQLiteChatMemory"
             ("Failed to clear chat history: " +:+ message) "warning")
  | _, _ => mret tt
  end.

End Methods.
End SQLiteChatMemory.

(* ===================================================================== *)
(** ** SQLiteChatMemory.ts: the transient adapter *)
(* ===================================================================== *)

Module InMemoryChatMemory.

(** [private readonly store = new Map<string, ChatMemoryMessage[]>()] *)
Record t : Type := { store : gmap string (list ChatMemoryMessage) }.

Definition State : Type := World * t.

Definition new : t := {| store := ∅ |}.

(** [{ ...message, metadata: message.metadata ? { ...message.metadata } : undefined }] *)
Definition copy_message (message : ChatMemoryMessage) : ChatMemoryMessage :=
  {| role := role message;
     content := content message;
     sequence := sequence message;
     createdAt := createdAt message;
     metadata := match metadata message with
                 | Some md => Some (map (fun kv => (fst kv, snd kv)) md)
                 | None => None
                 end |}.

Definition initialize : M State unit := mret tt.

Definition isAvailable : M State bool := mret true.

Definition replaceConversation (conversationId : string)
  (messages : list ChatMemoryMessage) : M State unit :=
  modify_this (fun self =>
    {| store := <[conversationId := map copy_message messages]> (store self) |}).

Definition getMessages (conversationId : string) : M State (list ChatMemoryMessage) :=
  self ← this;
  match store self !! conversationId with
  | None => mret []
  | Some messages => mret (map copy_message messages)
  end.

Definition clearConversation (conversationId : string) : M State unit :=
  modify_this (fun self => {| store := delete conversationId (store self) |}).

End InMemoryChatMemory.

(* ===================================================================== *)
(** ** [interface ChatMemoryAdapter] and its two implementations *)
(* ===================================================================== *)

(** The interface has two implementations in this module, and the
    adapters of the model are those two: an adapter is one of them and a
    method call runs the method of its class.  An implementation of the
    interface written elsewhere, which a caller may hand to the manager
    as [options.memory], is outside this type; what is stated for every
    adapter is stated for the adapters of this module. *)
Inductive ChatMemoryAdapter : Type :=
| SQLiteAdapter (m : SQLiteChatMemory.t)
| InMemoryAdapter (m : InMemoryChatMemory.t).

Module Adapter.
Section Dispatch.
Context {RT : JSRuntime}.

Definition State : Type := World * ChatMemoryAdapter.

(** A method call on an adapter runs the method of its class. *)
Definition dispatch {A} (sqlite : M SQLiteChatMemory.State A)
  (transient : M InMemoryChatMemory.State A) : M State A :=
  fun s =>
    match snd s with
    | SQLiteAdapter m =>
        let '(r, (w, m')) := sqlite (fst s, m) in (r, (w, SQLiteAdapter m'))
    | InMemoryAdapter m =>
        let '(r, (w, m')) := transient (fst s, m) in (r, (w, InMemoryAdapter m'))
    end.

Definition initialize (env : Env) : M State unit :=
  dispatch (SQLiteChatMemory.initialize env) InMemoryChatMemory.initialize.

Definition isAvailable (env : Env) : M State bool :=
  dispatch (SQLiteChatMemory.isAvailable env) InMemoryChatMemory.isAvailable.

Definition replaceConversation (env : Env) (conversationId : string)
  (messages : list ChatMemoryMessage) : M State unit :=
  dispatch (SQLiteChatMemory.replaceConversation env conversationId messages)
           (InMemoryChatMemory.replaceConversation conversationId messages).

Definition getMessages (env : Env) (conversationId : string)
  : M State (list ChatMemoryMessage) :=
  dispatch (SQLiteChatMemory.getMessages env conversationId)
           (InMemoryChatMemory.getMessages conversationId).

Definition clearConversation (env : Env) (conversationId : string) : M State unit :=
  dispatch (SQLiteChatMemory.clearConversation env conversationId)
           (InMemoryChatMemory.clearConversation conversationId).

End Dispatch.
End Adapter.

(* ===================================================================== *)
(** ** The base class MessageManager *)
(* ===================================================================== *)

(** Modelled from the spec: the base class [MessageManager], which is not
    part of the sources.  The spec gives its interface, "add(message,
    position?), removeLast() -> bool, clear(), setMaxTokens(n),
    getMessages() -> Message[]", and has it own the live messages; its
    methods act on the pipeline [P] alone. *)
Class MessageManager (P : Type) : Type := {
  super_new : option Z -> P;
  super_add : BaseMessage -> option nat -> P -> P;
  super_removeLast : P -> bool * P;
  super_clear : P -> P;
  super_setMaxTokens : Z -> P -> P;
  super_getMessages : P -> list BaseMessage
}.

(** Modelled from the spec: a pipeline that is the list of its messages
    and a token budget.  The spec says that the budget is enforced and
    not how, so the rule is the parameter [fit], applied where the list
    or the budget changes. *)
Record ListPipeline : Type := {
  lp_messages : list BaseMessage;
  lp_maxTokens : option Z
}.

(** [messages.splice(position, 0, message)] *)
Definition splice_in (position : nat) (message : BaseMessage)
  (messages : list BaseMessage) : list BaseMessage :=
  take position messages ++ message :: drop position messages.

Definition ListPipeline_ops (fit : option Z -> list BaseMessage -> list BaseMessage)
  : MessageManager ListPipeline :=
  {| super_new := fun maxTokens => {| lp_messages := []; lp_maxTokens := maxTokens |};
     super_add := fun message position p =>
       {| lp_messages :=
            fit (lp_maxTokens p)
              match position with
              | Some i => splice_in i message (lp_messages p)
              | None => lp_messages p ++ [message]
              end;
          lp_maxTokens := lp_maxTokens p |};
     super_removeLast := fun p =>
       match lp_messages p with
       | [] => (false, p)
       | _ :: _ =>
           (true, {| lp_messages := removelast (lp_messages p);
                     lp_maxTokens := lp_maxTokens p |})
       end;
     super_clear := fun p => {| lp_messages := []; lp_maxTokens := lp_maxTokens p |};
     super_setMaxTokens := fun n p =>
       {| lp_messages := fit (Some n) (lp_messages p); lp_maxTokens := Some n |};
     super_getMessages := lp_messages |}.

(* ===================================================================== *)
(** ** PersistentMessageManager *)
(* ===================================================================== *)

Module PersistentMessageManager.

Record PersistentMessageManagerOptions : Type := {
  opt_maxTokens : option Z;
  opt_conversationId : option string;
  opt_dbPath : option string;
  opt_memory : option ChatMemoryAdapter
}.

(** [interface SerializedContent] *)
Record SerializedContent : Type := {
  sc_content : string;
  isJson : bool
}.

Section Class.
Context {RT : JSRuntime} {P : Type} {Base : MessageManager P}.

(** The fields of the class; [super] is the state of the base class. *)
Record t : Type := {
  super : P;
  memory : ChatMemoryAdapter;
  conversationId : string;
  restoring : bool
}.

Definition State : Type := World * t.

Definition set_super (p : P) (o : t) : t :=
  {| super := p; memory := memory o; conversationId := conversationId o;
     restoring := restoring o |}.
Definition set_memory (a : ChatMemoryAdapter) (o : t) : t :=
  {| super := super o; memory := a; conversationId := conversationId o;
     restoring := restoring o |}.
Definition set_restoring (b : bool) (o : t) : t :=
  {| super := super o; memory := memory o; conversationId := conversationId o;
     restoring := b |}.

(** A method call [this.memory.f(...)], recorded and run on the adapter. *)
Definition on_memory {A} (call : AdapterCall) (f : M Adapter.State A) : M State A :=
  record_call call ;;
  zoom (fun s : State => (fst s, memory (snd s)))
       (fun r s => (fst r, set_memory (snd r) (snd s))) f.

(** [super.add], [super.clear] and [super.setMaxTokens] *)
Definition on_super (f : P -> P) : M State unit :=
  modify_this (fun self => set_super (f (super self)) self).

(** [private normalizeContent] *)
Definition normalizeContent (message : BaseMessage) : SerializedContent :=
  match msg_content message with
  | JStr rawContent => {| sc_content := rawContent; isJson := false |}
  | rawContent =>
      match JSON_stringify rawContent with
      | Ok text => {| sc_content := text; isJson := true |}
      | Throw _ => {| sc_content := String_of rawContent; isJson := false |}
      end
  end.

(** The part of [extractMetadata] under [message instanceof ToolMessage] *)
Definition extractToolMetadata (message : BaseMessage) (metadata : Obj) : Obj :=
  match message with
  | ToolMessage _ _ tool_call_id status artifact tool_metadata =>
      let metadata := obj_set "toolCallId" (JStr tool_call_id) metadata in
      let metadata :=
        match status with
        | Some s => if truthy (Some (JStr s)) then obj_set "toolStatus" (JStr s) metadata
                    else metadata
        | None => metadata
        end in
      let metadata :=
        match artifact with
        | Some a => obj_set "artifact" a metadata
        | None => metadata
        end in
      match tool_metadata with
      | Some tm =>
          if truthy (Some tm) && (0 <? Object_keys_length tm)%nat
          then obj_set "toolMetadata" tm metadata else metadata
      | None => metadata
      end
  | _ => metadata
  end.

(** The part of [extractMetadata] under [message instanceof AIMessage] *)
Definition extractAIMetadata (message : BaseMessage) (metadata : Obj) : Obj :=
  match message with
  | AIMessage _ _ tool_calls invalidCalls usage_metadata =>
      let metadata :=
        if (0 <? length tool_calls)%nat
        then obj_set "toolCalls" (JArr tool_calls) metadata else metadata in
      let metadata :=
        if (0 <? length invalidCalls)%nat
        then obj_set "invalidToolCalls" (JArr invalidCalls) metadata else metadata in
      if truthy usage_metadata
      then match usage_metadata with
           | Some um => obj_set "usageMetadata" um metadata
           | None => metadata
           end
      else metadata
  | _ => metadata
  end.

(** [private extractMetadata] *)
Definition extractMetadata (message : BaseMessage) (contentIsJson : bool) : option Obj :=
  let metadata : Obj := [] in
  let metadata :=
    if contentIsJson then obj_set "contentIsJson" (JBool true) metadata else metadata in
  let metadata :=
    if truthy (Some (msg_additional_kwargs message))
       && (0 <? Object_keys_length (msg_additional_kwargs message))%nat
    then obj_set "additional_kwargs" (msg_additional_kwargs message) metadata
    else metadata in
  let metadata := extractToolMetadata message metadata in
  let metadata := extractAIMetadata message metadata in
  if (0 <? length metadata)%nat then Some metadata else None.

(** [private serializeMessage] *)
Definition serializeMessage (env : Env) (message : BaseMessage) (sequence : Z)
  : M State ChatMemoryMessage :=
  let serialized := normalizeContent message in
  let metadata := extractMetadata message (isJson serialized) in
  now ← Date_now env;
  mret {| role := _getMessageType message;
          content := sc_content serialized;
          sequence := sequence;
          createdAt := Some now;
          metadata := metadata |}.

(** [messages.map((message, index) => this.serializeMessage(message, index))] *)
Fixpoint serialize_from (env : Env) (index : nat) (messages : list BaseMessage)
  : M State (list ChatMemoryMessage) :=
  match messages with
  | [] => mret []
  | message :: messages' =>
      row ← serializeMessage env message (Z.of_nat index);
      rows ← serialize_from env (S index) messages';
      mret (row :: rows)
  end.

(** [private persistMessages] *)
Definition persistMessages (env : Env) : M State unit :=
  try_catch
    (self ← this;
     messages ← serialize_from env 0 (super_getMessages (super self));
     on_memory (CallReplaceConversation (conversationId self) messages)
       (Adapter.replaceConversation env (conversationId self) messages))
    (fun message =>
       Logging_log "PersistentMessageManager"
         ("Failed to persist chat history: " +:+ message) "warning").

(** [override add] *)
Definition add (env : Env) (message : BaseMessage) (position : option nat)
  : M State unit :=
  on_super (super_add message position) ;;
  self ← this;
  if negb (restoring self) then persistMessages env else mret tt.

(** [override clear] *)
Definition clear (env : Env) : M State unit :=
  on_super super_clear ;;
  self ← this;
  if negb (restoring self)
  then try_catch
         (on_memory (CallClearConversation (conversationId self))
            (Adapter.clearConversation env (conversationId self)))
         (fun message =>
            Logging_log "PersistentMessageManager"
              ("Failed to clear stored conversation: " +:+ message) "warning")
  else mret tt.

(** [override removeLast] *)
Definition removeLast (env : Env) : M State bool :=
  self ← this;
  let '(removed, p) := super_removeLast (super self) in
  on_super (fun _ => p) ;;
  (if removed && negb (restoring self) then persistMessages env else mret tt) ;;
  mret removed.

(** [override setMaxTokens] *)
Definition setMaxTokens (env : Env) (newMaxTokens : Z) : M State unit :=
  on_super (super_setMaxTokens newMaxTokens) ;;
  self ← this;
  if negb (restoring self) then persistMessages env else mret tt.

(** [getMessages], inherited *)
Definition getMessages (self : t) : list BaseMessage := super_getMessages (super self).

(** [private restoreContent] *)
Definition restoreContent (record : ChatMemoryMessage) : JSON :=
  if truthy (md ← metadata record; obj_get "contentIsJson" md)
     && truthy (Some (JStr (content record)))
  then match JSON_parse (content record) with
       | Ok value => value
       | Throw _ => JStr (content record)
       end
  else JStr (content record).

(** [new C(...)] for a message class: the constructor may reject its
    arguments. *)
Definition construct (env : Env) (message : BaseMessage) : Res BaseMessage :=
  if env_fails env (OpConstruct message) then Throw "invalid message fields"
  else Ok message.

(** [typeof content === 'string' ? content : JSON.stringify(content)] *)
Definition content_text (content : JSON) : Res string :=
  match content with
  | JStr s => Ok s
  | _ => JSON_stringify content
  end.

(** [v && typeof v === 'object'] *)
Definition object_value (v : option JSON) : option JSON :=
  if truthy v && typeof_object v then v else None.

(** [new SystemMessage(content)] and [new HumanMessage(content)]: the
    restored content is the only argument.  A string is the content of the
    message; another value is not taken as content, the class reads it as
    its fields. *)
Definition construct_from_content (env : Env) (class : ContentClass) (content : JSON)
  : Res BaseMessage :=
  match content with
  | JStr text =>
      construct env
        match class with
        | SystemClass => SystemMessage (JStr text) (JObj [])
        | HumanClass => HumanMessage (JStr text) (JObj [])
        end
  | _ => Message_of_value class content
  end.

(** [fields.additional_kwargs?.tool_calls], when it is neither [null] nor
    [undefined] *)
Definition raw_tool_calls (additional_kwargs : JSON) : option JSON :=
  match additional_kwargs with
  | JObj fields =>
      match obj_get "tool_calls" fields with
      | Some JNull | None => None
      | Some raw => Some raw
      end
  | _ => None
  end.

(** The tool calls of [new AIMessage(fields)]: those of the fields, and
    none where the fields have none; with [fields.tool_calls] undefined
    and raw tool calls among the annotations, the ones the class derives
    from those. *)
Definition ai_tool_calls (additional_kwargs : JSON) (tool_calls invalid_tool_calls : option (list JSON))
  : list JSON * list JSON :=
  match tool_calls, raw_tool_calls additional_kwargs with
  | None, Some raw => Derived_tool_calls raw
  | _, _ => (default [] tool_calls, default [] invalid_tool_calls)
  end.

(** [private deserializeMessage] *)
Definition deserializeMessage (env : Env) (record : ChatMemoryMessage) : Res BaseMessage :=
  let content := restoreContent record in
  let metadata := default [] (metadata record) in
  if String.eqb (role record) MessageType.SYSTEM then
    construct_from_content env SystemClass content
  else if String.eqb (role record) MessageType.HUMAN then
    construct_from_content env HumanClass content
  else if String.eqb (role record) MessageType.TOOL then
    construct env
      (ToolMessage content
         (default (JObj []) (object_value (obj_get "additional_kwargs" metadata)))
         (default EmptyString (typeof_string (obj_get "toolCallId" metadata)))
         (typeof_string (obj_get "toolStatus" metadata))
         (obj_get "artifact" metadata)
         (object_value (obj_get "toolMetadata" metadata)))
  else if String.eqb (role record) MessageType.BROWSER_STATE then
    match content_text content with
    | Ok text => construct env (BrowserStateMessage (JStr text) (JObj []))
    | Throw message => Throw message
    end
  else if String.eqb (role record) MessageType.TODO_LIST then
    match content_text content with
    | Ok text => construct env (TodoListMessage (JStr text) (JObj []))
    | Throw message => Throw message
    end
  else
    let additional_kwargs :=
      default (JObj []) (object_value (obj_get "additional_kwargs" metadata)) in
    let calls :=
      ai_tool_calls additional_kwargs
        (Array_isArray (obj_get "toolCalls" metadata))
        (Array_isArray (obj_get "invalidToolCalls" metadata)) in
    construct env
      (AIMessage content additional_kwargs (fst calls) (snd calls)
         (object_value (obj_get "usageMetadata" metadata))).

(** The loop of [restoreFromMemory] *)
Fixpoint restore_rows (env : Env) (storedMessages : list ChatMemoryMessage)
  : M State unit :=
  match storedMessages with
  | [] => mret tt
  | stored :: rest =>
      message ← lift_res (deserializeMessage env stored);
      on_super (super_add message None) ;;
      restore_rows env rest
  end.

(** [private restoreFromMemory] *)
Definition restoreFromMemory (env : Env) : M State unit :=
  try_finally
    (try_catch
       (self ← this;
        storedMessages ←
          on_memory (CallGetMessages (conversationId self))
            (Adapter.getMessages env (conversationId self));
        match storedMessages with
        | [] => mret tt
        | _ :: _ =>
            modify_this (set_restoring true) ;;
            restore_rows env storedMessages
        end)
       (fun message =>
          Logging_log "PersistentMessageManager"
            ("Failed to restore chat history: " +:+ message) "warning"))
    (modify_this (set_restoring false)).

(** A method call on an adapter that is not yet a field of the manager. *)
Definition on_adapter {A} (call : AdapterCall) (f : M Adapter.State A)
  : M Adapter.State A :=
  record_call call ;; f.

(** [private createFallbackMemory] *)
Definition createFallbackMemory (env : Env) : M World ChatMemoryAdapter :=
  fun w =>
    let '(r, (w', fallback)) :=
      on_adapter CallInitialize (Adapter.initialize env)
        (w, InMemoryAdapter InMemoryChatMemory.new) in
    (match r with Ok _ => Ok fallback | Throw e => Throw e end, w').

(** The steps of [initializeMemory] on the adapter it was given or made. *)
Definition probe_memory (env : Env) (guarded : bool) : M Adapter.State bool :=
  (if guarded
   then try_catch (on_adapter CallInitialize (Adapter.initialize env))
          (fun message =>
             Logging_log "PersistentMessageManager"
               ("Failed to initialize provided chat memory: " +:+ message) "warning")
   else on_adapter CallInitialize (Adapter.initialize env)) ;;
  on_adapter CallIsAvailable (Adapter.isAvailable env).

Definition log_world (source message level : string) : M World unit :=
  fun w => (Ok tt,
    {| disk := disk w;
       log := log w ++ [{| log_source := source; log_message := message;
                           log_level := level |}];
       clock_reads := clock_reads w; adapter_calls := adapter_calls w |}).

(** [private initializeMemory] *)
Definition initializeMemory (env : Env) (options : PersistentMessageManagerOptions)
  : M World ChatMemoryAdapter :=
  fun w =>
    match opt_memory options with
    | Some provided =>
        match probe_memory env true (w, provided) with
        | (Ok true, (w', provided')) => (Ok provided', w')
        | (Ok false, (w', _)) =>
            (log_world "PersistentMessageManager"
               "Provided chat memory is unavailable - using fallback" "warning" ;;
             createFallbackMemory env) w'
        | (Throw e, (w', _)) => (Throw e, w')
        end
    | None =>
        let sqliteMemory :=
          SQLiteAdapter
            (SQLiteChatMemory.new env
               {| SQLiteChatMemory.opt_dbPath := opt_dbPath options;
                  SQLiteChatMemory.opt_journalMode := None |}) in
        match probe_memory env false (w, sqliteMemory) with
        | (Ok true, (w', sqliteMemory')) => (Ok sqliteMemory', w')
        | (Ok false, (w', _)) =>
            (log_world "PersistentMessageManager"
               "SQLite chat memory unavailable - using in-memory fallback" "warning" ;;
             createFallbackMemory env) w'
        | (Throw e, (w', _)) => (Throw e, w')
        end
    end.

(** [constructor(options)] *)
Definition new (env : Env) (options : PersistentMessageManagerOptions) : M World t :=
  fun w =>
    let conversationId :=
      default (default "default" (env_BROWSEROS_CHAT_MEMORY_ID env))
              (opt_conversationId options) in
    match initializeMemory env options w with
    | (Ok memory, w') =>
        let self := {| super := super_new (opt_maxTokens options);
                       memory := memory;
                       conversationId := conversationId;
                       restoring := false |} in
        match restoreFromMemory env (w', self) with
        | (Ok _, (w'', self')) => (Ok self', w'')
        | (Throw e, (w'', _)) => (Throw e, w'')
        end
    | (Throw e, w') => (Throw e, w')
    end.

End Class.
End PersistentMessageManager.

(* ===================================================================== *)
(** ** A reference runtime *)
(* ===================================================================== *)

(** Executable [JSON.stringify], [JSON.parse] and [String] for the values
    of [JSON] (numbers are integers), to run the program on examples. *)
Module RefRuntime.

Definition hex_digit (n : nat) : ascii :=
  ascii_of_nat (if Nat.ltb n 10 then 48 + n else 87 + n).

Fixpoint quote_chars (s : string) : string :=
  match s with
  | EmptyString => EmptyString
  | String c s' =>
      let n := nat_of_ascii c in
      if Nat.eqb n 34 then String "\" (String c (quote_chars s'))
      else if Nat.eqb n 92 then String "\" (String "\" (quote_chars s'))
      else if Nat.eqb n 10 then String "\" (String "n" (quote_chars s'))
      else if Nat.eqb n 13 then String "\" (String "r" (quote_chars s'))
      else if Nat.eqb n 9 then String "\" (String "t" (quote_chars s'))
      else if Nat.ltb n 32
      then "\u00" +:+ String (hex_digit (n / 16)) (String (hex_digit (n mod 16))
             (quote_chars s'))
      else String c (quote_chars s')
  end.

Definition quote (s : string) : string :=
  String (ascii_of_nat 34) (quote_chars s +:+ String (ascii_of_nat 34) EmptyString).

Fixpoint join (sep : string) (parts : list string) : string :=
  match parts with
  | [] => EmptyString
  | [x] => x
  | x :: rest => x +:+ sep +:+ join sep rest
  end.

Fixpoint stringify (v : JSON) : string :=
  match v with
  | JNull => "null"
  | JBool true => "true"
  | JBool false => "false"
  | JNum n => pretty n
  | JStr s => quote s
  | JArr items => "[" +:+ join "," (map stringify items) +:+ "]"
  | JObj fields =>
      "{" +:+ join "," (map (fun kv => quote (fst kv) +:+ ":" +:+ stringify (snd kv)) fields)
          +:+ "}"
  end.

Fixpoint to_String (v : JSON) : string :=
  match v with
  | JNull => "null"
  | JBool true => "true"
  | JBool false => "false"
  | JNum n => pretty n
  | JStr s => s
  | JArr items =>
      join "," (map (fun x => match x with JNull => EmptyString | _ => to_String x end) items)
  | JObj _ => "[object Object]"
  end.

Fixpoint skip_ws (s : string) : string :=
  match s with
  | String c s' => if is_white_space c then skip_ws s' else s
  | EmptyString => EmptyString
  end.

Definition digit_value (c : ascii) : option Z :=
  let n := nat_of_ascii c in
  if Nat.leb 48 n && Nat.leb n 57 then Some (Z.of_nat (n - 48)) else None.

Definition hex_value (c : ascii) : option nat :=
  let n := nat_of_ascii c in
  if Nat.leb 48 n && Nat.leb n 57 then Some (n - 48)
  else if Nat.leb 97 n && Nat.leb n 102 then Some (n - 87)
  else if Nat.leb 65 n && Nat.leb n 70 then Some (n - 55)
  else None.

(** The digits at the head of [s], accumulated onto [acc]. *)
Fixpoint parse_digits (acc : Z) (s : string) : Z * string :=
  match s with
  | String c s' =>
      match digit_value c with
      | Some d => parse_digits (10 * acc + d) s'
      | None => (acc, s)
      end
  | EmptyString => (acc, s)
  end.

Definition parse_number (s : string) : option (Z * string) :=
  match s with
  | String "-" (String c s') =>
      match digit_value c with
      | Some d => let '(n, rest) := parse_digits d s' in Some ((- n)%Z, rest)
      | None => None
      end
  | String c s' =>
      match digit_value c with
      | Some d => Some (parse_digits d s')
      | None => None
      end
  | EmptyString => None
  end.

Definition unescape (n : nat) : option ascii :=
  if Nat.eqb n 34 || Nat.eqb n 92 || Nat.eqb n 47 then Some (ascii_of_nat n)
  else if Nat.eqb n 110 then Some (ascii_of_nat 10)
  else if Nat.eqb n 114 then Some (ascii_of_nat 13)
  else if Nat.eqb n 116 then Some (ascii_of_nat 9)
  else if Nat.eqb n 98 then Some (ascii_of_nat 8)
  else if Nat.eqb n 102 then Some (ascii_of_nat 12)
  else None.

Definition cons_char (c : ascii) (r : option (string * string)) : option (string * string) :=
  match r with
  | Some (text, rest) => Some (String c text, rest)
  | None => None
  end.

(** The characters of a string literal after its opening quote. *)
Fixpoint parse_chars (s : string) : option (string * string) :=
  match s with
  | EmptyString => None
  | String c rest =>
      if Nat.eqb (nat_of_ascii c) 34 then Some (EmptyString, rest)
      else if Nat.eqb (nat_of_ascii c) 92 then
        match rest with
        | String e rest1 =>
            if Nat.eqb (nat_of_ascii e) 117 then
              match rest1 with
              | String h1 (String h2 (String h3 (String h4 rest2))) =>
                  match hex_value h1, hex_value h2, hex_value h3, hex_value h4 with
                  | Some 0, Some 0, Some a, Some b =>
                      cons_char (ascii_of_nat (16 * a + b)) (parse_chars rest2)
                  | _, _, _, _ => None
                  end
              | _ => None
              end
            else match unescape (nat_of_ascii e) with
                 | Some c' => cons_char c' (parse_chars rest1)
                 | None => None
                 end
        | EmptyString => None
        end
      else cons_char c (parse_chars rest)
  end.

Fixpoint strip_prefix (p s : string) : option string :=
  match p, s with
  | EmptyString, _ => Some s
  | String a p', String b s' => if Ascii.eqb a b then strip_prefix p' s' else None
  | String _ _, EmptyString => None
  end.

Definition parse_literal (s : string) : option (JSON * string) :=
  match strip_prefix "null" s, strip_prefix "true" s, strip_prefix "false" s with
  | Some rest, _, _ => Some (JNull, rest)
  | _, Some rest, _ => Some (JBool true, rest)
  | _, _, Some rest => Some (JBool false, rest)
  | _, _, _ =>
      match parse_number s with
      | Some (n, rest) => Some (JNum n, rest)
      | None => None
      end
  end.

(** Recursive descent; [parse_items] reads the elements of an array up to
    its bracket and [parse_fields] the members of an object up to its
    brace. *)
Fixpoint parse_value (fuel : nat) (s : string) : option (JSON * string) :=
  match fuel with
  | 0 => None
  | S fuel' =>
      match skip_ws s with
      | EmptyString => None
      | String c rest =>
          let n := nat_of_ascii c in
          if Nat.eqb n 34 then
            match parse_chars rest with
            | Some (text, rest') => Some (JStr text, rest')
            | None => None
            end
          else if Nat.eqb n 91 then
            match skip_ws rest with
            | String c2 rest2 =>
                if Nat.eqb (nat_of_ascii c2) 93 then Some (JArr [], rest2)
                else match parse_items fuel' rest with
                     | Some (items, rest') => Some (JArr items, rest')
                     | None => None
                     end
            | EmptyString => None
            end
          else if Nat.eqb n 123 then
            match skip_ws rest with
            | String c2 rest2 =>
                if Nat.eqb (nat_of_ascii c2) 125 then Some (JObj [], rest2)
                else match parse_fields fuel' rest with
                     | Some (fields, rest') =>
                         Some (JObj (foldl (fun o kv => obj_set (fst kv) (snd kv) o) [] fields),
                               rest')
                     | None => None
                     end
            | EmptyString => None
            end
          else parse_literal (String c rest)
      end
  end
with parse_items (fuel : nat) (s : string) : option (list JSON * string) :=
  match fuel with
  | 0 => None
  | S fuel' =>
      match parse_value fuel' s with
      | Some (v, rest) =>
          match skip_ws rest with
          | String c rest2 =>
              if Nat.eqb (nat_of_ascii c) 44 then
                match parse_items fuel' rest2 with
                | Some (vs, rest') => Some (v :: vs, rest')
                | None => None
                end
              else if Nat.eqb (nat_of_ascii c) 93 then Some ([v], rest2)
              else None
          | EmptyString => None
          end
      | None => None
      end
  end
with parse_fields (fuel : nat) (s : string) : option (list (string * JSON) * string) :=
  match fuel with
  | 0 => None
  | S fuel' =>
      match skip_ws s with
      | String q rest =>
          if Nat.eqb (nat_of_ascii q) 34 then
            match parse_chars rest with
            | Some (key, rest1) =>
                match skip_ws rest1 with
                | String colon rest2 =>
                    if Nat.eqb (nat_of_ascii colon) 58 then
                      match parse_value fuel' rest2 with
                      | Some (v, rest3) =>
                          match skip_ws rest3 with
                          | String c rest4 =>
                              if Nat.eqb (nat_of_ascii c) 44 then
                                match parse_fields fuel' rest4 with
                                | Some (fs, rest') => Some ((key, v) :: fs, rest')
                                | None => None
                                end
                              else if Nat.eqb (nat_of_ascii c) 125
                              then Some ([(key, v)], rest4)
                              else None
                          | EmptyString => None
                          end
                      | None => None
                      end
                    else None
                | EmptyString => None
                end
            | None => None
            end
          else None
      | EmptyString => None
      end
  end.

Definition parse (text : string) : Res JSON :=
  match parse_value (S (2 * String.length text)) text with
  | Some (v, rest) =>
      match skip_ws rest with
      | EmptyString => Ok v
      | String _ _ => Throw "Unexpected non-whitespace character after JSON"
      end
  | None => Throw "Unexpected token in JSON"
  end.

(** The runtime over given message classes: what they make of an only
    argument that is not a string, and the tool calls they derive. *)
Definition with_classes (message_of_value : ContentClass -> JSON -> Res BaseMessage)
    (derived_tool_calls : JSON -> list JSON * list JSON) : JSRuntime :=
  {| JSON_stringify := fun v => Ok (stringify v);
     JSON_parse := parse;
     String_of := to_String;
     Message_of_value := message_of_value;
     Derived_tool_calls := derived_tool_calls |}.

(** The message classes of the reference runtime take strings as content
    and explicit tool calls.  A message without content, which LangChain
    builds from an only argument that is a record or an array, has no
    value in [BaseMessage]: the reference classes throw for every only
    argument that is not a string, as LangChain does for a number, a
    boolean and [null], and derive no tool calls.  The examples of this
    file run on the reference runtime with string content for system and
    human messages and without raw tool calls; statements on other
    content are made for every runtime. *)
Definition no_message (class : ContentClass) (fields : JSON) : Res BaseMessage :=
  Throw "Cannot read the fields of a message".

Definition no_derived_tool_calls (raw : JSON) : list JSON * list JSON := ([], []).

#[export] Instance runtime : JSRuntime := with_classes no_message no_derived_tool_calls.

End RefRuntime.

(* ===================================================================== *)
(** ** InMemoryChatMemory over an object heap *)
(* ===================================================================== *)

(** The transient adapter again, with rows and the values in them as heap
    objects held by reference, to tell a copy from a shared object. *)
Module ObjectHeap.

Inductive Value : Type :=
| VUndefined
| VNull
| VBool (b : bool)
| VNum (n : Z)
| VStr (s : string)
| VRef (address : nat).

(** An object or array: its own properties in insertion order. *)
Abbreviation Object := (list (string * Value)).

(** The heap: the object at each address. *)
Abbreviation Heap := (list Object).

Fixpoint prop_get (k : string) (o : Object) : Value :=
  match o with
  | [] => VUndefined
  | (k', v) :: o' => if String.eqb k k' then v else prop_get k o'
  end.

Fixpoint prop_set (k : string) (v : Value) (o : Object) : Object :=
  match o with
  | [] => [(k, v)]
  | (k', v') :: o' =>
      if String.eqb k k' then (k, v) :: o' else (k', v') :: prop_set k v o'
  end.

(** [x.k] *)
Definition get_field (h : Heap) (x : Value) (k : string) : Value :=
  match x with
  | VRef l => match h !! l with Some o => prop_get k o | None => VUndefined end
  | _ => VUndefined
  end.

(** [x.k = v] on the object at address [l] *)
Definition set_field (l : nat) (k : string) (v : Value) (h : Heap) : Heap :=
  match h !! l with
  | Some o => <[l := prop_set k v o]> h
  | None => h
  end.

(** A new object *)
Definition alloc (o : Object) (h : Heap) : nat * Heap := (length h, h ++ [o]).

Definition truthy (v : Value) : bool :=
  match v with
  | VUndefined | VNull => false
  | VBool b => b
  | VNum n => negb (n =? 0)%Z
  | VStr s => negb (String.eqb s EmptyString)
  | VRef _ => true
  end.

(** The properties [{ ...x }] copies *)
Definition spread (h : Heap) (x : Value) : Object :=
  match x with
  | VRef l => default [] (h !! l)
  | _ => []
  end.

(** [{ ...message, metadata: message.metadata ? { ...message.metadata } : undefined }] *)
Definition copy_message (message : nat) (h : Heap) : nat * Heap :=
  let md := get_field h (VRef message) "metadata" in
  if truthy md then
    let '(md', h1) := alloc (spread h md) h in
    alloc (prop_set "metadata" (VRef md') (spread h (VRef message))) h1
  else
    alloc (prop_set "metadata" VUndefined (spread h (VRef message))) h.

(** [messages.map(message => ({ ... }))] *)
Fixpoint copy_messages (messages : list nat) (h : Heap) : list nat * Heap :=
  match messages with
  | [] => ([], h)
  | message :: rest =>
      let '(row, h1) := copy_message message h in
      let '(rows, h2) := copy_messages rest h1 in
      (row :: rows, h2)
  end.

(** [private readonly store]: the array of row objects of each conversation *)
Record t : Type := { store : gmap string (list nat) }.

Definition replaceConversation (conversationId : string) (messages : list nat)
  (s : Heap * t) : Heap * t :=
  let '(rows, h) := copy_messages messages (fst s) in
  (h, {| store := <[conversationId := rows]> (store (snd s)) |}).

Definition getMessages (conversationId : string) (s : Heap * t) : list nat * (Heap * t) :=
  match store (snd s) !! conversationId with
  | None => ([], s)
  | Some messages =>
      let '(rows, h) := copy_messages messages (fst s) in
      (rows, (h, snd s))
  end.

Definition clearConversation (conversationId : string) (s : Heap * t) : Heap * t :=
  (fst s, {| store := delete conversationId (store (snd s)) |}).

(** *** What a caller can see *)

(** A value with the objects under it, read to depth [fuel]. *)
Inductive Snapshot : Type :=
| SValue (v : Value)
| SObject (fields : list (string * Snapshot)).

Fixpoint snapshot (fuel : nat) (h : Heap) (v : Value) : Snapshot :=
  match fuel with
  | 0 => SValue v
  | S fuel' =>
      match v with
      | VRef l =>
          match h !! l with
          | Some o => SObject (map (fun kv => (fst kv, snapshot fuel' h (snd kv))) o)
          | None => SValue VUndefined
          end
      | _ => SValue v
      end
  end.

(** The result of [getMessages] read to depth [fuel]. *)
Definition read_messages (fuel : nat) (conversationId : string) (s : Heap * t)
  : list Snapshot :=
  let '(rows, (h, _)) := getMessages conversationId s in
  map (fun r => snapshot fuel h (VRef r)) rows.

(** The objects the adapter keeps: the stored rows and their metadata maps. *)
Definition metadata_of (h : Heap) (row : nat) : Value := get_field h (VRef row) "metadata".

Definition kept (s : Heap * t) (l : nat) : Prop :=
  exists conversationId rows row,
    store (snd s) !! conversationId = Some rows /\ row ∈ rows /\
    (l = row \/ metadata_of (fst s) row = VRef l).

(** Every stored row is an object of the heap, and so is its metadata map. *)
Definition well_formed (s : Heap * t) : Prop :=
  forall l, kept s l -> l < length (fst s).

(** The result of [getMessages] read to two levels: the object of each
    returned row and the object of its metadata map. *)
Definition read_two_levels (conversationId : string) (s : Heap * t)
  : list (option Object * option Object) :=
  let '(rows, (h, _)) := getMessages conversationId s in
  map (fun r =>
         (h !! r,
          match metadata_of h r with
          | VRef l => h !! l
          | _ => None
          end)) rows.

(** What a copied row is: a new object, whose metadata map, if it has one,
    is a new object too. *)
Definition fresh_row (h h' : Heap) (r : nat) : Prop :=
  length h <= r < length h' /\
  (metadata_of h' r = VUndefined \/
   exists l, metadata_of h' r = VRef l /\ length h <= l < length h').

(** Two heaps with the same objects at the addresses of [S] and from
    address [n] on. *)
Definition agree (n : nat) (S : nat -> Prop) (h1 h2 : Heap) : Prop :=
  length h1 = length h2 /\
  (forall x, S x -> h1 !! x = h2 !! x) /\
  (forall x, n <= x -> h1 !! x = h2 !! x).

End ObjectHeap.

(* ===================================================================== *)
(** ** Closed forms of the adapter methods *)
(* ===================================================================== *)

Module SQL := SQLiteChatMemory.
Module Mem := InMemoryChatMemory.
Module PMM := PersistentMessageManager.

(** The world with one more entry in the log. *)
Definition add_log (source message level : string) (w : World) : World :=
  {| disk := disk w;
     log := log w ++ [{| log_source := source; log_message := message; log_level := level |}];
     clock_reads := clock_reads w; adapter_calls := adapter_calls w |}.

(** The world after [n] more reads of the clock. *)
Definition tick (n : nat) (w : World) : World :=
  {| disk := disk w; log := log w; clock_reads := n + clock_reads w;
     adapter_calls := adapter_calls w |}.

(** The world with one more method call on record. *)
Definition add_call (c : AdapterCall) (w : World) : World :=
  {| disk := disk w; log := log w; clock_reads := clock_reads w;
     adapter_calls := adapter_calls w ++ [c] |}.

Section ClosedForms.
Context {RT : JSRuntime}.

(** The driver [loadDriver] leaves cached. *)
Definition driver_after (env : Env) (o : SQL.t) : option string :=
  match SQL.driver o with
  | Some d => Some d
  | None => dynamicRequire env "better-sqlite3"
  end.

(** The first step of opening the database that fails, if one does. *)
Definition open_failure (env : Env) (o : SQL.t) : option string :=
  match driver_after env o with
  | None => Some "better-sqlite3 module is not available"
  | Some _ =>
      if env_fails env (OpOpen (SQL.dbPath o)) then Some "unable to open database file"
      else if env_fails env (OpPragma ("journal_mode = " +:+ SQL.journalMode o))
      then Some "pragma failed"
      else if env_fails env (OpPragma "foreign_keys = ON") then Some "pragma failed"
      else if env_fails env OpExec then Some "exec failed"
      else if env_fails env OpPrepare then Some "prepare failed"
      else None
  end.

Definition connection (o : SQL.t) : SQL.BetterSqlite3Database :=
  {| SQL.connection_path := SQL.dbPath o |}.

(** The object after [ensureDatabase]. *)
Definition ensured (env : Env) (o : SQL.t) : SQL.t :=
  match SQL.database o with
  | Some _ => o
  | None =>
      match open_failure env o with
      | Some _ =>
          {| SQL.dbPath := SQL.dbPath o; SQL.journalMode := SQL.journalMode o;
             SQL.database := None; SQL.statements := None;
             SQL.initialized := SQL.initialized o; SQL.driver := driver_after env o |}
      | None =>
          {| SQL.dbPath := SQL.dbPath o; SQL.journalMode := SQL.journalMode o;
             SQL.database := Some (connection o);
             SQL.statements := Some {| SQL.prepared_on := connection o |};
             SQL.initialized := true; SQL.driver := driver_after env o |}
      end
  end.

(** The world after [ensureDatabase]: a failure to open is logged. *)
Definition ensured_world (env : Env) (o : SQL.t) (w : World) : World :=
  match SQL.database o, open_failure env o with
  | None, Some message =>
      add_log "SQLiteChatMemory" ("Failed to initialize SQLite memory: " +:+ message)
        "warning" w
  | _, _ => w
  end.

(** The table row [insertMessage] writes for a row. *)
Definition table_row (conversationId : string) (now : Z) (row : ChatMemoryMessage)
  : MessageRow :=
  {| row_conversation_id := conversationId;
     row_role := role row;
     row_content := content row;
     row_metadata := match SQL.metadata_json row with Ok text => text | Throw _ => None end;
     row_sequence := sequence row;
     row_created_at := default now (createdAt row) |}.

(** The first step of the insert loop that fails, from the [nth] row on. *)
Fixpoint insert_failure (env : Env) (nth : nat) (rows : list ChatMemoryMessage)
  : option string :=
  match rows with
  | [] => None
  | row :: rest =>
      match SQL.metadata_json row with
      | Throw message => Some message
      | Ok _ =>
          if env_fails env (OpInsertMessage nth) then Some "insertMessage failed"
          else insert_failure env (S nth) rest
      end
  end.

(** The first step of the transaction of [replaceConversation] that fails. *)
Definition replace_failure (env : Env) (rows : list ChatMemoryMessage) : option string :=
  if env_fails env OpBegin then Some "cannot start a transaction"
  else if env_fails env OpUpsertConversation then Some "upsertConversation failed"
  else if env_fails env OpDeleteMessages then Some "deleteMessages failed"
  else match insert_failure env 0 rows with
       | Some message => Some message
       | None => if env_fails env OpCommit then Some "cannot commit the transaction"
                 else None
       end.

Definition not_of (conversationId : string) (r : MessageRow) : bool :=
  negb (String.eqb (row_conversation_id r) conversationId).

(** The file after a committed [replaceConversation]. *)
Definition replaced (conversationId : string) (now : Z) (rows : list ChatMemoryMessage)
  (d : Database) : Database :=
  {| conversations := SQL.upsert_conversation conversationId now now (conversations d);
     chat_messages :=
       filter (not_of conversationId) (chat_messages d)
       ++ map (table_row conversationId now) rows |}.

(** The world after [replaceConversation] on an open connection. *)
Definition replace_world (env : Env) (st : SQL.PreparedStatements)
  (conversationId : string) (rows : list ChatMemoryMessage) (w : World) : World :=
  let now := env_clock env (clock_reads w) in
  let path := SQL.connection_path (SQL.prepared_on st) in
  match replace_failure env rows with
  | Some message =>
      add_log "SQLiteChatMemory" ("Failed to persist chat history: " +:+ message) "error"
        (tick 1 w)
  | None =>
      set_disk (<[path := replaced conversationId now rows (database_at path w)]> (disk w))
        (tick 1 w)
  end.

(** The first step of the transaction of [clearConversation] that fails. *)
Definition clear_failure (env : Env) : option string :=
  if env_fails env OpBegin then Some "cannot start a transaction"
  else if env_fails env OpDeleteMessages then Some "deleteMessages failed"
  else if env_fails env OpDeleteConversation then Some "deleteConversation failed"
  else if env_fails env OpCommit then Some "cannot commit the transaction"
  else None.

(** The file after a committed [clearConversation]. *)
Definition cleared (conversationId : string) (d : Database) : Database :=
  {| conversations :=
       filter (fun c => negb (String.eqb (conv_id c) conversationId)) (conversations d);
     chat_messages := filter (not_of conversationId) (chat_messages d) |}.

Definition clear_world (env : Env) (st : SQL.PreparedStatements)
  (conversationId : string) (w : World) : World :=
  let path := SQL.connection_path (SQL.prepared_on st) in
  match clear_failure env with
  | Some message =>
      add_log "SQLiteChatMemory" ("Failed to clear chat history: " +:+ message) "warning" w
  | None => set_disk (<[path := cleared conversationId (database_at path w)]> (disk w)) w
  end.

(** The rows [selectMessages] finds in a file. *)
Definition selected (conversationId : string) (d : Database) : list MessageRow :=
  order_by_sequence
    (filter (fun r => String.eqb (row_conversation_id r) conversationId) (chat_messages d)).

End ClosedForms.

Section ManagerClosedForms.
Context {RT : JSRuntime} {P : Type} {Base : MessageManager P}.

(** The row [serializeMessage] builds when the clock reads [now]. *)
Definition row_of (message : BaseMessage) (sequence : Z) (now : Z) : ChatMemoryMessage :=
  {| role := _getMessageType message;
     content := PMM.sc_content (PMM.normalizeContent message);
     sequence := sequence;
     createdAt := Some now;
     metadata := PMM.extractMetadata message (PMM.isJson (PMM.normalizeContent message)) |}.

(** The rows [persistMessages] builds, from position [index], when the
    clock has been read [reads] times. *)
Fixpoint rows_of (env : Env) (reads index : nat) (messages : list BaseMessage)
  : list ChatMemoryMessage :=
  match messages with
  | [] => []
  | message :: rest =>
      row_of message (Z.of_nat index) (env_clock env reads)
      :: rows_of env (S reads) (S index) rest
  end.

(** The pipeline after the loop of [restoreFromMemory], and the error that
    stopped the loop if one did. *)
Fixpoint replay (env : Env) (storedMessages : list ChatMemoryMessage) (p : P)
  : P * option string :=
  match storedMessages with
  | [] => (p, None)
  | stored :: rest =>
      match PMM.deserializeMessage env stored with
      | Ok message => replay env rest (super_add message None p)
      | Throw e => (p, Some e)
      end
  end.

(** The state after [persistMessages]. *)
Definition persisted (env : Env) (s : World * PMM.t) : World * PMM.t :=
  let '(w, self) := s in
  let messages := super_getMessages (PMM.super self) in
  let rows := rows_of env (clock_reads w) 0 messages in
  let '(w', a') :=
    snd (Adapter.replaceConversation env (PMM.conversationId self) rows
           (add_call (CallReplaceConversation (PMM.conversationId self) rows)
              (tick (length messages) w), PMM.memory self)) in
  (w', PMM.set_memory a' self).

(** The state after [restoreFromMemory]. *)
Definition restored (env : Env) (s : World * PMM.t) : World * PMM.t :=
  let '(w, self) := s in
  let '(r, (w', a')) :=
    Adapter.getMessages env (PMM.conversationId self)
      (add_call (CallGetMessages (PMM.conversationId self)) w, PMM.memory self) in
  let stored := match r with Ok rows => rows | Throw _ => [] end in
  let '(p, stopped) := replay env stored (PMM.super self) in
  (match stopped with
   | Some e =>
       add_log "PersistentMessageManager" ("Failed to restore chat history: " +:+ e)
         "warning" w'
   | None => w'
   end,
   {| PMM.super := p; PMM.memory := a'; PMM.conversationId := PMM.conversationId self;
      PMM.restoring := false |}).

(** The answer of [isAvailable] after [initialize], and the state then. *)
Definition probed (env : Env) (s : World * ChatMemoryAdapter)
  : bool * (World * ChatMemoryAdapter) :=
  let s1 := snd (Adapter.initialize env (add_call CallInitialize (fst s), snd s)) in
  let '(r, s2) := Adapter.isAvailable env (add_call CallIsAvailable (fst s1), snd s1) in
  (match r with Ok b => b | Throw _ => false end, s2).

(** The adapter [initializeMemory] settles on, and the world then. *)
Definition chosen_memory (env : Env) (options : PMM.PersistentMessageManagerOptions)
  (w : World) : ChatMemoryAdapter * World :=
  let candidate :=
    match PMM.opt_memory options with
    | Some provided => provided
    | None =>
        SQLiteAdapter
          (SQL.new env {| SQL.opt_dbPath := PMM.opt_dbPath options;
                          SQL.opt_journalMode := None |})
    end in
  let '(available, (w', a')) := probed env (w, candidate) in
  if available then (a', w')
  else (InMemoryAdapter Mem.new,
        add_call CallInitialize
          (add_log "PersistentMessageManager"
             match PMM.opt_memory options with
             | Some _ => "Provided chat memory is unavailable - using fallback"
             | None => "SQLite chat memory unavailable - using in-memory fallback"
             end "warning" w')).

(** The manager [new] builds, and the world then. *)
Definition constructed (env : Env) (options : PMM.PersistentMessageManagerOptions)
  (w : World) : World * PMM.t :=
  let '(a, w') := chosen_memory env options w in
  restored env
    (w', {| PMM.super := super_new (PMM.opt_maxTokens options);
            PMM.memory := a;
            PMM.conversationId :=
              default (default "default" (env_BROWSEROS_CHAT_MEMORY_ID env))
                      (PMM.opt_conversationId options);
            PMM.restoring := false |}).

End ManagerClosedForms.

(* ===================================================================== *)
(** ** Vocabulary of the statements *)
(* ===================================================================== *)

(** What an adapter has stored: the file of the durable adapter, the map
    of the transient one. *)
Definition stored_state (w : World) (a : ChatMemoryAdapter)
  : Database + gmap string (list ChatMemoryMessage) :=
  match a with
  | SQLiteAdapter o => inl (database_at (SQL.dbPath o) w)
  | InMemoryAdapter m => inr (Mem.store m)
  end.

(** An environment in which nothing fails. *)
Definition calm_env : Env :=
  {| env_fails := fun _ => false;
     env_clock := fun n => (1700000000000 + Z.of_nat n)%Z;
     env_BROWSEROS_CHAT_MEMORY_ID := None;
     env_BROWSEROS_CHAT_MEMORY_PATH := None;
     env_cwd := "/srv/app";
     env_path_join := fun a b => a +:+ "/" +:+ b |}.

Definition empty_world : World :=
  {| disk := ∅; log := []; clock_reads := 0; adapter_calls := [] |}.

(** The list pipeline that trims nothing. *)
Definition untrimmed : MessageManager ListPipeline := ListPipeline_ops (fun _ l => l).

Section ReadVocabulary.
Context {RT : JSRuntime}.

(** The read of the durable adapter fails: no connection can be had, or
    the query fails. *)
Definition read_fails (env : Env) (a : ChatMemoryAdapter) : bool :=
  match a with
  | SQLiteAdapter o =>
      match SQL.database (ensured env o), SQL.statements (ensured env o) with
      | Some _, Some _ => env_fails env OpSelectMessages
      | _, _ => true
      end
  | InMemoryAdapter _ => false
  end.

(** The adapter has rows under the conversation id. *)
Definition conversation_known (env : Env) (conversationId : string) (w : World)
  (a : ChatMemoryAdapter) : bool :=
  match a with
  | SQLiteAdapter o =>
      match SQL.statements (ensured env o) with
      | Some st =>
          existsb (fun r => String.eqb (row_conversation_id r) conversationId)
            (chat_messages (database_at (SQL.connection_path (SQL.prepared_on st)) w))
      | None => false
      end
  | InMemoryAdapter m => bool_decide (is_Some (Mem.store m !! conversationId))
  end.

(** What [isAvailable] answers. *)
Definition available (env : Env) (a : ChatMemoryAdapter) : bool :=
  match a with
  | SQLiteAdapter o => bool_decide (is_Some (SQL.database (ensured env o)))
  | InMemoryAdapter _ => true
  end.

End ReadVocabulary.

Section WriteVocabulary.
Context {RT : JSRuntime} {P : Type} {Base : MessageManager P}.

(** The object is as its methods leave it: a connection is one on its own
    path, with the statements prepared on it. *)
Definition consistent (o : SQL.t) : Prop :=
  match SQL.database o with
  | Some db =>
      db = connection o /\ SQL.statements o = Some {| SQL.prepared_on := connection o |}
  | None => True
  end.

(** The adapter takes the write: the transient one always does; the
    durable one when it has a connection and no step of the transaction
    fails. *)
Definition accepts (env : Env) (a : ChatMemoryAdapter) (rows : list ChatMemoryMessage)
  : Prop :=
  match a with
  | InMemoryAdapter _ => True
  | SQLiteAdapter o =>
      consistent o /\ SQL.database (ensured env o) <> None /\
      replace_failure env rows = None
  end.

(** The query of the durable adapter goes through. *)
Definition reads (env : Env) (a : ChatMemoryAdapter) : Prop :=
  match a with
  | InMemoryAdapter _ => True
  | SQLiteAdapter _ => env_fails env OpSelectMessages = false
  end.

(** A row as the adapter gives it back. *)
Definition stored_form (a : ChatMemoryAdapter) (conversationId : string) (now : Z)
  (row : ChatMemoryMessage) : ChatMemoryMessage :=
  match a with
  | InMemoryAdapter _ => Mem.copy_message row
  | SQLiteAdapter _ => SQL.deserializeRow (table_row conversationId now row)
  end.

(** Sequences that are dense and zero-based: [0 .. N-1]. *)
Definition dense (sequences : list Z) : Prop :=
  sequences = map Z.of_nat (seq 0 (length sequences)).

(** The rows stored for the conversation, in the order [getMessages] gives
    them, have dense sequences; the durable adapter is consistent. *)
Definition stored_dense (conversationId : string) (w : World) (a : ChatMemoryAdapter)
  : Prop :=
  match a with
  | InMemoryAdapter m =>
      dense (map sequence (default [] (Mem.store m !! conversationId)))
  | SQLiteAdapter o =>
      consistent o /\
      dense (map row_sequence (selected conversationId (database_at (SQL.dbPath o) w)))
  end.

(** The mutating operations of the manager that persist by rewriting. *)
Inductive Mutation : Type :=
| MutAdd (message : BaseMessage) (position : option nat)
| MutRemoveLast
| MutSetMaxTokens (newMaxTokens : Z).

Definition mutate (env : Env) (op : Mutation) : M (World * @PMM.t P) unit :=
  match op with
  | MutAdd message position => PMM.add env message position
  | MutRemoveLast => PMM.removeLast env ;; mret tt
  | MutSetMaxTokens n => PMM.setMaxTokens env n
  end.

(** The pipeline after the base operation, and whether it changed it. *)
Definition pipeline_after (op : Mutation) (p : P) : P :=
  match op with
  | MutAdd message position => super_add message position p
  | MutRemoveLast => snd (super_removeLast p)
  | MutSetMaxTokens n => super_setMaxTokens n p
  end.

Definition mutates (op : Mutation) (p : P) : bool :=
  match op with
  | MutRemoveLast => fst (super_removeLast p)
  | _ => true
  end.

End WriteVocabulary.

Section RoundTripVocabulary.
Context {RT : JSRuntime}.

(** The value comes back from its JSON text: [JSON.stringify] gives a
    text, not empty, that [JSON.parse] reads as the value. *)
Definition json_survives (v : JSON) : Prop :=
  exists text,
    JSON_stringify v = Ok text /\ text <> EmptyString /\ JSON_parse text = Ok v.

(** The content of the message is a string, or JSON-serializable. *)
Definition content_survives (m : BaseMessage) : Prop :=
  match msg_content m with
  | JStr _ => True
  | c => json_survives c
  end.

(** The adapter gives the metadata map of the row back as it was written:
    the transient one always; the durable one when the map comes back from
    its JSON text. *)
Definition row_survives (a : ChatMemoryAdapter) (row : ChatMemoryMessage) : Prop :=
  match a with
  | InMemoryAdapter _ => True
  | SQLiteAdapter _ =>
      match metadata row with
      | Some md => json_survives (JObj md)
      | None => True
      end
  end.

(** The adapter has what it needs to answer: the transient one always, the
    durable one a connection. *)
Definition connected (a : ChatMemoryAdapter) : Prop :=
  match a with
  | InMemoryAdapter _ => True
  | SQLiteAdapter o => SQL.database o <> None
  end.



(** The annotations a restored AI or tool message gets: those stored, when
    they were stored and are an object. *)
Definition restored_kwargs (kw : JSON) : JSON :=
  default (JObj [])
    (PMM.object_value
       (if truthy (Some kw) && (0 <? Object_keys_length kw)%nat then Some kw else None)).

(** The message [deserializeMessage] builds from the row of a
    [constructible] message. *)
Definition restored_message (m : BaseMessage) : BaseMessage :=
  match m with
  | SystemMessage c _ => SystemMessage c (JObj [])
  | HumanMessage c _ => HumanMessage c (JObj [])
  | AIMessage c kw tool_calls invalid_tool_calls um =>
      AIMessage c (restored_kwargs kw) tool_calls invalid_tool_calls
        (if truthy um then PMM.object_value um else None)
  | ToolMessage c kw tool_call_id status artifact tm =>
      ToolMessage c (restored_kwargs kw) tool_call_id
        (match status with
         | Some s => if truthy (Some (JStr s)) then Some s else None
         | None => None
         end)
        artifact
        (match tm with
         | Some t =>
             if truthy (Some t) && (0 <? Object_keys_length t)%nat
             then PMM.object_value (Some t) else None
         | None => None
         end)
  | BrowserStateMessage _ _ =>
      BrowserStateMessage (JStr (PMM.sc_content (PMM.normalizeContent m))) (JObj [])
  | TodoListMessage _ _ =>
      TodoListMessage (JStr (PMM.sc_content (PMM.normalizeContent m))) (JObj [])
  end.

(** The message is rebuilt from arguments its class takes as they are
    given.  A system or human message is built from its content alone,
    which the class takes as content when it is a string.  An AI message
    is built from fields; the class takes the tool calls as given when
    there are some, and when there are none and the annotations carry no
    raw tool calls, from which it would derive some. *)
Definition constructible (m : BaseMessage) : Prop :=
  match m with
  | SystemMessage c _ | HumanMessage c _ => exists s, c = JStr s
  | AIMessage _ kw tool_calls _ _ =>
      tool_calls <> [] \/ PMM.raw_tool_calls (restored_kwargs kw) = None
  | _ => True
  end.

(** The messages whose every field [deserializeMessage] restores. *)
Definition restorable (m : BaseMessage) : Prop :=
  match m with
  | SystemMessage c kw | HumanMessage c kw =>
      kw = JObj [] /\ exists s, c = JStr s
  | BrowserStateMessage c kw | TodoListMessage c kw =>
      kw = JObj [] /\ exists s, c = JStr s
  | AIMessage _ kw tool_calls _ um =>
      (exists o, kw = JObj o) /\
      (tool_calls <> [] \/ PMM.raw_tool_calls kw = None) /\
      match um with Some u => exists o, u = JObj o | None => True end
  | ToolMessage _ kw _ status _ tm =>
      (exists o, kw = JObj o) /\
      status <> Some EmptyString /\
      match tm with Some t => exists k v o, t = JObj ((k, v) :: o) | None => True end
  end.

End RoundTripVocabulary.

(** *** Running the program on examples *)

(** The messages are added, in a calm environment and on the reference
    runtime, to a manager built on the adapter, over a list pipeline that
    trims nothing; a second manager is then built on the adapter of the
    first.  The result is the list of the first manager and the list the
    second one restored. *)
Definition add_all (env : Env) (messages : list BaseMessage)
  (s : World * @PMM.t ListPipeline) : World * @PMM.t ListPipeline :=
  foldl (fun s m => snd (@PMM.add RefRuntime.runtime _ untrimmed env m None s)) s messages.

Definition add_then_reopen (a : ChatMemoryAdapter) (conversationId : string)
  (messages : list BaseMessage) : option (list BaseMessage * list BaseMessage) :=
  let options :=
    fun memory =>
      {| PMM.opt_maxTokens := None; PMM.opt_conversationId := Some conversationId;
         PMM.opt_dbPath := None; PMM.opt_memory := Some memory |} in
  match @PMM.new RefRuntime.runtime _ untrimmed calm_env (options a) empty_world with
  | (Ok first, w) =>
      let '(w1, first') := add_all calm_env messages (w, first) in
      match @PMM.new RefRuntime.runtime _ untrimmed calm_env
              (options (PMM.memory first')) w1 with
      | (Ok second, _) =>
          Some (@PMM.getMessages _ untrimmed first', @PMM.getMessages _ untrimmed second)
      | (Throw _, _) => None
      end
  | (Throw _, _) => None
  end.

(** A durable adapter as its constructor leaves it. *)
Definition new_sqlite : ChatMemoryAdapter :=
  SQLiteAdapter
    (@SQL.new calm_env {| SQL.opt_dbPath := Some "/srv/app/chat.sqlite";
                          SQL.opt_journalMode := None |}).

(** *** Inputs of the examples *)

(** A manager with an empty list pipeline on the adapter. *)
Definition empty_manager (a : ChatMemoryAdapter) (conversationId : string)
  : @PMM.t ListPipeline :=
  {| PMM.super := {| lp_messages := []; lp_maxTokens := None |};
     PMM.memory := a; PMM.conversationId := conversationId; PMM.restoring := false |}.

Definition system_prompt : BaseMessage := SystemMessage (JStr "System prompt") (JObj []).
Definition hello_world : BaseMessage := HumanMessage (JStr "Hello world") (JObj []).
Definition hi_there : BaseMessage := AIMessage (JStr "Hi there!") (JObj []) [] [] None.

(** A human message with an additional annotation. *)
Definition spoken_hello : BaseMessage :=
  HumanMessage (JStr "Hello world") (JObj [("source", JStr "voice")]).


(** An environment in which the second insert of a transaction fails. *)
Definition second_insert_fails : Env :=
  {| env_fails := fun op => match op with OpInsertMessage 1 => true | _ => false end;
     env_clock := env_clock calm_env;
     env_BROWSEROS_CHAT_MEMORY_ID := None;
     env_BROWSEROS_CHAT_MEMORY_PATH := None;
     env_cwd := env_cwd calm_env;
     env_path_join := env_path_join calm_env |}.

(** An environment in which no transaction can begin. *)
Definition begin_fails : Env :=
  {| env_fails := fun op => match op with OpBegin => true | _ => false end;
     env_clock := env_clock calm_env;
     env_BROWSEROS_CHAT_MEMORY_ID := None;
     env_BROWSEROS_CHAT_MEMORY_PATH := None;
     env_cwd := env_cwd calm_env;
     env_path_join := env_path_join calm_env |}.

(** An environment in which the constructor of human messages throws. *)
Definition human_rejected : Env :=
  {| env_fails := fun op => match op with OpConstruct (HumanMessage _ _) => true
                                     | _ => false end;
     env_clock := env_clock calm_env;
     env_BROWSEROS_CHAT_MEMORY_ID := None;
     env_BROWSEROS_CHAT_MEMORY_PATH := None;
     env_cwd := env_cwd calm_env;
     env_path_join := env_path_join calm_env |}.

Definition plain_row (role content : string) (sequence : Z) : ChatMemoryMessage :=
  {| role := role; content := content; sequence := sequence;
     createdAt := Some 1700000000000%Z; metadata := None |}.

(** A transient adapter holding three rows of one conversation. *)
Definition three_rows_stored : ChatMemoryAdapter :=
  InMemoryAdapter
    {| Mem.store :=
         {[ "persist-case" :=
              [plain_row "system" "System prompt" 0; plain_row "human" "Hello world" 1;
               plain_row "ai" "Hi there!" 2] ]} |}.

(** A heap with a tool row: the row object at address 2, its metadata map
    at address 1 and, inside the map, the artifact object at address 0. *)
Definition tool_row_heap : list ObjectHeap.Object :=
  [ [("n", ObjectHeap.VNum 1)];
    [("artifact", ObjectHeap.VRef 0)];
    [("role", ObjectHeap.VStr "tool"); ("content", ObjectHeap.VStr "done");
     ("sequence", ObjectHeap.VNum 0); ("metadata", ObjectHeap.VRef 1)] ].
(* ===================================================================== *)
(** ** Vocabulary of the further properties *)
(* ===================================================================== *)

(** The string is empty or white space of one byte only. *)
Fixpoint all_white_space (s : string) : bool :=
  match s with
  | EmptyString => true
  | String c s' => is_white_space c && all_white_space s'
  end.

(** An option that is absent or blank. *)
Definition blank_option (provided : option string) : Prop :=
  match provided with
  | Some p => all_white_space p = true
  | None => True
  end.

(** The string is a sequence, possibly empty, of the characters
    [String.prototype.trim] strips: [trim] leaves nothing of it. *)
Inductive white_space_only : string -> Prop :=
| white_space_none : white_space_only EmptyString
| white_space_more (u s : string) :
    In u js_white_space -> white_space_only s -> white_space_only (u +:+ s).

(** An option or variable that gives no path: absent, empty or white
    space only. *)
Definition gives_no_path (provided : option string) : Prop :=
  match provided with
  | Some p => white_space_only p
  | None => True
  end.

(** The environment without [BROWSEROS_CHAT_MEMORY_PATH]. *)
Definition without_path_variable (env : Env) : Env :=
  {| env_fails := env_fails env;
     env_clock := env_clock env;
     env_BROWSEROS_CHAT_MEMORY_ID := env_BROWSEROS_CHAT_MEMORY_ID env;
     env_BROWSEROS_CHAT_MEMORY_PATH := None;
     env_cwd := env_cwd env;
     env_path_join := env_path_join env |}.

(** The object is as its methods leave it: with a connection, one on its
    own path with the statements prepared on it and the flag set; without
    one, no statements either. *)
Definition settled (o : SQL.t) : Prop :=
  match SQL.database o with
  | Some db =>
      db = connection o /\ SQL.statements o = Some {| SQL.prepared_on := db |} /\
      SQL.initialized o = true
  | None => SQL.statements o = None
  end.

Section CallVocabulary.
Context {RT : JSRuntime}.

(** One method call on an adapter, in the environment of the call. *)
Definition adapter_call (s : Adapter.State) (c : Env * AdapterCall) : Adapter.State :=
  match snd c with
  | CallInitialize => snd (Adapter.initialize (fst c) s)
  | CallIsAvailable => snd (Adapter.isAvailable (fst c) s)
  | CallReplaceConversation conversationId messages =>
      snd (Adapter.replaceConversation (fst c) conversationId messages s)
  | CallGetMessages conversationId => snd (Adapter.getMessages (fst c) conversationId s)
  | CallClearConversation conversationId =>
      snd (Adapter.clearConversation (fst c) conversationId s)
  end.

(** The adapter takes the clear: the transient one always does; the
    durable one when it has a connection and no step of the transaction
    fails. *)
Definition clears (env : Env) (a : ChatMemoryAdapter) : Prop :=
  match a with
  | InMemoryAdapter _ => True
  | SQLiteAdapter o =>
      consistent o /\ SQL.database (ensured env o) <> None /\ clear_failure env = None
  end.

End CallVocabulary.

(** The record of a conversation in table [conversations]. *)
Definition conversation_record (conversationId : string) (d : Database)
  : option ConversationRow :=
  List.find (fun c => String.eqb (conv_id c) conversationId) (conversations d).

(** *** Inputs of the further examples *)

(** An environment in which only the calls on the file system fail. *)
Definition no_file_system : Env :=
  {| env_fails := fun op => match op with OpFsExists | OpFsMkdir => true | _ => false end;
     env_clock := env_clock calm_env;
     env_BROWSEROS_CHAT_MEMORY_ID := None;
     env_BROWSEROS_CHAT_MEMORY_PATH := None;
     env_cwd := env_cwd calm_env;
     env_path_join := env_path_join calm_env |}.

(** An environment in which the database file cannot be opened. *)
Definition cannot_open : Env :=
  {| env_fails := fun op => match op with OpOpen _ => true | _ => false end;
     env_clock := env_clock calm_env;
     env_BROWSEROS_CHAT_MEMORY_ID := None;
     env_BROWSEROS_CHAT_MEMORY_PATH := None;
     env_cwd := env_cwd calm_env;
     env_path_join := env_path_join calm_env |}.

(** An environment in which [require] finds no module at all. *)
Definition no_modules : Env :=
  {| env_fails := fun op => match op with OpRequire _ => true | _ => false end;
     env_clock := env_clock calm_env;
     env_BROWSEROS_CHAT_MEMORY_ID := None;
     env_BROWSEROS_CHAT_MEMORY_PATH := Some "  ";
     env_cwd := "/srv/app/";
     env_path_join := env_path_join calm_env |}.

(** An environment with the path of the database in its variable. *)
Definition path_in_variable : Env :=
  {| env_fails := env_fails calm_env;
     env_clock := env_clock calm_env;
     env_BROWSEROS_CHAT_MEMORY_ID := None;
     env_BROWSEROS_CHAT_MEMORY_PATH := Some "/var/lib/chat.sqlite";
     env_cwd := env_cwd calm_env;
     env_path_join := env_path_join calm_env |}.

(** The durable adapter of the examples, as a bare object. *)
Definition new_sqlite_object : SQL.t :=
  @SQL.new calm_env {| SQL.opt_dbPath := Some "/srv/app/chat.sqlite";
                       SQL.opt_journalMode := None |}.

(** An AI message with nothing to record beside its content, and the
    kinds that never have: every kind but a tool message. *)
Definition bare (m : BaseMessage) : bool :=
  match m with
  | ToolMessage _ _ _ _ _ _ => false
  | AIMessage _ _ tool_calls invalid_tool_calls usage_metadata =>
      Nat.eqb (length tool_calls) 0 && Nat.eqb (length invalid_tool_calls) 0
      && negb (truthy usage_metadata)
  | _ => true
  end.

(** The roles [deserializeMessage] has a case for, beside [ai]. *)
Definition cased_roles : list string :=
  [MessageType.SYSTEM; MessageType.HUMAN; MessageType.TOOL; MessageType.BROWSER_STATE;
   MessageType.TODO_LIST].

(** A runtime whose [JSON.stringify] rejects a number, as JavaScript's
    rejects a BigInt. *)
Definition bigint_runtime : JSRuntime :=
  {| JSON_stringify := fun v =>
       match v with
       | JNum _ => Throw "Do not know how to serialize a BigInt"
       | _ => Ok (RefRuntime.stringify v)
       end;
     JSON_parse := RefRuntime.parse;
     String_of := RefRuntime.to_String;
     Message_of_value := RefRuntime.no_message;
     Derived_tool_calls := RefRuntime.no_derived_tool_calls |}.

(** An environment in which only [require('better-sqlite3')] fails. *)
Definition driver_gone : Env :=
  {| env_fails := fun op => match op with
                            | OpRequire moduleName => String.eqb moduleName "better-sqlite3"
                            | _ => false
                            end;
     env_clock := env_clock calm_env;
     env_BROWSEROS_CHAT_MEMORY_ID := None;
     env_BROWSEROS_CHAT_MEMORY_PATH := None;
     env_cwd := env_cwd calm_env;
     env_path_join := env_path_join calm_env |}.

(** An environment in which the delete of a conversation record fails. *)
Definition delete_fails : Env :=
  {| env_fails := fun op => match op with OpDeleteConversation => true | _ => false end;
     env_clock := env_clock calm_env;
     env_BROWSEROS_CHAT_MEMORY_ID := None;
     env_BROWSEROS_CHAT_MEMORY_PATH := None;
     env_cwd := env_cwd calm_env;
     env_path_join := env_path_join calm_env |}.

(** Three rows, not in the order of their sequences. *)
Definition rows_out_of_order : list ChatMemoryMessage :=
  [plain_row "ai" "Hi there!" 2; plain_row "system" "System prompt" 0;
   plain_row "human" "Hello world" 1].

Definition rows_in_order : list ChatMemoryMessage :=
  [plain_row "system" "System prompt" 0; plain_row "human" "Hello world" 1;
   plain_row "ai" "Hi there!" 2].

(** The durable adapter of the examples after it wrote one row, and the
    world then. *)
Definition one_row_written : World * SQL.t :=
  snd (@SQL.replaceConversation RefRuntime.runtime calm_env "clear-case"
         [plain_row "human" "Test message" 0] (empty_world, new_sqlite_object)).

(** A world whose database file has a row with a metadata text that is
    not JSON. *)
Definition unreadable_metadata_world : World :=
  {| disk :=
       {[ "/srv/app/chat.sqlite" :=
            {| conversations :=
                 [{| conv_id := "persist-case"; conv_created_at := 1700000000000;
                     conv_updated_at := 1700000000000 |}];
               chat_messages :=
                 [{| row_conversation_id := "persist-case"; row_role := "human";
                     row_content := "Hello world"; row_metadata := Some "{oops";
                     row_sequence := 0; row_created_at := 1700000000000 |}] |} ]};
     log := []; clock_reads := 0; adapter_calls := [] |}.

(** A human message whose content is a string that is valid JSON. *)
Definition json_looking : BaseMessage :=
  HumanMessage (JStr (RefRuntime.stringify (JObj [("a", JNum 1)]))) (JObj []).

(** A human message whose content is a number. *)
Definition number_content : BaseMessage := HumanMessage (JNum 9007199254740993) (JObj []).

(** A manager in the middle of its replay. *)
Definition replaying_manager : @PMM.t ListPipeline :=
  {| PMM.super := {| lp_messages := [system_prompt]; lp_maxTokens := None |};
     PMM.memory := three_rows_stored; PMM.conversationId := "persist-case";
     PMM.restoring := true |}.

(* ===================================================================== *)
(** ** Proofs *)
(* ===================================================================== *)

(** Unfolds the monad and the primitive effects. *)
Ltac run :=
  unfold mbind, mret, M_bind, M_ret, bind, ret, throw, try_catch, try_finally, zoom,
    this, get_world, modify_world, modify_this, Logging_log, Date_now, external,
    record_call, lift_res in *; simpl in *.

Section SQLiteFacts.
Context {RT : JSRuntime}.

Lemma ensureDirectoryExists_ok env path s :
  SQL.ensureDirectoryExists env path s = (Ok tt, s).
Proof.
  unfold SQL.ensureDirectoryExists. destruct s as [w o].
  destruct (dynamicRequire env "fs"), (dynamicRequire env "path"); run; try reflexivity.
  destruct (env_fails env OpFsExists); simpl; [reflexivity|].
  destruct (env_fails env OpFsMkdir); reflexivity.
Qed.

Lemma ensureDatabase_eq env w o :
  SQL.ensureDatabase env (w, o)
  = (Ok (SQL.database (ensured env o)), (ensured_world env o w, ensured env o)).
Proof.
  unfold SQL.ensureDatabase, ensured, ensured_world, open_failure, driver_after.
  run. destruct (SQL.database o) as [db|] eqn:Hdb; [rewrite Hdb; reflexivity|].
  unfold SQL.loadDriver. run.
  destruct (SQL.driver o) as [d|] eqn:Hdrv; simpl.
  - rewrite ensureDirectoryExists_ok.
    repeat (match goal with |- context [env_fails ?e ?op] =>
              destruct (env_fails e op) eqn:?; simpl; try reflexivity end).
    all: unfold SQL.createSchema, SQL.prepareStatements; run.
    all: repeat (match goal with H : env_fails _ _ = _ |- _ => rewrite H; simpl end).
    all: unfold SQL.set_statements, SQL.set_database, SQL.set_initialized, add_log;
      simpl; rewrite ?Hdrv; reflexivity.
  - unfold dynamicRequire.
    destruct (env_fails env (OpRequire "better-sqlite3")) eqn:Hreq; simpl;
      [rewrite Hdrv; simpl; unfold SQL.set_statements, SQL.set_database, add_log; simpl;
       rewrite Hdrv; reflexivity|].
    rewrite ensureDirectoryExists_ok.
    repeat (match goal with |- context [env_fails ?e ?op] =>
              destruct (env_fails e op) eqn:?; simpl; try reflexivity end).
    all: unfold SQL.createSchema, SQL.prepareStatements; run.
    all: repeat (match goal with H : env_fails _ _ = _ |- _ => rewrite H; simpl end).
    all: unfold SQL.set_statements, SQL.set_database, SQL.set_initialized, SQL.set_driver,
      add_log; simpl; rewrite ?Hdrv; reflexivity.
Qed.

Lemma set_disk_same w d : set_disk (disk w) (set_disk d w) = w.
Proof. destruct w; reflexivity. Qed.

Lemma database_at_insert path d dk w :
  database_at path (set_disk (<[path := d]> dk) w) = d.
Proof. unfold database_at. simpl. by rewrite lookup_insert_eq. Qed.

Lemma database_at_tick path n w : database_at path (tick n w) = database_at path w.
Proof. reflexivity. Qed.

Lemma set_disk_set_disk d d' w : set_disk d (set_disk d' w) = set_disk d w.
Proof. reflexivity. Qed.

Lemma disk_set_disk d w : disk (set_disk d w) = d.
Proof. reflexivity. Qed.

Ltac norm_world :=
  repeat (progress (rewrite ?database_at_insert, ?database_at_tick, ?set_disk_set_disk,
                      ?disk_set_disk, ?insert_insert_eq in * )).

Lemma upsert_conversation_exists id c u cs :
  existsb (fun x => String.eqb (conv_id x) id) (SQL.upsert_conversation id c u cs) = true.
Proof.
  induction cs as [|x cs IH]; simpl.
  - by rewrite String.eqb_refl.
  - destruct (String.eqb (conv_id x) id) eqn:E; simpl.
    + by rewrite String.eqb_refl.
    + by rewrite E.
Qed.

(** The insert loop on a file that has the conversation: it appends the
    rows, or stops at its first failure. *)
Lemma insert_rows_spec env st cid now rows : forall nth w o d,
  disk w !! SQL.connection_path (SQL.prepared_on st) = Some d ->
  existsb (fun x => String.eqb (conv_id x) cid) (conversations d) = true ->
  match insert_failure env nth rows with
  | None =>
      SQL.insert_rows env st cid now nth rows (w, o)
      = (Ok tt,
         (set_disk (<[SQL.connection_path (SQL.prepared_on st) :=
                        {| conversations := conversations d;
                           chat_messages := chat_messages d ++ map (table_row cid now) rows |}]>
                      (disk w)) w, o))
  | Some message =>
      exists dk, SQL.insert_rows env st cid now nth rows (w, o)
                 = (Throw message, (set_disk dk w, o))
  end.
Proof.
  induction rows as [|row rows IH]; intros nth w o d Hd Hc; simpl.
  - run. rewrite app_nil_r. destruct d; simpl. rewrite insert_id; [|done].
    by destruct w.
  - run.
    assert (Htr : forall text, SQL.metadata_json row = Ok text ->
      {| row_conversation_id := cid; row_role := role row; row_content := content row;
         row_metadata := text; row_sequence := sequence row;
         row_created_at := default now (createdAt row) |} = table_row cid now row).
    { intros text Ht. unfold table_row. by rewrite Ht. }
    destruct (SQL.metadata_json row) as [text|e] eqn:Hmd.
    + rewrite (Htr text eq_refl). clear Htr.
      unfold SQL.insertMessage_run. run.
      destruct (env_fails env (OpInsertMessage nth)) eqn:Hf; simpl.
      * exists (disk w). by destruct w.
      * unfold database_at. rewrite Hd. simpl. rewrite Hc.
        unfold SQL.modify_database. run. unfold database_at. simpl. rewrite Hd. simpl.
        match goal with |- context [SQL.insert_rows _ _ _ _ _ _ (?w1, _)] =>
          specialize (IH (S nth) w1 o
            {| conversations := conversations d;
               chat_messages := chat_messages d ++ [table_row cid now row] |}) end.
        simpl in IH. rewrite lookup_insert_eq in IH.
        specialize (IH eq_refl Hc).
        destruct (insert_failure env (S nth) rows) as [m|].
        -- destruct IH as [dk IH]. exists dk. rewrite IH. reflexivity.
        -- rewrite IH. simpl.
           rewrite insert_insert_eq. unfold set_disk; simpl.
           rewrite <- app_assoc. reflexivity.
    + exists (disk w). by destruct w.
Qed.

Lemma initialize_eq env w o :
  SQL.initialize env (w, o) = (Ok tt, (ensured_world env o w, ensured env o)).
Proof. unfold SQL.initialize. run. by rewrite ensureDatabase_eq. Qed.

Lemma isAvailable_eq env w o :
  SQL.isAvailable env (w, o)
  = (Ok (bool_decide (is_Some (SQL.database (ensured env o)))),
     (ensured_world env o w, ensured env o)).
Proof. unfold SQL.isAvailable. run. by rewrite ensureDatabase_eq. Qed.

(** The transaction of [replaceConversation], run on an open connection. *)
Lemma replace_transaction_eq env db st cid rows w o :
  let now := env_clock env (clock_reads w) in
  try_catch
    (SQL.transaction env db (fun rows =>
       SQL.upsertConversation_run env st cid now now ;;
       SQL.deleteMessages_run env st cid ;;
       SQL.insert_rows env st cid now 0 rows) rows)
    (fun message =>
       Logging_log "SQLiteChatMemory" ("Failed to persist chat history: " +:+ message) "error")
    (tick 1 w, o)
  = (Ok tt, (replace_world env st cid rows w, o)).
Proof.
  intros now. unfold SQL.transaction, replace_world, replace_failure.
  unfold mbind, mret, M_bind, M_ret, bind, ret, throw, try_catch, get_world, external.
  destruct (env_fails env OpBegin); [reflexivity|].
  unfold SQL.upsertConversation_run, SQL.deleteMessages_run, SQL.modify_database.
  unfold mbind, mret, M_bind, M_ret, bind, ret, throw, try_catch, get_world, external,
    modify_world.
  destruct (env_fails env OpUpsertConversation); [reflexivity|].
  destruct (env_fails env OpDeleteMessages); [reflexivity|].
  set (p := SQL.connection_path (SQL.prepared_on st)).
  cbv beta iota zeta delta [ret fst snd].
  norm_world. cbn [conversations chat_messages].
  match goal with |- context [SQL.insert_rows _ _ _ _ _ _ (?w1, _)] =>
    pose proof (insert_rows_spec env st cid now rows 0 w1 o) as Hins end.
  fold p in Hins. rewrite disk_set_disk, lookup_insert_eq in Hins.
  specialize (Hins _ eq_refl). cbn [conversations chat_messages] in Hins.
  specialize (Hins (upsert_conversation_exists _ _ _ _)).
  fold now. destruct (insert_failure env 0 rows) as [m|].
  - destruct Hins as [dk ->]. reflexivity.
  - rewrite Hins.
    destruct (env_fails env OpCommit); [reflexivity|].
    norm_world. reflexivity.
Qed.

Lemma replaceConversation_eq env cid rows w o :
  SQL.replaceConversation env cid rows (w, o)
  = (Ok tt,
     (match SQL.database (ensured env o), SQL.statements (ensured env o) with
      | Some _, Some st => replace_world env st cid rows (ensured_world env o w)
      | _, _ => ensured_world env o w
      end, ensured env o)).
Proof.
  unfold SQL.replaceConversation. run. rewrite ensureDatabase_eq. cbn [fst snd].
  destruct (SQL.database (ensured env o)) as [db|]; [|reflexivity].
  destruct (SQL.statements (ensured env o)) as [st|]; [|reflexivity].
  pose proof (replace_transaction_eq env db st cid rows (ensured_world env o w)
                (ensured env o)) as H.
  run. exact H.
Qed.

Lemma filter_twice {A} (P : A -> Prop) `{forall x, Decision (P x)} (l : list A) :
  filter P (filter P l) = filter P l.
Proof. rewrite list_filter_filter. apply list_filter_iff. tauto. Qed.

Lemma clearConversation_eq env cid w o :
  SQL.clearConversation env cid (w, o)
  = (Ok tt,
     (match SQL.database (ensured env o), SQL.statements (ensured env o) with
      | Some _, Some st => clear_world env st cid (ensured_world env o w)
      | _, _ => ensured_world env o w
      end, ensured env o)).
Proof.
  unfold SQL.clearConversation. run. rewrite ensureDatabase_eq. cbn [fst snd].
  destruct (SQL.database (ensured env o)) as [db|]; [|reflexivity].
  destruct (SQL.statements (ensured env o)) as [st|]; [|reflexivity].
  generalize (ensured_world env o w) as w1. intros w1.
  unfold SQL.transaction, clear_world, clear_failure.
  unfold mbind, mret, M_bind, M_ret, bind, ret, throw, try_catch, get_world, external.
  destruct (env_fails env OpBegin); [reflexivity|].
  unfold SQL.deleteConversation_run, SQL.deleteMessages_run, SQL.modify_database.
  unfold mbind, mret, M_bind, M_ret, bind, ret, throw, try_catch, get_world, external,
    modify_world.
  destruct (env_fails env OpDeleteMessages); [by destruct w1|].
  destruct (env_fails env OpDeleteConversation); [by destruct w1|].
  set (p := SQL.connection_path (SQL.prepared_on st)).
  cbv beta iota zeta delta [ret fst snd].
  norm_world. cbn [conversations chat_messages].
  destruct (env_fails env OpCommit); [by destruct w1|].
  unfold cleared, not_of. by rewrite filter_twice.
Qed.

Lemma getMessages_eq env cid w o :
  SQL.getMessages env cid (w, o)
  = match SQL.database (ensured env o), SQL.statements (ensured env o) with
    | Some _, Some st =>
        if env_fails env OpSelectMessages
        then (Ok [],
              (add_log "SQLiteChatMemory"
                 ("Failed to load chat history: " +:+ "selectMessages failed") "error"
                 (ensured_world env o w), ensured env o))
        else (Ok (map SQL.deserializeRow
                    (selected cid
                       (database_at (SQL.connection_path (SQL.prepared_on st))
                          (ensured_world env o w)))),
              (ensured_world env o w, ensured env o))
    | _, _ => (Ok [], (ensured_world env o w, ensured env o))
    end.
Proof.
  unfold SQL.getMessages. run. rewrite ensureDatabase_eq. cbn [fst snd].
  destruct (SQL.database (ensured env o)) as [db|]; [|reflexivity].
  destruct (SQL.statements (ensured env o)) as [st|]; [|reflexivity].
  unfold SQL.selectMessages_all. run.
  destruct (env_fails env OpSelectMessages); reflexivity.
Qed.

End SQLiteFacts.

Section AdapterFacts.
Context {RT : JSRuntime}.

(** No method of either adapter throws. *)
Lemma adapter_initialize_ok env s : fst (Adapter.initialize env s) = Ok tt.
Proof.
  destruct s as [w [o|m]]; unfold Adapter.initialize, Adapter.dispatch; simpl.
  - by rewrite initialize_eq.
  - reflexivity.
Qed.

Lemma adapter_isAvailable_ok env s : exists b, fst (Adapter.isAvailable env s) = Ok b.
Proof.
  destruct s as [w [o|m]]; unfold Adapter.isAvailable, Adapter.dispatch; simpl.
  - rewrite isAvailable_eq. eauto.
  - eauto.
Qed.

Lemma adapter_replaceConversation_ok env cid rows s :
  fst (Adapter.replaceConversation env cid rows s) = Ok tt.
Proof.
  destruct s as [w [o|m]]; unfold Adapter.replaceConversation, Adapter.dispatch; simpl.
  - by rewrite replaceConversation_eq.
  - reflexivity.
Qed.

Lemma adapter_clearConversation_ok env cid s :
  fst (Adapter.clearConversation env cid s) = Ok tt.
Proof.
  destruct s as [w [o|m]]; unfold Adapter.clearConversation, Adapter.dispatch; simpl.
  - by rewrite clearConversation_eq.
  - reflexivity.
Qed.

Lemma adapter_getMessages_ok env cid s :
  exists rows, fst (Adapter.getMessages env cid s) = Ok rows.
Proof.
  destruct s as [w [o|m]]; unfold Adapter.getMessages, Adapter.dispatch; simpl.
  - rewrite getMessages_eq.
    destruct (SQL.database (ensured env o)); [|eauto].
    destruct (SQL.statements (ensured env o)); [|eauto].
    destruct (env_fails env OpSelectMessages); eauto.
  - unfold Mem.getMessages. run. destruct (Mem.store m !! cid); eauto.
Qed.

End AdapterFacts.

Section ManagerFacts.
Context {RT : JSRuntime} {P : Type} {Base : MessageManager P}.

Lemma serialize_from_eq env messages : forall index w (self : @PMM.t P),
  PMM.serialize_from env index messages (w, self)
  = (Ok (rows_of env (clock_reads w) index messages), (tick (length messages) w, self)).
Proof.
  induction messages as [|m ms IH]; intros index w self; simpl.
  - by destruct w.
  - unfold PMM.serializeMessage. run. rewrite IH. simpl.
    unfold tick; simpl. repeat f_equal. lia.
Qed.

Lemma persistMessages_eq env (s : World * @PMM.t P) :
  PMM.persistMessages env s = (Ok tt, persisted env s).
Proof.
  destruct s as [w self]. unfold PMM.persistMessages, persisted, PMM.on_memory.
  unfold mbind, mret, M_bind, M_ret, bind, ret, try_catch, this, zoom, record_call,
    modify_world.
  cbn [fst snd]. rewrite serialize_from_eq. cbn [fst snd].
  fold (add_call (CallReplaceConversation (PMM.conversationId self)
          (rows_of env (clock_reads w) 0 (super_getMessages (PMM.super self))))
          (tick (length (super_getMessages (PMM.super self))) w)).
  match goal with |- context [Adapter.replaceConversation ?e ?c ?r ?s0] =>
    pose proof (adapter_replaceConversation_ok e c r s0) as Hok;
    destruct (Adapter.replaceConversation e c r s0) as [r0 [w' a']]
  end.
  simpl in Hok. subst r0. reflexivity.
Qed.

Lemma add_eq env m pos w (self : @PMM.t P) :
  PMM.add env m pos (w, self)
  = (Ok tt,
     if PMM.restoring self
     then (w, PMM.set_super (super_add m pos (PMM.super self)) self)
     else persisted env (w, PMM.set_super (super_add m pos (PMM.super self)) self)).
Proof.
  unfold PMM.add, PMM.on_super. run.
  destruct (PMM.restoring self); simpl; [reflexivity|].
  apply persistMessages_eq.
Qed.

Lemma setMaxTokens_eq env n w (self : @PMM.t P) :
  PMM.setMaxTokens env n (w, self)
  = (Ok tt,
     if PMM.restoring self
     then (w, PMM.set_super (super_setMaxTokens n (PMM.super self)) self)
     else persisted env (w, PMM.set_super (super_setMaxTokens n (PMM.super self)) self)).
Proof.
  unfold PMM.setMaxTokens, PMM.on_super. run.
  destruct (PMM.restoring self); simpl; [reflexivity|].
  apply persistMessages_eq.
Qed.

Lemma removeLast_eq env w (self : @PMM.t P) :
  PMM.removeLast env (w, self)
  = (Ok (fst (super_removeLast (PMM.super self))),
     if fst (super_removeLast (PMM.super self)) && negb (PMM.restoring self)
     then persisted env (w, PMM.set_super (snd (super_removeLast (PMM.super self))) self)
     else (w, PMM.set_super (snd (super_removeLast (PMM.super self))) self)).
Proof.
  unfold PMM.removeLast, PMM.on_super. run.
  destruct (super_removeLast (PMM.super self)) as [removed p]; simpl.
  destruct (removed && negb (PMM.restoring self)); simpl; [|reflexivity].
  pose proof (persistMessages_eq env (w, PMM.set_super p self)) as H.
  unfold PMM.State in *. simpl in H. rewrite H. reflexivity.
Qed.

Lemma clear_eq env w (self : @PMM.t P) :
  PMM.clear env (w, self)
  = (Ok tt,
     let self' := PMM.set_super (super_clear (PMM.super self)) self in
     if PMM.restoring self then (w, self')
     else
       let '(w', a') :=
         snd (Adapter.clearConversation env (PMM.conversationId self)
                (add_call (CallClearConversation (PMM.conversationId self)) w,
                 PMM.memory self)) in
       (w', PMM.set_memory a' self')).
Proof.
  unfold PMM.clear, PMM.on_super, PMM.on_memory.
  unfold mbind, mret, M_bind, M_ret, bind, ret, try_catch, this, zoom, record_call,
    modify_world, modify_this.
  cbn [fst snd]. destruct (PMM.restoring self) eqn:Hr; cbn [negb PMM.set_super PMM.restoring];
    rewrite ?Hr; cbn [negb]; [reflexivity|].
  cbn [fst snd PMM.conversationId PMM.memory PMM.set_super].
  fold (add_call (CallClearConversation (PMM.conversationId self)) w).
  match goal with |- context [Adapter.clearConversation ?e ?c ?s0] =>
    pose proof (adapter_clearConversation_ok e c s0) as Hok;
    destruct (Adapter.clearConversation e c s0) as [r0 [w' a']]
  end.
  simpl in Hok. subst r0. reflexivity.
Qed.

Lemma set_super_super (self : @PMM.t P) : PMM.set_super (PMM.super self) self = self.
Proof. by destruct self. Qed.

Lemma restore_rows_eq env stored : forall w (self : @PMM.t P),
  PMM.restore_rows env stored (w, self)
  = (match snd (replay env stored (PMM.super self)) with
     | None => Ok tt
     | Some e => Throw e
     end,
     (w, PMM.set_super (fst (replay env stored (PMM.super self))) self)).
Proof.
  induction stored as [|r rest IH]; intros w self; simpl.
  - by rewrite set_super_super.
  - unfold PMM.on_super. run.
    destruct (PMM.deserializeMessage env r) as [m|e]; simpl.
    + rewrite IH. reflexivity.
    + by rewrite set_super_super.
Qed.

Lemma restoreFromMemory_eq env (s : World * @PMM.t P) :
  PMM.restoreFromMemory env s = (Ok tt, restored env s).
Proof.
  destruct s as [w self]. unfold PMM.restoreFromMemory, restored, PMM.on_memory.
  unfold mbind, mret, M_bind, M_ret, bind, ret, try_catch, try_finally, this, zoom,
    record_call, modify_world, modify_this.
  cbn [fst snd].
  fold (add_call (CallGetMessages (PMM.conversationId self)) w).
  match goal with |- context [Adapter.getMessages ?e ?c ?s0] =>
    destruct (adapter_getMessages_ok e c s0) as [rows Hok];
    destruct (Adapter.getMessages e c s0) as [r0 [w' a']]
  end.
  simpl in Hok. subst r0. cbn [fst snd].
  destruct rows as [|row rows].
  - simpl. reflexivity.
  - pose proof (restore_rows_eq env (row :: rows) w'
                  (PMM.set_restoring true (PMM.set_memory a' self))) as H.
    unfold PMM.State in *. cbn [fst snd]. rewrite H. clear H.
    cbn [PMM.set_restoring PMM.set_memory PMM.super].
    destruct (replay env (row :: rows) (PMM.super self)) as [p [e|]]; reflexivity.
Qed.

Lemma probe_memory_eq env guarded s :
  PMM.probe_memory env guarded s = (Ok (fst (probed env s)), snd (probed env s)).
Proof.
  destruct s as [w a]. unfold PMM.probe_memory, probed, PMM.on_adapter.
  unfold mbind, mret, M_bind, M_ret, bind, ret, try_catch, record_call, modify_world.
  cbn [fst snd]. unfold add_call.
  assert (Hinit : forall s0, Adapter.initialize env s0
                             = (Ok tt, snd (Adapter.initialize env s0))).
  { intros s0. pose proof (adapter_initialize_ok env s0).
    destruct (Adapter.initialize env s0); simpl in *; congruence. }
  destruct guarded; rewrite Hinit; cbn [fst snd].
  all: match goal with |- context [(Adapter.initialize ?e ?s0).2] =>
         destruct (Adapter.initialize e s0).2 as [w1 a1] end.
  all: cbn [fst snd].
  all: match goal with |- context [Adapter.isAvailable ?e ?s0] =>
         destruct (adapter_isAvailable_ok e s0) as [b Hb];
         destruct (Adapter.isAvailable e s0) as [r0 s2] end.
  all: simpl in Hb; subst r0; reflexivity.
Qed.

Lemma initializeMemory_eq env options w :
  PMM.initializeMemory env options w
  = (Ok (fst (chosen_memory env options w)), snd (chosen_memory env options w)).
Proof.
  unfold PMM.initializeMemory, chosen_memory.
  destruct (PMM.opt_memory options) as [provided|]; rewrite probe_memory_eq.
  all: match goal with |- context [probed ?e ?s0] =>
         destruct (probed e s0) as [[|] [w' a']] end; cbn [fst snd]; try reflexivity.
  all: unfold PMM.createFallbackMemory, PMM.log_world, PMM.on_adapter.
  all: unfold mbind, mret, M_bind, M_ret, bind, ret, record_call, modify_world.
  all: reflexivity.
Qed.

Lemma new_eq env options w :
  PMM.new env options w
  = (Ok (snd (constructed env options w)), fst (constructed env options w)).
Proof.
  unfold PMM.new, constructed. rewrite initializeMemory_eq.
  destruct (chosen_memory env options w) as [a w']. cbn [fst snd].
  rewrite restoreFromMemory_eq.
  match goal with |- context [restored ?e ?s0] => destruct (restored e s0) end.
  reflexivity.
Qed.

End ManagerFacts.

(* ===================================================================== *)
(** ** The claims *)
(* ===================================================================== *)

Section AdapterFrame.
Context {RT : JSRuntime}.

Lemma ensured_world_frame env o w :
  disk (ensured_world env o w) = disk w /\
  clock_reads (ensured_world env o w) = clock_reads w /\
  adapter_calls (ensured_world env o w) = adapter_calls w.
Proof.
  unfold ensured_world. destruct (SQL.database o); [done|].
  destruct (open_failure env o); done.
Qed.

Lemma ensured_dbPath env o : SQL.dbPath (ensured env o) = SQL.dbPath o.
Proof.
  unfold ensured. destruct (SQL.database o); [done|].
  destruct (open_failure env o); done.
Qed.

(** No method of an adapter records a call: the record is the manager's. *)
Lemma adapter_calls_initialize env w a :
  adapter_calls (fst (snd (Adapter.initialize env (w, a)))) = adapter_calls w.
Proof.
  destruct a as [o|m]; unfold Adapter.initialize, Adapter.dispatch; simpl.
  - rewrite initialize_eq. simpl. apply ensured_world_frame.
  - reflexivity.
Qed.

Lemma adapter_calls_isAvailable env w a :
  adapter_calls (fst (snd (Adapter.isAvailable env (w, a)))) = adapter_calls w.
Proof.
  destruct a as [o|m]; unfold Adapter.isAvailable, Adapter.dispatch; simpl.
  - rewrite isAvailable_eq. simpl. apply ensured_world_frame.
  - reflexivity.
Qed.

Lemma adapter_calls_replaceConversation env cid rows w a :
  adapter_calls (fst (snd (Adapter.replaceConversation env cid rows (w, a))))
  = adapter_calls w.
Proof.
  destruct a as [o|m]; unfold Adapter.replaceConversation, Adapter.dispatch; simpl.
  - rewrite replaceConversation_eq. simpl.
    destruct (SQL.database (ensured env o)); [|apply ensured_world_frame].
    destruct (SQL.statements (ensured env o)); [|apply ensured_world_frame].
    unfold replace_world. destruct (replace_failure env rows); simpl;
      apply ensured_world_frame.
  - reflexivity.
Qed.

Lemma adapter_calls_clearConversation env cid w a :
  adapter_calls (fst (snd (Adapter.clearConversation env cid (w, a)))) = adapter_calls w.
Proof.
  destruct a as [o|m]; unfold Adapter.clearConversation, Adapter.dispatch; simpl.
  - rewrite clearConversation_eq. simpl.
    destruct (SQL.database (ensured env o)); [|apply ensured_world_frame].
    destruct (SQL.statements (ensured env o)); [|apply ensured_world_frame].
    unfold clear_world. destruct (clear_failure env); simpl; apply ensured_world_frame.
  - reflexivity.
Qed.

(** Reading changes neither the files nor the transient map, and records
    no call. *)
Lemma adapter_getMessages_frame env cid w a :
  let s' := snd (Adapter.getMessages env cid (w, a)) in
  disk (fst s') = disk w /\
  adapter_calls (fst s') = adapter_calls w /\
  stored_state (fst s') (snd s') = stored_state w a.
Proof.
  destruct a as [o|m]; unfold Adapter.getMessages, Adapter.dispatch; simpl.
  - rewrite getMessages_eq.
    pose proof (ensured_world_frame env o w) as (Hd & _ & Hc).
    assert (Hs : forall w', disk w' = disk w ->
              database_at (SQL.dbPath (ensured env o)) w' = database_at (SQL.dbPath o) w).
    { intros w' Hw. rewrite ensured_dbPath. unfold database_at. by rewrite Hw. }
    destruct (SQL.database (ensured env o)); [|simpl; by rewrite Hs].
    destruct (SQL.statements (ensured env o)); [|simpl; by rewrite Hs].
    destruct (env_fails env OpSelectMessages); simpl; by rewrite Hs.
  - unfold Mem.getMessages. run. destruct (Mem.store m !! cid); done.
Qed.

End AdapterFrame.

Section ManagerClaims.
Context {RT : JSRuntime} {P : Type} {Base : MessageManager P}.

(** The calls recorded by [restoreFromMemory]: one read, nothing else. *)
Lemma restored_frame env w (self : @PMM.t P) :
  let s' := restored env (w, self) in
  adapter_calls (fst s') = adapter_calls w ++ [CallGetMessages (PMM.conversationId self)] /\
  disk (fst s') = disk w /\
  stored_state (fst s') (PMM.memory (snd s')) = stored_state w (PMM.memory self) /\
  PMM.restoring (snd s') = false /\
  PMM.conversationId (snd s') = PMM.conversationId self.
Proof.
  unfold restored.
  pose proof (adapter_getMessages_frame env (PMM.conversationId self)
                (add_call (CallGetMessages (PMM.conversationId self)) w)
                (PMM.memory self)) as H.
  destruct (Adapter.getMessages env (PMM.conversationId self)
              (add_call (CallGetMessages (PMM.conversationId self)) w, PMM.memory self))
    as [r [w' a']].
  simpl in H. destruct H as (Hd & Hc & Hs).
  destruct (replay env _ (PMM.super self)) as [p [e|]]; simpl; by rewrite ?Hd, ?Hc, ?Hs.
Qed.

(** ** C4 *)

(** C4: during the replay-on-construction step, [restoreFromMemory], the
    manager calls [getMessages] on its adapter and nothing else, so neither
    [replaceConversation] nor [clearConversation] is invoked; whatever rows
    are stored and whatever the replay meets, the database files and the
    stored state of the adapter are the same after the replay as before. *)
Theorem C4_restore_never_writes env w (self : @PMM.t P) :
  let s' := snd (PMM.restoreFromMemory env (w, self)) in
  adapter_calls (fst s') = adapter_calls w ++ [CallGetMessages (PMM.conversationId self)] /\
  disk (fst s') = disk w /\
  stored_state (fst s') (PMM.memory (snd s')) = stored_state w (PMM.memory self).
Proof.
  rewrite restoreFromMemory_eq. cbn [snd].
  pose proof (restored_frame env w self) as (Hc & Hd & Hs & _).
  repeat split; assumption || reflexivity.
Qed.

(** ** C7 *)

Lemma replay_app_throw env prefix bad rest msgs e : forall (p : P),
  Forall2 (fun r m => PMM.deserializeMessage env r = Ok m) prefix msgs ->
  PMM.deserializeMessage env bad = Throw e ->
  replay env (prefix ++ bad :: rest) p
  = (foldl (fun q m => super_add m None q) p msgs, Some e).
Proof.
  intros p H. revert p. induction H as [|r m prefix msgs Hr _ IH]; intros p Hbad; simpl.
  - by rewrite Hbad.
  - rewrite Hr. by apply IH.
Qed.

Lemma replay_all env stored msgs : forall (p : P),
  Forall2 (fun r m => PMM.deserializeMessage env r = Ok m) stored msgs ->
  replay env stored p = (foldl (fun q m => super_add m None q) p msgs, None).
Proof.
  intros p H. revert p. induction H as [|r m stored msgs Hr _ IH]; intros p; simpl.
  - reflexivity.
  - rewrite Hr. apply IH.
Qed.

(** The constructor returns a manager, with the flag down. *)
Lemma new_returns env options w :
  exists (self : @PMM.t P) w',
    PMM.new env options w = (Ok self, w') /\ PMM.restoring self = false.
Proof.
  rewrite new_eq. eexists _, _. split; [reflexivity|].
  unfold constructed. destruct (chosen_memory env options w) as [a w1].
  match goal with |- context [restored ?e (?w0, ?s0)] =>
    pose proof (restored_frame e w0 s0) as (_ & _ & _ & Hr & _) end.
  exact Hr.
Qed.

(** C7: restore is fail-fast.  When the adapter answers the rows
    [prefix ++ bad :: rest], the rows of [prefix] deserialize to [msgs] and
    deserializing [bad] throws [e], then [restoreFromMemory] returns
    normally with the messages of [prefix] added to the pipeline in order
    by the base [add] and none of [rest], the flag down, and a warning
    naming [e] as the last entry of the log; and the constructor, whatever
    it meets, returns a manager. *)
Theorem C7_restore_fail_fast env w (self : @PMM.t P) prefix bad rest msgs e w1 a1 :
  Adapter.getMessages env (PMM.conversationId self)
    (add_call (CallGetMessages (PMM.conversationId self)) w, PMM.memory self)
  = (Ok (prefix ++ bad :: rest), (w1, a1)) ->
  Forall2 (fun r m => PMM.deserializeMessage env r = Ok m) prefix msgs ->
  PMM.deserializeMessage env bad = Throw e ->
  PMM.restoreFromMemory env (w, self)
  = (Ok tt,
     (add_log "PersistentMessageManager" ("Failed to restore chat history: " +:+ e)
        "warning" w1,
      {| PMM.super := foldl (fun q m => super_add m None q) (PMM.super self) msgs;
         PMM.memory := a1;
         PMM.conversationId := PMM.conversationId self;
         PMM.restoring := false |}))
  /\ (forall env' options w', exists (self' : @PMM.t P) w'',
        PMM.new env' options w' = (Ok self', w'')).
Proof.
  intros Hget Hprefix Hbad. split.
  - rewrite restoreFromMemory_eq. unfold restored. rewrite Hget.
    by rewrite (replay_app_throw env prefix bad rest msgs e _ Hprefix Hbad).
  - intros env' options w'. destruct (new_returns env' options w') as (s & w'' & H & _).
    eauto.
Qed.

(** ** C9 *)

Lemma persisted_frame env w (self : @PMM.t P) :
  let s' := persisted env (w, self) in
  adapter_calls (fst s')
  = adapter_calls w
    ++ [CallReplaceConversation (PMM.conversationId self)
          (rows_of env (clock_reads w) 0 (super_getMessages (PMM.super self)))] /\
  PMM.restoring (snd s') = PMM.restoring self /\
  PMM.super (snd s') = PMM.super self /\
  PMM.conversationId (snd s') = PMM.conversationId self.
Proof.
  unfold persisted.
  match goal with |- context [Adapter.replaceConversation ?e ?c ?r (?w0, ?a0)] =>
    pose proof (adapter_calls_replaceConversation e c r w0 a0) as H;
    destruct (Adapter.replaceConversation e c r (w0, a0)) as [r0 [w' a']]
  end.
  simpl in *. by rewrite H.
Qed.

Lemma persisted_state env w (self : @PMM.t P) :
  let messages := super_getMessages (PMM.super self) in
  let rows := rows_of env (clock_reads w) 0 messages in
  let s' := persisted env (w, self) in
  (fst s', PMM.memory (snd s'))
  = snd (Adapter.replaceConversation env (PMM.conversationId self) rows
           (add_call (CallReplaceConversation (PMM.conversationId self) rows)
              (tick (length messages) w), PMM.memory self)).
Proof.
  unfold persisted.
  match goal with |- context [Adapter.replaceConversation ?e ?c ?r (?w0, ?a0)] =>
    destruct (Adapter.replaceConversation e c r (w0, a0)) as [r0 [w' a']]
  end.
  reflexivity.
Qed.

(** C9: the constructor returns with the restoring flag false, whatever
    the restore met; and on a manager whose flag is false, [add],
    [setMaxTokens] and a [removeLast] that removed a message each run
    [replaceConversation] of the adapter on the rows of the whole current
    list, and [clear] runs [clearConversation]: the call is recorded, the
    world and the adapter after the operation are those the method of the
    adapter leaves (run after the rows are made, with one reading of the
    clock for each), the pipeline is that of the base operation and the
    flag stays false.  A [removeLast] that removed nothing leaves the
    world and the adapter as they were. *)
Theorem C9_live_after_construction env options w :
  (exists (self : @PMM.t P) w',
     PMM.new env options w = (Ok self, w') /\ PMM.restoring self = false) /\
  forall env' w0 (p : P) a cid,
    let live := {| PMM.super := p; PMM.memory := a; PMM.conversationId := cid;
                   PMM.restoring := false |} in
    (forall m pos,
       let messages := super_getMessages (super_add m pos p) in
       let rows := rows_of env' (clock_reads w0) 0 messages in
       let s' := snd (PMM.add env' m pos (w0, live)) in
       adapter_calls (fst s') = adapter_calls w0 ++ [CallReplaceConversation cid rows] /\
       PMM.restoring (snd s') = false /\
       (fst s', PMM.memory (snd s'))
       = snd (Adapter.replaceConversation env' cid rows
                (add_call (CallReplaceConversation cid rows) (tick (length messages) w0),
                 a)) /\
       PMM.super (snd s') = super_add m pos p) /\
    (forall n,
       let messages := super_getMessages (super_setMaxTokens n p) in
       let rows := rows_of env' (clock_reads w0) 0 messages in
       let s' := snd (PMM.setMaxTokens env' n (w0, live)) in
       adapter_calls (fst s') = adapter_calls w0 ++ [CallReplaceConversation cid rows] /\
       PMM.restoring (snd s') = false /\
       (fst s', PMM.memory (snd s'))
       = snd (Adapter.replaceConversation env' cid rows
                (add_call (CallReplaceConversation cid rows) (tick (length messages) w0),
                 a)) /\
       PMM.super (snd s') = super_setMaxTokens n p) /\
    (let messages := super_getMessages (snd (super_removeLast p)) in
     let rows := rows_of env' (clock_reads w0) 0 messages in
     let s' := snd (PMM.removeLast env' (w0, live)) in
     adapter_calls (fst s')
     = adapter_calls w0
       ++ (if fst (super_removeLast p) then [CallReplaceConversation cid rows] else []) /\
     PMM.restoring (snd s') = false /\
     (fst s', PMM.memory (snd s'))
     = (if fst (super_removeLast p)
        then snd (Adapter.replaceConversation env' cid rows
                    (add_call (CallReplaceConversation cid rows)
                       (tick (length messages) w0), a))
        else (w0, a)) /\
     PMM.super (snd s') = snd (super_removeLast p)) /\
    (let s' := snd (PMM.clear env' (w0, live)) in
     adapter_calls (fst s') = adapter_calls w0 ++ [CallClearConversation cid] /\
     PMM.restoring (snd s') = false /\
     (fst s', PMM.memory (snd s'))
     = snd (Adapter.clearConversation env' cid (add_call (CallClearConversation cid) w0, a)) /\
     PMM.super (snd s') = super_clear p).
Proof.
  split; [apply new_returns|].
  intros env' w0 p a cid live. split; [|split; [|split]].
  - intros m pos messages rows s'. subst s'. rewrite add_eq.
    cbn [snd PMM.restoring live].
    pose proof (persisted_frame env' w0 (PMM.set_super (super_add m pos p) live))
      as (Hc & Hr & Hs & _).
    pose proof (persisted_state env' w0 (PMM.set_super (super_add m pos p) live)) as Hst.
    repeat split; [exact Hc|exact Hr|exact Hst|exact Hs].
  - intros n messages rows s'. subst s'. rewrite setMaxTokens_eq.
    cbn [snd PMM.restoring live].
    pose proof (persisted_frame env' w0 (PMM.set_super (super_setMaxTokens n p) live))
      as (Hc & Hr & Hs & _).
    pose proof (persisted_state env' w0 (PMM.set_super (super_setMaxTokens n p) live))
      as Hst.
    repeat split; [exact Hc|exact Hr|exact Hst|exact Hs].
  - intros messages rows s'. subst s' rows messages. rewrite removeLast_eq.
    cbn [snd PMM.restoring PMM.super live negb].
    destruct (super_removeLast p) as [[|] p']; cbn [fst snd andb].
    + pose proof (persisted_frame env' w0 (PMM.set_super p' live)) as (Hc & Hr & Hs & _).
      pose proof (persisted_state env' w0 (PMM.set_super p' live)) as Hst.
      repeat split; [exact Hc|exact Hr|exact Hst|exact Hs].
    + simpl. by rewrite app_nil_r.
  - intros s'. subst s'. rewrite clear_eq.
    cbn [snd PMM.restoring PMM.conversationId PMM.memory live].
    match goal with |- context [Adapter.clearConversation ?e ?c (?w1, ?a1)] =>
      pose proof (adapter_calls_clearConversation e c w1 a1) as H;
      destruct (Adapter.clearConversation e c (w1, a1)) as [r0 [w' a']]
    end.
    simpl in *. by rewrite H.
Qed.

(** ** C10 *)

(** When the base [removeLast] reports that it removed nothing, the
    override returns false and leaves the world and the adapter alone. *)
Lemma removeLast_nothing_removed env w (self : @PMM.t P) :
  fst (super_removeLast (PMM.super self)) = false ->
  PMM.removeLast env (w, self)
  = (Ok false, (w, PMM.set_super (snd (super_removeLast (PMM.super self))) self)).
Proof. intros H. rewrite removeLast_eq, H. reflexivity. Qed.

End ManagerClaims.

(** C10: [removeLast()] on a manager whose in-memory pipeline is empty
    returns false and writes nothing.  Over any base class, when the base
    [removeLast] reports that it removed nothing, the override returns
    false with the world as it was: no call is recorded on the adapter, so
    [replaceConversation] is not invoked, and the database files and the
    adapter with its stored rows are unchanged.  The list pipeline reports
    so when it is empty, under any rule for the token budget, and then the
    manager is unchanged as well. *)
Theorem C10_removeLast_empty {RT : JSRuntime} :
  (forall (P : Type) (Base : MessageManager P) env w (self : @PMM.t P),
     fst (super_removeLast (PMM.super self)) = false ->
     exists self',
       PMM.removeLast env (w, self) = (Ok false, (w, self')) /\
       PMM.memory self' = PMM.memory self) /\
  (forall fit env w (self : @PMM.t ListPipeline),
     lp_messages (PMM.super self) = [] ->
     @PMM.removeLast RT ListPipeline (ListPipeline_ops fit) env (w, self)
     = (Ok false, (w, self))).
Proof.
  split.
  - intros P Base env w self Hnone. eexists. split.
    + by apply removeLast_nothing_removed.
    + reflexivity.
  - intros fit env w self Hempty.
    rewrite (@removeLast_nothing_removed RT _ (ListPipeline_ops fit)).
    + simpl. rewrite Hempty. simpl. by destruct self.
    + simpl. by rewrite Hempty.
Qed.

Section AdapterClaims.
Context {RT : JSRuntime}.

(** ** C5 *)

Lemma driver_after_ensured env o :
  SQL.database o = None -> driver_after env (ensured env o) = driver_after env o.
Proof.
  intros Hdb. unfold ensured. rewrite Hdb.
  destruct (open_failure env o); unfold driver_after; simpl;
    destruct (SQL.driver o); simpl; try reflexivity;
    destruct (dynamicRequire env "better-sqlite3"); reflexivity.
Qed.

Lemma open_failure_ext env o o' :
  driver_after env o' = driver_after env o ->
  SQL.dbPath o' = SQL.dbPath o -> SQL.journalMode o' = SQL.journalMode o ->
  open_failure env o' = open_failure env o.
Proof. intros H1 H2 H3. unfold open_failure. by rewrite H1, H2, H3. Qed.

(** Opening again in the same environment changes nothing. *)
Lemma ensured_idempotent env o : ensured env (ensured env o) = ensured env o.
Proof.
  destruct (SQL.database o) as [db|] eqn:Hdb.
  - unfold ensured. rewrite Hdb. cbn. by rewrite Hdb.
  - pose proof (driver_after_ensured env o Hdb) as Hdrv.
    assert (Hf : open_failure env (ensured env o) = open_failure env o).
    { apply open_failure_ext; [exact Hdrv| |];
        unfold ensured; rewrite Hdb; by destruct (open_failure env o). }
    unfold ensured at 1. rewrite Hf, Hdrv.
    unfold ensured. rewrite Hdb.
    destruct (open_failure env o) as [e|]; reflexivity.
Qed.

(** With a connection open, opening is a no-op in every environment. *)
Lemma ensured_open env o db : SQL.database o = Some db -> ensured env o = o.
Proof. intros H. unfold ensured. by rewrite H. Qed.

Lemma filter_none_of {A} (f : A -> bool) (l : list A) :
  existsb f l = false -> filter (fun x => f x) l = [].
Proof.
  induction l as [|x l IH]; simpl; [done|].
  intros H. apply orb_false_iff in H as [Hx Hl].
  rewrite filter_cons_False; [by apply IH|]. rewrite Hx. simpl. tauto.
Qed.

(** C5: no operation of a storage adapter raises.  For both adapters, in
    every state and every environment (driver missing, open, pragma,
    schema, statement, transaction or query failing), [initialize],
    [clearConversation] and [replaceConversation] return normally and
    [getMessages] returns a list, the empty one when the read fails or the
    conversation is unknown; [initialize] is idempotent (a second call in
    the same environment leaves the adapter and the files as the first
    did, and after a success it is a no-op in any environment); and a
    failure to initialize shows in the answer of [isAvailable] alone. *)
Theorem C5_adapter_never_raises env conversationId rows w a :
  fst (Adapter.initialize env (w, a)) = Ok tt /\
  fst (Adapter.clearConversation env conversationId (w, a)) = Ok tt /\
  fst (Adapter.replaceConversation env conversationId rows (w, a)) = Ok tt /\
  (exists stored, fst (Adapter.getMessages env conversationId (w, a)) = Ok stored) /\
  (if read_fails env a || negb (conversation_known env conversationId w a)
   then fst (Adapter.getMessages env conversationId (w, a)) = Ok []
   else True) /\
  (let s1 := snd (Adapter.initialize env (w, a)) in
   fst (Adapter.initialize env s1) = Ok tt /\
   snd (snd (Adapter.initialize env s1)) = snd s1 /\
   disk (fst (snd (Adapter.initialize env s1))) = disk w /\
   (if available env a
    then forall env', Adapter.initialize env' s1 = (Ok tt, s1)
    else True)) /\
  fst (Adapter.isAvailable env (w, a)) = Ok (available env a) /\
  fst (Adapter.isAvailable env (snd (Adapter.initialize env (w, a)))) = Ok (available env a).
Proof.
  split; [apply adapter_initialize_ok|].
  split; [apply adapter_clearConversation_ok|].
  split; [apply adapter_replaceConversation_ok|].
  split; [apply adapter_getMessages_ok|].
  destruct a as [o|m].
  - unfold Adapter.getMessages, Adapter.initialize, Adapter.isAvailable, Adapter.dispatch.
    cbn [fst snd]. rewrite getMessages_eq, initialize_eq, isAvailable_eq. cbn [fst snd].
    rewrite initialize_eq, isAvailable_eq. cbn [fst snd].
    rewrite ensured_idempotent.
    split; [|split; [|split]].
    + unfold read_fails, conversation_known.
      destruct (SQL.database (ensured env o)) as [db|]; [|reflexivity].
      destruct (SQL.statements (ensured env o)) as [st|]; [|reflexivity].
      destruct (env_fails env OpSelectMessages); [reflexivity|]. cbn [orb fst].
      pose proof (ensured_world_frame env o w) as (Hd & _).
      assert (Hdb : database_at (SQL.connection_path (SQL.prepared_on st))
                      (ensured_world env o w)
                    = database_at (SQL.connection_path (SQL.prepared_on st)) w).
      { unfold database_at. by rewrite Hd. }
      rewrite Hdb.
      destruct (existsb _ _) eqn:Hex; cbn [negb]; [exact I|].
      unfold selected. by rewrite (filter_none_of _ _ Hex).
    + repeat split.
      * pose proof (ensured_world_frame env (ensured env o) (ensured_world env o w))
          as (Hd & _).
        pose proof (ensured_world_frame env o w) as (Hd' & _). congruence.
      * unfold available. destruct (SQL.database (ensured env o)) as [db|] eqn:Hdb.
        -- rewrite bool_decide_eq_true_2 by eauto.
           intros env'. rewrite initialize_eq.
           rewrite (ensured_open env' _ db Hdb).
           unfold ensured_world. by rewrite Hdb.
        -- rewrite bool_decide_eq_false_2; [exact I|]. by intros [? ?].
    + reflexivity.
    + reflexivity.
  - unfold Adapter.getMessages, Adapter.initialize, Adapter.isAvailable, Adapter.dispatch,
      Mem.getMessages, read_fails, conversation_known, available.
    run. repeat split.
    destruct (Mem.store m !! conversationId) eqn:E.
    + rewrite bool_decide_eq_true_2 by eauto. exact I.
    + rewrite bool_decide_eq_false_2; [reflexivity|]. by intros [? ?].
Qed.

(** ** C6 *)

(** What a read returns depends on the world through the files alone. *)
Lemma getMessages_disk env cid w1 w2 o :
  disk w1 = disk w2 ->
  fst (SQL.getMessages env cid (w1, o)) = fst (SQL.getMessages env cid (w2, o)).
Proof.
  intros Hd. rewrite !getMessages_eq.
  destruct (SQL.database (ensured env o)); [|reflexivity].
  destruct (SQL.statements (ensured env o)) as [st|]; [|reflexivity].
  destruct (env_fails env OpSelectMessages); [reflexivity|]. cbn [fst].
  pose proof (ensured_world_frame env o w1) as (H1 & _).
  pose proof (ensured_world_frame env o w2) as (H2 & _).
  unfold database_at. by rewrite H1, H2, Hd.
Qed.

Lemma adapter_getMessages_disk env cid w1 w2 a :
  disk w1 = disk w2 ->
  fst (Adapter.getMessages env cid (w1, a)) = fst (Adapter.getMessages env cid (w2, a)).
Proof.
  intros Hd. destruct a as [o|m]; unfold Adapter.getMessages, Adapter.dispatch; cbn [fst snd].
  - pose proof (getMessages_disk env cid w1 w2 o Hd) as H.
    destruct (SQL.getMessages env cid (w1, o)) as [r1 [w1' o1]].
    destruct (SQL.getMessages env cid (w2, o)) as [r2 [w2' o2]]. exact H.
  - unfold Mem.getMessages. run. by destruct (Mem.store m !! cid).
Qed.

(** C6: [replaceConversation] is all-or-nothing.  When a step of the
    replace fails (the transaction cannot begin, the upsert of the
    conversation, the delete of the old rows, the encoding of a metadata
    map or the insert of a row throws, or the commit fails), the call
    returns normally, the database files are as before the call, and every
    later [getMessages], for any conversation and in any environment,
    returns what it would have returned had the files not been touched. *)
Theorem C6_replace_all_or_nothing env conversationId rows w o e :
  replace_failure env rows = Some e ->
  let s' := snd (SQL.replaceConversation env conversationId rows (w, o)) in
  fst (SQL.replaceConversation env conversationId rows (w, o)) = Ok tt /\
  disk (fst s') = disk w /\
  forall env' conversationId',
    fst (SQL.getMessages env' conversationId' s')
    = fst (SQL.getMessages env' conversationId' (w, snd s')).
Proof.
  intros Hfail. rewrite replaceConversation_eq. cbn [fst snd].
  assert (Hd : disk (match SQL.database (ensured env o), SQL.statements (ensured env o) with
                     | Some _, Some st =>
                         replace_world env st conversationId rows (ensured_world env o w)
                     | _, _ => ensured_world env o w
                     end) = disk w).
  { pose proof (ensured_world_frame env o w) as (Hd & _).
    destruct (SQL.database (ensured env o)); [|exact Hd].
    destruct (SQL.statements (ensured env o)); [|exact Hd].
    unfold replace_world. rewrite Hfail. exact Hd. }
  split; [reflexivity|]. split; [exact Hd|].
  intros env' cid'. by apply getMessages_disk.
Qed.

End AdapterClaims.

Section Echo.
Context {RT : JSRuntime}.

(** *** [ORDER BY sequence] on rows already in order *)

Lemma insert_by_sequence_last r rs :
  Forall (fun r' => (row_sequence r' <= row_sequence r)%Z) rs ->
  insert_by_sequence r rs = rs ++ [r].
Proof.
  induction 1 as [|r' rs Hle _ IH]; simpl; [reflexivity|].
  destruct (Z.ltb_spec (row_sequence r) (row_sequence r')); [lia|].
  by rewrite IH.
Qed.

Lemma order_by_sequence_from acc l :
  StronglySorted (fun a b => (row_sequence a <= row_sequence b)%Z) (acc ++ l) ->
  foldl (fun sorted r => insert_by_sequence r sorted) acc l = acc ++ l.
Proof.
  revert acc. induction l as [|x l IH]; intros acc Hs; simpl.
  - by rewrite app_nil_r.
  - rewrite insert_by_sequence_last.
    + rewrite IH; rewrite <- app_assoc; [reflexivity|exact Hs].
    + clear IH. induction acc as [|a acc IHa]; [constructor|].
      simpl in Hs. apply StronglySorted_inv in Hs as [Hs Ha].
      constructor; [|by apply IHa].
      rewrite Forall_app in Ha. destruct Ha as [_ Ha].
      by apply Forall_inv in Ha.
Qed.

Lemma order_by_sequence_sorted l :
  StronglySorted (fun a b => (row_sequence a <= row_sequence b)%Z) l ->
  order_by_sequence l = l.
Proof. intros H. unfold order_by_sequence. by rewrite order_by_sequence_from. Qed.

(** *** The rows of the conversation in a file after a replace *)

Lemma filter_of_not_of cid (l : list MessageRow) :
  filter (fun r => String.eqb (row_conversation_id r) cid) (filter (not_of cid) l) = [].
Proof.
  induction l as [|x l IH]; [reflexivity|].
  destruct (String.eqb (row_conversation_id x) cid) eqn:E.
  - rewrite (filter_cons_False (not_of cid)); [exact IH|].
    unfold not_of. rewrite E. simpl. tauto.
  - rewrite (filter_cons_True (not_of cid)); [|unfold not_of; rewrite E; exact I].
    rewrite filter_cons_False; [exact IH|]. rewrite E. simpl. tauto.
Qed.

Lemma filter_of_table_rows cid now rows :
  filter (fun r => String.eqb (row_conversation_id r) cid) (map (table_row cid now) rows)
  = map (table_row cid now) rows.
Proof.
  induction rows as [|x rows IH]; [reflexivity|].
  simpl. rewrite filter_cons_True; [by rewrite IH|].
  simpl. rewrite String.eqb_refl. exact I.
Qed.

Lemma selected_replaced cid now rows d :
  StronglySorted Z.le (map sequence rows) ->
  selected cid (replaced cid now rows d) = map (table_row cid now) rows.
Proof.
  intros Hs. unfold selected, replaced. simpl.
  rewrite filter_app, filter_of_not_of, filter_of_table_rows. simpl.
  apply order_by_sequence_sorted.
  induction rows as [|x rows IH]; simpl; [constructor|].
  simpl in Hs. apply StronglySorted_inv in Hs as [Hs Hx].
  constructor; [by apply IH|].
  clear IH Hs. induction rows as [|y rows IH]; simpl; [constructor|].
  simpl in Hx. apply Forall_cons in Hx as [Hy Hx].
  constructor; [exact Hy|by apply IH].
Qed.

Lemma copy_message_id row : Mem.copy_message row = row.
Proof.
  destruct row as [r c s t md]. unfold Mem.copy_message. simpl. f_equal.
  destruct md as [md|]; [|reflexivity]. f_equal.
  induction md as [|[k v] md IH]; [reflexivity|]. simpl. by rewrite IH.
Qed.

Lemma ensured_consistent env o :
  consistent o -> SQL.database (ensured env o) <> None ->
  SQL.database (ensured env o) = Some (connection o) /\
  SQL.statements (ensured env o) = Some {| SQL.prepared_on := connection o |}.
Proof.
  unfold consistent, ensured. intros Hc Hdb.
  destruct (SQL.database o) as [db|] eqn:E.
  - destruct Hc as [-> Hst]. by rewrite E.
  - destruct (open_failure env o); simpl in *; [done|]. done.
Qed.

(** What [getMessages] returns after a [replaceConversation] that the
    adapter took: the rows written, each as the adapter gives it back. *)
Lemma adapter_echo env env' cid rows w a :
  accepts env a rows -> reads env' a ->
  StronglySorted Z.le (map sequence rows) ->
  let s' := snd (Adapter.replaceConversation env cid rows (w, a)) in
  fst (Adapter.getMessages env' cid s')
  = Ok (map (stored_form a cid (env_clock env (clock_reads w))) rows).
Proof.
  intros Hacc Hread Hsorted. destruct a as [o|m].
  - destruct Hacc as (Hcons & Hdb & Hok). simpl in Hread.
    unfold Adapter.replaceConversation, Adapter.getMessages, Adapter.dispatch.
    cbn [fst snd]. rewrite replaceConversation_eq. cbn [fst snd].
    destruct (ensured_consistent env o Hcons Hdb) as [Hdb' Hst'].
    rewrite Hdb', Hst'. rewrite getMessages_eq.
    rewrite (ensured_open env' _ _ Hdb'). rewrite Hdb', Hst', Hread. cbn [fst].
    unfold ensured_world at 1. rewrite Hdb'.
    unfold replace_world. rewrite Hok. cbn [SQL.connection_path SQL.prepared_on connection].
    rewrite database_at_insert.
    rewrite selected_replaced by exact Hsorted.
    rewrite map_map. simpl.
    pose proof (ensured_world_frame env o w) as (_ & Hclock & _).
    by rewrite Hclock.
  - unfold Adapter.replaceConversation, Adapter.getMessages, Adapter.dispatch,
      Mem.replaceConversation, Mem.getMessages.
    run. rewrite lookup_insert_eq. simpl. rewrite map_map.
    f_equal. apply map_ext. intros row. by rewrite copy_message_id.
Qed.

End Echo.

Section RewriteClaims.
Context {RT : JSRuntime} {P : Type} {Base : MessageManager P}.

Lemma rows_of_sequence env messages : forall reads index,
  map sequence (rows_of env reads index messages)
  = map Z.of_nat (seq index (length messages)).
Proof.
  induction messages as [|m ms IH]; intros reads index; simpl; [reflexivity|].
  by rewrite IH.
Qed.

Lemma rows_of_role env messages : forall reads index,
  map role (rows_of env reads index messages) = map _getMessageType messages.
Proof.
  induction messages as [|m ms IH]; intros reads index; simpl; [reflexivity|].
  by rewrite IH.
Qed.

Lemma rows_of_content env messages : forall reads index,
  map content (rows_of env reads index messages)
  = map (fun m => PMM.sc_content (PMM.normalizeContent m)) messages.
Proof.
  induction messages as [|m ms IH]; intros reads index; simpl; [reflexivity|].
  by rewrite IH.
Qed.

Lemma seq_sorted n : forall index,
  StronglySorted Z.le (map Z.of_nat (seq index n)).
Proof.
  induction n as [|n IH]; intros index; simpl; constructor; [apply IH|].
  rewrite Forall_map, Forall_forall. intros x Hx.
  apply list_elem_of_In, in_seq in Hx. simpl. lia.
Qed.

Lemma rows_of_sorted env messages reads index :
  StronglySorted Z.le (map sequence (rows_of env reads index messages)).
Proof. rewrite rows_of_sequence. apply seq_sorted. Qed.

Lemma stored_form_fields a cid now row :
  sequence (stored_form a cid now row) = sequence row /\
  role (stored_form a cid now row) = role row /\
  content (stored_form a cid now row) = content row.
Proof. destruct a; done. Qed.

(** The rows in the store after a rewrite that the adapter took. *)
Lemma persisted_stored env env' w (self : @PMM.t P) :
  let messages := super_getMessages (PMM.super self) in
  let rows := rows_of env (clock_reads w) 0 messages in
  accepts env (PMM.memory self) rows -> reads env' (PMM.memory self) ->
  let s' := persisted env (w, self) in
  fst (Adapter.getMessages env' (PMM.conversationId self) (fst s', PMM.memory (snd s')))
  = Ok (map (stored_form (PMM.memory self) (PMM.conversationId self)
               (env_clock env (length messages + clock_reads w))) rows).
Proof.
  intros messages rows Hacc Hread. unfold persisted.
  fold messages. fold rows.
  pose proof (adapter_echo env env' (PMM.conversationId self) rows
                (add_call (CallReplaceConversation (PMM.conversationId self) rows)
                   (tick (length messages) w))
                (PMM.memory self) Hacc Hread (rows_of_sorted _ _ _ _)) as H.
  cbn zeta in H.
  destruct (Adapter.replaceConversation env (PMM.conversationId self) rows
              (add_call (CallReplaceConversation (PMM.conversationId self) rows)
                 (tick (length messages) w), PMM.memory self)) as [r0 [w' a']].
  exact H.
Qed.

Lemma mutate_eq env op w (p : P) a cid :
  mutates op p = true ->
  mutate env op (w, {| PMM.super := p; PMM.memory := a; PMM.conversationId := cid;
                       PMM.restoring := false |})
  = (Ok tt,
     persisted env
       (w, {| PMM.super := pipeline_after op p; PMM.memory := a;
              PMM.conversationId := cid; PMM.restoring := false |})).
Proof.
  intros Hm. destruct op as [m pos| |n]; unfold mutate.
  - by rewrite add_eq.
  - unfold mbind, M_bind, bind, mret, M_ret, ret. rewrite removeLast_eq.
    simpl in *. by rewrite Hm.
  - by rewrite setMaxTokens_eq.
Qed.

(** *** The invariant of the stored sequences *)

Lemma rows_of_dense env messages reads :
  dense (map sequence (rows_of env reads 0 messages)).
Proof. unfold dense. by rewrite rows_of_sequence, !length_map, length_seq. Qed.

Lemma ensured_is_consistent env o : consistent o -> consistent (ensured env o).
Proof.
  unfold consistent, ensured. intros Hc.
  destruct (SQL.database o) as [db|] eqn:E; [by rewrite E|].
  destruct (open_failure env o); simpl; done.
Qed.

(** Whatever the environment does, a rewrite leaves the stored sequences
    of the conversation dense: it commits rows numbered from zero, or it
    changes no row. *)
Lemma persisted_dense env w (self : @PMM.t P) :
  stored_dense (PMM.conversationId self) w (PMM.memory self) ->
  let s' := persisted env (w, self) in
  stored_dense (PMM.conversationId self) (fst s') (PMM.memory (snd s')).
Proof.
  intros Hinv. unfold persisted.
  set (messages := super_getMessages (PMM.super self)).
  set (rows := rows_of env (clock_reads w) 0 messages).
  set (cid := PMM.conversationId self) in *.
  set (w0 := add_call (CallReplaceConversation cid rows) (tick (length messages) w)).
  destruct (PMM.memory self) as [o|m] eqn:Hmem.
  - destruct Hinv as [Hcons Hdense].
    unfold Adapter.replaceConversation, Adapter.dispatch. cbn [fst snd].
    rewrite replaceConversation_eq. cbn [fst snd PMM.memory PMM.set_memory].
    split; [by apply ensured_is_consistent|]. rewrite ensured_dbPath.
    pose proof (ensured_world_frame env o w0) as (Hd & _).
    assert (Hkeep : forall w', disk w' = disk w ->
              dense (map row_sequence (selected cid (database_at (SQL.dbPath o) w')))).
    { intros w' Hw'. unfold database_at in *. by rewrite Hw'. }
    destruct (SQL.database (ensured env o)) as [db|] eqn:Hdb; [|by apply Hkeep].
    destruct (ensured_consistent env o Hcons) as [_ Hst]; [by rewrite Hdb|].
    rewrite Hst. unfold replace_world.
    destruct (replace_failure env rows); [by apply Hkeep|].
    cbn [SQL.connection_path SQL.prepared_on connection].
    rewrite database_at_insert. rewrite selected_replaced by apply rows_of_sorted.
    rewrite map_map. cbn [row_sequence table_row]. apply rows_of_dense.
  - unfold Adapter.replaceConversation, Adapter.dispatch, Mem.replaceConversation.
    run. rewrite lookup_insert_eq. simpl. rewrite map_map.
    erewrite map_ext; [apply (rows_of_dense env messages (clock_reads w))|].
    intros row. by rewrite copy_message_id.
Qed.

Lemma mutate_dense env op w (p : P) a cid :
  stored_dense cid w a ->
  let s' := snd (mutate env op
                   (w, {| PMM.super := p; PMM.memory := a; PMM.conversationId := cid;
                          PMM.restoring := false |})) in
  stored_dense cid (fst s') (PMM.memory (snd s')).
Proof.
  intros Hinv. destruct (mutates op p) eqn:Hm.
  - rewrite mutate_eq by exact Hm. cbn [snd].
    apply (persisted_dense env w
             {| PMM.super := pipeline_after op p; PMM.memory := a;
                PMM.conversationId := cid; PMM.restoring := false |} Hinv).
  - destruct op; try discriminate. simpl in Hm. unfold mutate.
    unfold mbind, M_bind, bind, mret, M_ret, ret.
    rewrite removeLast_nothing_removed by exact Hm. exact Hinv.
Qed.

(** The stored rows after a mutating operation that the adapter took. *)
Lemma rewrite_dense_sequences env env' op w (p : P) a cid :
  let live := {| PMM.super := p; PMM.memory := a; PMM.conversationId := cid;
                 PMM.restoring := false |} in
  let messages := super_getMessages (pipeline_after op p) in
  mutates op p = true ->
  accepts env a (rows_of env (clock_reads w) 0 messages) ->
  reads env' a ->
  let s' := snd (mutate env op (w, live)) in
  PMM.getMessages (snd s') = messages /\
  exists stored,
    fst (Adapter.getMessages env' cid (fst s', PMM.memory (snd s'))) = Ok stored /\
    length stored = length messages /\
    map sequence stored = map Z.of_nat (seq 0 (length messages)) /\
    map role stored = map _getMessageType messages /\
    map content stored = map (fun m => PMM.sc_content (PMM.normalizeContent m)) messages.
Proof.
  intros live messages Hm Hacc Hread. unfold live. rewrite mutate_eq by exact Hm.
  cbn [snd].
  pose proof (persisted_stored env env' w
                {| PMM.super := pipeline_after op p; PMM.memory := a;
                   PMM.conversationId := cid; PMM.restoring := false |} Hacc Hread) as H.
  pose proof (persisted_frame env w
                {| PMM.super := pipeline_after op p; PMM.memory := a;
                   PMM.conversationId := cid; PMM.restoring := false |})
    as (_ & _ & Hsuper & _).
  cbn zeta in *. cbn [PMM.super PMM.memory PMM.conversationId] in *.
  split; [unfold PMM.getMessages; by rewrite Hsuper|].
  eexists. split; [exact H|].
  fold messages.
  assert (Hproj : forall (f : ChatMemoryMessage -> Z + string) now rows,
            (forall row, f (stored_form a cid now row) = f row) ->
            map f (map (stored_form a cid now) rows) = map f rows).
  { intros f now rows Hf. rewrite map_map. apply map_ext. intros; apply Hf. }
  repeat split.
  - by rewrite !length_map, <- (length_map sequence), rows_of_sequence, length_map,
      length_seq.
  - rewrite map_map. erewrite map_ext; [apply rows_of_sequence|].
    intros row. apply stored_form_fields.
  - rewrite map_map. erewrite map_ext; [apply rows_of_role|].
    intros row. apply stored_form_fields.
  - rewrite map_map. erewrite map_ext; [apply rows_of_content|].
    intros row. apply stored_form_fields.
Qed.

End RewriteClaims.

Section ThreeAdds.
Context {RT : JSRuntime}.
Variable fit : option Z -> list BaseMessage -> list BaseMessage.

Local Abbreviation fitted := (ListPipeline_ops fit).
Local Abbreviation fitted_add := (@PMM.add RT ListPipeline (ListPipeline_ops fit)).
Local Abbreviation fitted_removeLast := (@PMM.removeLast RT ListPipeline (ListPipeline_ops fit)).

(** [add] at the end of a list pipeline that needs no trimming. *)
Lemma add_last env w messages maxTokens a cid m :
  fit maxTokens (messages ++ [m]) = messages ++ [m] ->
  exists w' a',
    snd (fitted_add env m None
           (w, {| PMM.super := {| lp_messages := messages; lp_maxTokens := maxTokens |};
                  PMM.memory := a; PMM.conversationId := cid; PMM.restoring := false |}))
    = (w', {| PMM.super := {| lp_messages := messages ++ [m]; lp_maxTokens := maxTokens |};
              PMM.memory := a'; PMM.conversationId := cid; PMM.restoring := false |}).
Proof.
  intros Hfit. rewrite (add_eq (Base := fitted)). cbn [snd PMM.restoring].
  match goal with |- context [persisted ?e (?w0, ?s0)] =>
    pose proof (persisted_frame (Base := fitted) e w0 s0) as (_ & Hr & Hs & Hc);
    destruct (persisted (Base := fitted) e (w0, s0)) as [w' [p' a' cid' r']] end.
  simpl in *. subst. rewrite Hfit. eauto.
Qed.

(** After three adds to an empty list pipeline and a [removeLast], the
    adapter holds two rows, with sequences 0 and 1. *)
Lemma three_adds_then_removeLast env1 env2 env3 env4 env' w maxTokens a cid m1 m2 m3 :
  (forall l, length l <= 3 -> fit maxTokens l = l) ->
  let fresh := {| PMM.super := {| lp_messages := []; lp_maxTokens := maxTokens |};
                  PMM.memory := a; PMM.conversationId := cid; PMM.restoring := false |} in
  let s3 := snd (fitted_add env3 m3 None
                   (snd (fitted_add env2 m2 None (snd (fitted_add env1 m1 None (w, fresh)))))) in
  accepts env4 (PMM.memory (snd s3))
    (rows_of env4 (clock_reads (fst s3)) 0 [m1; m2]) ->
  reads env' (PMM.memory (snd s3)) ->
  let s4 := snd (fitted_removeLast env4 s3) in
  @PMM.getMessages ListPipeline fitted (snd s4) = [m1; m2] /\
  exists r0 r1,
    fst (Adapter.getMessages env' cid (fst s4, PMM.memory (snd s4))) = Ok [r0; r1] /\
    sequence r0 = 0%Z /\ sequence r1 = 1%Z.
Proof.
  intros Hfit fresh s3.
  destruct (add_last env1 w [] maxTokens a cid m1) as (w1 & a1 & H1);
    [apply Hfit; simpl; lia|].
  destruct (add_last env2 w1 [m1] maxTokens a1 cid m2) as (w2 & a2 & H2);
    [apply Hfit; simpl; lia|].
  destruct (add_last env3 w2 [m1; m2] maxTokens a2 cid m3) as (w3 & a3 & H3);
    [apply Hfit; simpl; lia|].
  subst s3 fresh. simpl app in *. rewrite H1, H2, H3. cbn [fst snd PMM.memory].
  cbv zeta. intros Hacc Hread.
  pose proof (rewrite_dense_sequences (Base := fitted) env4 env' MutRemoveLast w3
                {| lp_messages := [m1; m2; m3]; lp_maxTokens := maxTokens |} a3 cid
                eq_refl Hacc Hread) as (Hlist & stored & Hget & Hlen & Hseq & _).
  unfold mutate in *.
  unfold mbind, M_bind, bind, mret, M_ret, ret in *.
  destruct (fitted_removeLast env4 _) as [[removed|e] s4]; cbn [snd] in *;
    (split; [exact Hlist|]).
  - destruct stored as [|r0 [|r1 [|r2 stored]]]; try discriminate Hlen.
    exists r0, r1. simpl in Hseq. injection Hseq as H0 H1'. auto.
  - destruct stored as [|r0 [|r1 [|r2 stored]]]; try discriminate Hlen.
    exists r0, r1. simpl in Hseq. injection Hseq as H0 H1'. auto.
Qed.

End ThreeAdds.

(** A mutating operation whose write the durable adapter does not take,
    for want of a connection or because a step of the transaction fails:
    the list of the manager moves on, the files stay as they were, and
    every read returns what it would have returned before the operation. *)
Lemma unwritten_keeps_rows {RT : JSRuntime} {P : Type} {Base : MessageManager P}
    env op w (p : P) o cid :
  let live := {| PMM.super := p; PMM.memory := SQLiteAdapter o; PMM.conversationId := cid;
                 PMM.restoring := false |} in
  let messages := super_getMessages (pipeline_after op p) in
  mutates op p = true ->
  SQL.database (ensured env o) = None
  \/ (exists e, replace_failure env (rows_of env (clock_reads w) 0 messages) = Some e) ->
  let s' := snd (mutate env op (w, live)) in
  PMM.getMessages (snd s') = messages /\
  disk (fst s') = disk w /\
  forall env' conversationId,
    fst (Adapter.getMessages env' conversationId (fst s', PMM.memory (snd s')))
    = fst (Adapter.getMessages env' conversationId (w, PMM.memory (snd s'))).
Proof.
  intros live messages Hm Hfail s'. subst s' live. rewrite mutate_eq by exact Hm.
  cbn [snd].
  pose proof (persisted_frame env w
                {| PMM.super := pipeline_after op p; PMM.memory := SQLiteAdapter o;
                   PMM.conversationId := cid; PMM.restoring := false |})
    as (_ & _ & Hsuper & _).
  cbv zeta in Hsuper. cbn [PMM.super] in Hsuper.
  split; [unfold PMM.getMessages; by rewrite Hsuper|].
  assert (Hd : disk (fst (persisted env
                            (w, {| PMM.super := pipeline_after op p;
                                   PMM.memory := SQLiteAdapter o;
                                   PMM.conversationId := cid;
                                   PMM.restoring := false |}))) = disk w).
  { unfold persisted. cbn [PMM.super PMM.memory PMM.conversationId]. fold messages.
    unfold Adapter.replaceConversation, Adapter.dispatch. cbn [fst snd].
    rewrite replaceConversation_eq. cbn [fst snd].
    match goal with |- context [ensured_world env o ?w0] =>
      pose proof (ensured_world_frame env o w0) as (Hw & _) end.
    cbn [disk add_call tick] in Hw.
    destruct Hfail as [Hnone|[e He]].
    - rewrite Hnone. exact Hw.
    - destruct (SQL.database (ensured env o)); [|exact Hw].
      destruct (SQL.statements (ensured env o)); [|exact Hw].
      unfold replace_world. rewrite He. exact Hw. }
  split; [exact Hd|].
  intros env' cid'. by apply adapter_getMessages_disk.
Qed.

(** C2, as amended: a mutating operation outside restoring mode whose
    write the adapter takes rewrites the stored rows of the conversation.
    For [add], [setMaxTokens] and a [removeLast] that removed a message,
    on a manager whose restoring flag is false and whose adapter takes
    the write, the rows the adapter then returns for the conversation are
    as many as the messages of the in-memory list, and row [i] has
    sequence [i] and the role and content of message [i], so the sequences
    are [0 .. N-1].  Whatever the environment does to the write, the
    sequences stored for the conversation stay dense and zero-based.
    After three adds to an empty list pipeline (under a budget rule that
    leaves lists of up to three messages alone) and a [removeLast], two
    rows remain, with sequences 0 and 1.  When the durable adapter does
    not take the write, for want of a connection or because a step of the
    transaction fails, the in-memory list moves on all the same and the
    stored rows stay those of the last write that went through. *)
Theorem C2_rewrite_dense_sequences {RT : JSRuntime} :
  (forall (P : Type) (Base : MessageManager P) env env' op w (p : P) a cid,
     let live := {| PMM.super := p; PMM.memory := a; PMM.conversationId := cid;
                    PMM.restoring := false |} in
     let messages := super_getMessages (pipeline_after op p) in
     mutates op p = true ->
     accepts env a (rows_of env (clock_reads w) 0 messages) ->
     reads env' a ->
     let s' := snd (mutate env op (w, live)) in
     PMM.getMessages (snd s') = messages /\
     exists stored,
       fst (Adapter.getMessages env' cid (fst s', PMM.memory (snd s'))) = Ok stored /\
       length stored = length messages /\
       map sequence stored = map Z.of_nat (seq 0 (length messages)) /\
       map role stored = map _getMessageType messages /\
       map content stored
       = map (fun m => PMM.sc_content (PMM.normalizeContent m)) messages) /\
  (forall (P : Type) (Base : MessageManager P) env op w (p : P) a cid,
     let live := {| PMM.super := p; PMM.memory := a; PMM.conversationId := cid;
                    PMM.restoring := false |} in
     stored_dense cid w a ->
     let s' := snd (mutate env op (w, live)) in
     stored_dense cid (fst s') (PMM.memory (snd s'))) /\
  (forall fit env1 env2 env3 env4 env' w maxTokens a cid m1 m2 m3,
     (forall l, length l <= 3 -> fit maxTokens l = l) ->
     let fresh := {| PMM.super := {| lp_messages := []; lp_maxTokens := maxTokens |};
                     PMM.memory := a; PMM.conversationId := cid;
                     PMM.restoring := false |} in
     let add := @PMM.add RT ListPipeline (ListPipeline_ops fit) in
     let s3 := snd (add env3 m3 None
                      (snd (add env2 m2 None (snd (add env1 m1 None (w, fresh)))))) in
     accepts env4 (PMM.memory (snd s3))
       (rows_of env4 (clock_reads (fst s3)) 0 [m1; m2]) ->
     reads env' (PMM.memory (snd s3)) ->
     let s4 := snd (@PMM.removeLast RT ListPipeline (ListPipeline_ops fit) env4 s3) in
     @PMM.getMessages ListPipeline (ListPipeline_ops fit) (snd s4) = [m1; m2] /\
     exists r0 r1,
       fst (Adapter.getMessages env' cid (fst s4, PMM.memory (snd s4))) = Ok [r0; r1] /\
       sequence r0 = 0%Z /\ sequence r1 = 1%Z) /\
  (forall (P : Type) (Base : MessageManager P) env op w (p : P) o cid,
     let live := {| PMM.super := p; PMM.memory := SQLiteAdapter o;
                    PMM.conversationId := cid; PMM.restoring := false |} in
     let messages := super_getMessages (pipeline_after op p) in
     mutates op p = true ->
     SQL.database (ensured env o) = None
     \/ (exists e, replace_failure env (rows_of env (clock_reads w) 0 messages) = Some e) ->
     let s' := snd (mutate env op (w, live)) in
     PMM.getMessages (snd s') = messages /\
     disk (fst s') = disk w /\
     forall env' conversationId,
       fst (Adapter.getMessages env' conversationId (fst s', PMM.memory (snd s')))
       = fst (Adapter.getMessages env' conversationId (w, PMM.memory (snd s')))).
Proof.
  split; [|split; [|split]].
  - intros P Base. apply rewrite_dense_sequences.
  - intros P Base. apply mutate_dense.
  - intros fit. apply three_adds_then_removeLast.
  - intros P Base. apply unwritten_keeps_rows.
Qed.

Section RoundTrip.
Context {RT : JSRuntime}.

Lemma stored_form_survives a cid now row :
  createdAt row <> None -> row_survives a row -> stored_form a cid now row = row.
Proof.
  destruct a as [o|m]; simpl; intros Ht Hmd; [|apply copy_message_id].
  destruct row as [r c s t md]. simpl in *.
  unfold SQL.deserializeRow, table_row, SQL.metadata_json. simpl.
  destruct t as [t|]; [|done]. simpl. f_equal.
  destruct md as [md|]; [|reflexivity].
  destruct Hmd as (text & Hs & Hne & Hp). rewrite Hs.
  destruct text as [|ch text]; [done|]. simpl. by rewrite Hp.
Qed.

(** *** What [restoreContent] reads back *)

Lemma obj_get_set_same k v o : obj_get k (obj_set k v o) = Some v.
Proof.
  induction o as [|[k' v'] o IH]; simpl.
  - by rewrite String.eqb_refl.
  - destruct (String.eqb k k') eqn:E; simpl; [by rewrite String.eqb_refl|].
    by rewrite E.
Qed.

Lemma obj_get_set_other k k' v o :
  String.eqb k k' = false -> obj_get k (obj_set k' v o) = obj_get k o.
Proof.
  intros Hne. induction o as [|[k2 v2] o IH]; simpl.
  - by rewrite Hne.
  - destruct (String.eqb k' k2) eqn:E; simpl.
    + apply String.eqb_eq in E. subst k2. by rewrite Hne.
    + destruct (String.eqb k k2); [reflexivity|exact IH].
Qed.

Lemma nonempty_get k (md : Obj) :
  (md' ← (if (0 <? length md)%nat then Some md else None); obj_get k md') = obj_get k md.
Proof. destruct md; reflexivity. Qed.

Lemma nonempty_default (md : Obj) :
  default [] (if (0 <? length md)%nat then Some md else None) = md.
Proof. destruct md; reflexivity. Qed.

Ltac get_set :=
  repeat first
    [ rewrite obj_get_set_same
    | rewrite obj_get_set_other by reflexivity ].

(** The keys the tool and AI parts of [extractMetadata] leave alone. *)
Lemma tool_metadata_other k m md :
  String.eqb k "toolCallId" = false -> String.eqb k "toolStatus" = false ->
  String.eqb k "artifact" = false -> String.eqb k "toolMetadata" = false ->
  obj_get k (PMM.extractToolMetadata m md) = obj_get k md.
Proof.
  intros H1 H2 H3 H4.
  destruct m as [| | |c kw id status artifact tm| |]; try reflexivity.
  unfold PMM.extractToolMetadata.
  destruct tm as [tm|]; [destruct (truthy (Some tm) && _)|];
    destruct artifact; destruct status as [s|]; try destruct (truthy (Some (JStr s)));
    rewrite ?obj_get_set_other by assumption; reflexivity.
Qed.

Lemma ai_metadata_other k m md :
  String.eqb k "toolCalls" = false -> String.eqb k "invalidToolCalls" = false ->
  String.eqb k "usageMetadata" = false ->
  obj_get k (PMM.extractAIMetadata m md) = obj_get k md.
Proof.
  intros H1 H2 H3.
  destruct m as [| |c kw tc itc um| | |]; try reflexivity.
  unfold PMM.extractAIMetadata.
  destruct (truthy um); [destruct um|];
    destruct (0 <? length itc)%nat;
    destruct (0 <? length tc)%nat;
    rewrite ?obj_get_set_other by assumption; reflexivity.
Qed.

(** The metadata map of a message, before the test for emptiness. *)
Lemma extractMetadata_get k m j :
  (md ← PMM.extractMetadata m j; obj_get k md)
  = obj_get k (default [] (PMM.extractMetadata m j)).
Proof.
  unfold PMM.extractMetadata.
  match goal with |- context [(0 <? length ?md)%nat] => generalize md end.
  intros md. destruct md; reflexivity.
Qed.

(** The flag is in the metadata map exactly when the content was encoded. *)
Lemma metadata_contentIsJson m j :
  obj_get "contentIsJson" (default [] (PMM.extractMetadata m j))
  = if j then Some (JBool true) else None.
Proof.
  unfold PMM.extractMetadata. rewrite nonempty_default.
  rewrite ai_metadata_other, tool_metadata_other by reflexivity.
  destruct (truthy (Some (msg_additional_kwargs m)) && _);
    rewrite ?obj_get_set_other by reflexivity; destruct j; reflexivity.
Qed.

Lemma metadata_additional_kwargs m j :
  obj_get "additional_kwargs" (default [] (PMM.extractMetadata m j))
  = if truthy (Some (msg_additional_kwargs m))
       && (0 <? Object_keys_length (msg_additional_kwargs m))%nat
    then Some (msg_additional_kwargs m) else None.
Proof.
  unfold PMM.extractMetadata. rewrite nonempty_default.
  rewrite ai_metadata_other, tool_metadata_other by reflexivity.
  destruct (truthy (Some (msg_additional_kwargs m)) && _);
    [by rewrite obj_get_set_same|]. destruct j; reflexivity.
Qed.

Lemma restoreContent_row_of m seq now :
  content_survives m -> PMM.restoreContent (row_of m seq now) = msg_content m.
Proof.
  intros Hc. unfold PMM.restoreContent, row_of. cbn [metadata content].
  rewrite extractMetadata_get, metadata_contentIsJson.
  unfold content_survives, PMM.normalizeContent in *.
  destruct (msg_content m) as [| b | n | s | xs | fs] eqn:E; try reflexivity.
  all: destruct Hc as (text & Hs & Hne & Hp); rewrite Hs; cbn [PMM.isJson PMM.sc_content].
  all: destruct text as [|ch text]; [done|]; cbn [truthy andb negb String.eqb].
  all: by rewrite Hp.
Qed.

(** The text [deserializeMessage] gives a browser-state or todo-list
    message is the stored content. *)
Lemma content_text_row_of m :
  content_survives m ->
  PMM.content_text (msg_content m) = Ok (PMM.sc_content (PMM.normalizeContent m)).
Proof.
  unfold content_survives, PMM.content_text, PMM.normalizeContent.
  destruct (msg_content m); try reflexivity.
  all: intros (text & Hs & _); by rewrite Hs.
Qed.

Ltac decide_roles :=
  repeat match goal with
         | |- context [String.eqb ?a ?b] =>
             let r := eval vm_compute in (String.eqb a b) in
             change (String.eqb a b) with r
         end;
  cbv iota.

Lemma tool_fields c kw id status artifact tm j :
  let md := default [] (PMM.extractMetadata (ToolMessage c kw id status artifact tm) j) in
  obj_get "toolCallId" md = Some (JStr id) /\
  obj_get "toolStatus" md
  = match status with
    | Some s => if truthy (Some (JStr s)) then Some (JStr s) else None
    | None => None
    end /\
  obj_get "artifact" md = artifact /\
  obj_get "toolMetadata" md
  = match tm with
    | Some t => if truthy (Some t) && (0 <? Object_keys_length t)%nat then Some t else None
    | None => None
    end.
Proof.
  cbv zeta. unfold PMM.extractMetadata. rewrite nonempty_default.
  cbn [PMM.extractAIMetadata PMM.extractToolMetadata msg_additional_kwargs].
  destruct tm as [t|]; [destruct (truthy (Some t) && _)|];
    destruct artifact; destruct status as [s|]; try destruct (truthy (Some (JStr s)));
    destruct (truthy (Some kw) && _); destruct j;
    repeat split; get_set; reflexivity.
Qed.

Lemma ai_fields c kw tc itc um j :
  let md := default [] (PMM.extractMetadata (AIMessage c kw tc itc um) j) in
  obj_get "toolCalls" md = (if (0 <? length tc)%nat then Some (JArr tc) else None) /\
  obj_get "invalidToolCalls" md = (if (0 <? length itc)%nat then Some (JArr itc) else None) /\
  obj_get "usageMetadata" md = (if truthy um then um else None).
Proof.
  cbv zeta. unfold PMM.extractMetadata. rewrite nonempty_default.
  cbn [PMM.extractAIMetadata PMM.extractToolMetadata msg_additional_kwargs].
  destruct (truthy um) eqn:Hum; [destruct um as [u|]; [|discriminate]|];
    destruct (0 <? length itc)%nat; destruct (0 <? length tc)%nat;
    destruct (truthy (Some kw) && _); destruct j;
    repeat split; get_set; reflexivity.
Qed.

(** What [deserializeMessage] builds from the row of a message. *)
Lemma deserialize_row_of env m seq now :
  (forall x, env_fails env (OpConstruct x) = false) ->
  content_survives m -> constructible m ->
  PMM.deserializeMessage env (row_of m seq now) = Ok (restored_message m).
Proof.
  intros Henv Hc Hb. unfold PMM.deserializeMessage.
  rewrite (restoreContent_row_of m seq now Hc).
  unfold PMM.construct_from_content, PMM.construct. cbn [role row_of metadata].
  destruct m as [c kw|c kw|c kw tc itc um|c kw id status artifact tm|c kw|c kw];
    cbn [_getMessageType]; unfold MessageType.SYSTEM, MessageType.HUMAN, MessageType.AI,
      MessageType.TOOL, MessageType.BROWSER_STATE, MessageType.TODO_LIST; decide_roles.
  - destruct Hb as [s ->]. cbn [msg_content]. by rewrite Henv.
  - destruct Hb as [s ->]. cbn [msg_content]. by rewrite Henv.
  - rewrite Henv. rewrite metadata_additional_kwargs.
    pose proof (ai_fields c kw tc itc um
                  (PMM.isJson (PMM.normalizeContent (AIMessage c kw tc itc um))))
      as (H1 & H2 & H3).
    cbv zeta in *. rewrite H1, H2, H3. cbn [msg_additional_kwargs msg_content].
    unfold restored_message. fold (restored_kwargs kw).
    assert (Hcalls : PMM.ai_tool_calls (restored_kwargs kw)
                       (Array_isArray (if (0 <? length tc)%nat then Some (JArr tc) else None))
                       (Array_isArray (if (0 <? length itc)%nat then Some (JArr itc) else None))
                     = (tc, itc)).
    { unfold PMM.ai_tool_calls. cbn [constructible] in Hb.
      destruct tc as [|t tc].
      - destruct Hb as [Hb|Hb]; [done|]. rewrite Hb. cbn.
        by destruct itc.
      - cbn. by destruct itc. }
    rewrite Hcalls. cbn [fst snd]. do 2 f_equal.
    by destruct (truthy um).
  - rewrite Henv. rewrite metadata_additional_kwargs.
    pose proof (tool_fields c kw id status artifact tm
                  (PMM.isJson (PMM.normalizeContent (ToolMessage c kw id status artifact tm))))
      as (H1 & H2 & H3 & H4).
    cbv zeta in *. rewrite H1, H2, H3, H4. cbn [msg_additional_kwargs msg_content].
    unfold restored_message, restored_kwargs. do 2 f_equal.
    + destruct status as [s|]; [|reflexivity]. by destruct (truthy (Some (JStr s))).
    + destruct tm as [t|]; [|reflexivity].
      by destruct (truthy (Some t) && (0 <? Object_keys_length t)%nat).
  - rewrite (content_text_row_of _ Hc). by rewrite Henv.
  - rewrite (content_text_row_of _ Hc). by rewrite Henv.
Qed.

Lemma restorable_restored m : restorable m -> restored_message m = m.
Proof.
  destruct m as [c kw|c kw|c kw tc itc um|c kw id status artifact tm|c kw|c kw];
    unfold restorable, restored_message, restored_kwargs.
  - by intros [-> _].
  - by intros [-> _].
  - intros ([o ->] & _ & Hum). f_equal.
    + by destruct o.
    + destruct um as [u|]; [|reflexivity]. by destruct Hum as [o' ->].
  - intros ([o ->] & Hst & Htm). f_equal.
    + by destruct o.
    + destruct status as [s|]; [|reflexivity]. by destruct s.
    + destruct tm as [t|]; [|reflexivity]. by destruct Htm as (k & v & o' & ->).
  - intros [-> [s ->]]. reflexivity.
  - intros [-> [s ->]]. reflexivity.
Qed.

Lemma restorable_constructible m : restorable m -> constructible m.
Proof.
  destruct m as [c kw|c kw|c kw tc itc um|c kw id status artifact tm|c kw|c kw];
    unfold restorable, constructible; try done.
  - by intros [_ H].
  - by intros [_ H].
  - intros ([o ->] & [H|H] & _); [by left|right].
    unfold restored_kwargs. destruct o as [|kv o]; [reflexivity|]. exact H.
Qed.


End RoundTrip.

Section Reopen.
Context {RT : JSRuntime} {P : Type} {Base : MessageManager P}.

(** A connected adapter answers that it is available and is left as it
    was. *)
Lemma probed_connected env w a :
  connected a ->
  probed env (w, a) = (true, (add_call CallIsAvailable (add_call CallInitialize w), a)).
Proof.
  intros Hc. unfold probed. destruct a as [o|m].
  - simpl in Hc. destruct (SQL.database o) as [db|] eqn:Hdb; [|done].
    unfold Adapter.initialize, Adapter.isAvailable, Adapter.dispatch. cbn [fst snd].
    rewrite initialize_eq. cbn [fst snd]. rewrite isAvailable_eq.
    rewrite (ensured_open env o db Hdb). unfold ensured_world. rewrite Hdb.
    cbn [fst snd]. rewrite (ensured_open env o db Hdb). rewrite Hdb.
    rewrite bool_decide_eq_true_2 by eauto. reflexivity.
  - reflexivity.
Qed.

(** After a write that it took, the adapter is connected. *)
Lemma accepted_connected env cid rows w a :
  accepts env a rows ->
  connected (snd (snd (Adapter.replaceConversation env cid rows (w, a)))).
Proof.
  destruct a as [o|m]; [|done]. intros (Hcons & Hdb & _).
  unfold Adapter.replaceConversation, Adapter.dispatch. cbn [fst snd].
  rewrite replaceConversation_eq. exact Hdb.
Qed.

Lemma rows_of_createdAt env messages : forall reads index,
  Forall (fun r => createdAt r <> None) (rows_of env reads index messages).
Proof.
  induction messages as [|m ms IH]; intros reads index; simpl; constructor; [done|apply IH].
Qed.

Lemma stored_form_all a cid now rows :
  Forall (fun r => createdAt r <> None) rows -> Forall (row_survives a) rows ->
  map (stored_form a cid now) rows = rows.
Proof.
  induction rows as [|r rows IH]; intros Ht Hs; [reflexivity|]. simpl.
  apply Forall_cons in Hs as [Hr Hs]. apply Forall_cons in Ht as [Htr Ht].
  rewrite stored_form_survives by assumption. f_equal. by apply IH.
Qed.

Lemma rows_of_deserialize env env2 messages : forall reads index,
  (forall x, env_fails env2 (OpConstruct x) = false) ->
  Forall content_survives messages ->
  Forall constructible messages ->
  Forall2 (fun r m => PMM.deserializeMessage env2 r = Ok m)
    (rows_of env reads index messages) (map restored_message messages).
Proof.
  induction messages as [|m ms IH]; intros reads index Henv Hc Hb; simpl; constructor.
  - apply deserialize_row_of; [exact Henv| |].
    + by apply Forall_inv in Hc.
    + by apply Forall_inv in Hb.
  - apply IH; [exact Henv| |].
    + by apply Forall_inv_tail in Hc.
    + by apply Forall_inv_tail in Hb.
Qed.

(** A fresh manager on the adapter of a manager that has just persisted
    its list: its pipeline is the replay, through the base [add], of the
    messages restored from the rows of that list. *)
Lemma reopen_persisted env env2 w (p : P) a cid maxTokens dbPath :
  let self := {| PMM.super := p; PMM.memory := a; PMM.conversationId := cid;
                 PMM.restoring := false |} in
  let messages := super_getMessages p in
  let rows := rows_of env (clock_reads w) 0 messages in
  accepts env a rows -> reads env2 a -> Forall (row_survives a) rows ->
  (forall x, env_fails env2 (OpConstruct x) = false) ->
  Forall content_survives messages ->
  Forall constructible messages ->
  let s1 := persisted env (w, self) in
  exists (self2 : @PMM.t P) w2,
    PMM.new env2
      {| PMM.opt_maxTokens := maxTokens; PMM.opt_conversationId := Some cid;
         PMM.opt_dbPath := dbPath; PMM.opt_memory := Some (PMM.memory (snd s1)) |}
      (fst s1)
    = (Ok self2, w2) /\
    PMM.super self2
    = foldl (fun q x => super_add x None q) (super_new maxTokens)
        (map restored_message messages).
Proof.
  intros self messages rows Hacc Hread Hsurv Henv Hcont Hbuilt s1.
  rewrite new_eq. eexists _, _. split; [reflexivity|].
  unfold constructed, chosen_memory. cbn [PMM.opt_memory PMM.opt_maxTokens
    PMM.opt_conversationId].
  pose proof (persisted_stored env env2 w self Hacc Hread) as Hstored.
  cbv zeta in Hstored. fold messages rows s1 in Hstored.
  assert (Hconn : connected (PMM.memory (snd s1))).
  { subst s1. unfold persisted. cbn [PMM.memory PMM.conversationId PMM.super self].
    fold messages rows.
    pose proof (accepted_connected env cid rows
                  (add_call (CallReplaceConversation cid rows) (tick (length messages) w))
                  a Hacc) as Hc.
    destruct (Adapter.replaceConversation env cid rows _) as [r0 [w' a']]. exact Hc. }
  rewrite (probed_connected env2 _ _ Hconn). cbn [default].
  unfold restored. cbn [PMM.conversationId PMM.memory PMM.super]. unfold id.
  match goal with |- context [Adapter.getMessages env2 cid (?w0, ?a0)] =>
    pose proof (adapter_getMessages_disk env2 cid w0 (fst s1) a0 eq_refl) as Hsame;
    destruct (Adapter.getMessages env2 cid (w0, a0)) as [r [w' a']] end.
  cbn [fst] in Hsame. cbn [PMM.conversationId self] in Hstored.
  rewrite Hstored in Hsame. subst r.
  assert (Hrows : map (stored_form a cid (env_clock env (length messages + clock_reads w)))
                    rows = rows).
  { apply stored_form_all; [apply rows_of_createdAt|exact Hsurv]. }
  unfold self. cbn [PMM.memory PMM.conversationId PMM.super].
  fold messages. fold rows. rewrite Hrows.
  rewrite (replay_all env2 rows (map restored_message messages));
    [reflexivity|].
  apply rows_of_deserialize; assumption.
Qed.

End Reopen.

Section ContentClaims.
Context {RT : JSRuntime} {P : Type} {Base : MessageManager P}.

(** A fresh manager on the adapter of a manager that has just added a
    message restores every message of the list. *)
Lemma reopen_after_add env env2 w (p : P) a cid m pos maxTokens dbPath :
  let live := {| PMM.super := p; PMM.memory := a; PMM.conversationId := cid;
                 PMM.restoring := false |} in
  let messages := super_getMessages (super_add m pos p) in
  let rows := rows_of env (clock_reads w) 0 messages in
  accepts env a rows -> reads env2 a -> Forall (row_survives a) rows ->
  (forall x, env_fails env2 (OpConstruct x) = false) ->
  Forall content_survives messages ->
  Forall constructible messages ->
  let s1 := snd (PMM.add env m pos (w, live)) in
  exists (self2 : @PMM.t P) w2,
    PMM.new env2
      {| PMM.opt_maxTokens := maxTokens; PMM.opt_conversationId := Some cid;
         PMM.opt_dbPath := dbPath; PMM.opt_memory := Some (PMM.memory (snd s1)) |}
      (fst s1)
    = (Ok self2, w2) /\
    PMM.super self2
    = foldl (fun q x => super_add x None q) (super_new maxTokens)
        (map restored_message messages).
Proof.
  intros live messages rows Hacc Hread Hsurv Henv Hcont Hbuilt s1.
  subst s1 live. rewrite add_eq. cbn [snd PMM.restoring].
  apply (reopen_persisted env env2 w (super_add m pos p) a cid maxTokens dbPath);
    assumption.
Qed.

(** The round trip of the messages that [deserializeMessage] restores in
    full: the fresh manager replays the very list. *)
Lemma round_trip_restorable env env2 w (p : P) a cid m pos maxTokens dbPath :
  let live := {| PMM.super := p; PMM.memory := a; PMM.conversationId := cid;
                 PMM.restoring := false |} in
  let messages := super_getMessages (super_add m pos p) in
  let rows := rows_of env (clock_reads w) 0 messages in
  accepts env a rows -> reads env2 a -> Forall (row_survives a) rows ->
  (forall x, env_fails env2 (OpConstruct x) = false) ->
  Forall content_survives messages ->
  Forall restorable messages ->
  let s1 := snd (PMM.add env m pos (w, live)) in
  exists (self2 : @PMM.t P) w2,
    PMM.new env2
      {| PMM.opt_maxTokens := maxTokens; PMM.opt_conversationId := Some cid;
         PMM.opt_dbPath := dbPath; PMM.opt_memory := Some (PMM.memory (snd s1)) |}
      (fst s1)
    = (Ok self2, w2) /\
    PMM.super self2
    = foldl (fun q x => super_add x None q) (super_new maxTokens) messages.
Proof.
  intros live messages rows Hacc Hread Hsurv Henv Hcont Hrest s1.
  assert (Hbuilt : Forall constructible messages).
  { eapply Forall_impl; [exact Hrest|]. apply restorable_constructible. }
  destruct (reopen_after_add env env2 w p a cid m pos maxTokens dbPath
              Hacc Hread Hsurv Henv Hcont Hbuilt) as (self2 & w2 & Hnew & Hsuper).
  exists self2, w2. split; [exact Hnew|]. rewrite Hsuper. f_equal.
  fold messages. clear -Hrest. induction Hrest as [|x l Hx _ IH]; [reflexivity|].
  simpl. by rewrite (restorable_restored x Hx), IH.
Qed.

(** The annotations of a human or system message are in its row and not in
    the message restored from the row. *)
Lemma annotations_not_restored env text o k v seq now :
  (forall x, env_fails env (OpConstruct x) = false) ->
  obj_get "additional_kwargs"
    (default [] (metadata (row_of (HumanMessage (JStr text) (JObj ((k, v) :: o))) seq now)))
  = Some (JObj ((k, v) :: o)) /\
  PMM.deserializeMessage env (row_of (HumanMessage (JStr text) (JObj ((k, v) :: o))) seq now)
  = Ok (HumanMessage (JStr text) (JObj [])).
Proof.
  intros Henv. split.
  - unfold row_of. cbn [metadata]. by rewrite metadata_additional_kwargs.
  - rewrite deserialize_row_of; [reflexivity|exact Henv|exact I|by eexists].
Qed.

End ContentClaims.

(* ===================================================================== *)
(** ** The program on examples *)
(* ===================================================================== *)

(** C2, a write that fails: on a durable adapter two adds go through and
    a third comes while no transaction can begin.  The manager is outside
    restoring mode, its list has three messages, and the adapter returns
    two rows for the conversation, those of the first two messages, with
    sequences 0 and 1: the stored rows are not those of the current list. *)
Lemma C2_counterexample :
  let s2 := add_all calm_env [system_prompt; hello_world]
              (empty_world, empty_manager new_sqlite "persist-case") in
  let s3 := snd (@PMM.add RefRuntime.runtime ListPipeline untrimmed begin_fails
                   hi_there None s2) in
  PMM.restoring (snd s2) = false /\
  PMM.restoring (snd s3) = false /\
  @PMM.getMessages ListPipeline untrimmed (snd s3)
  = [system_prompt; hello_world; hi_there] /\
  exists stored,
    fst (@Adapter.getMessages RefRuntime.runtime calm_env "persist-case"
           (fst s3, PMM.memory (snd s3))) = Ok stored /\
    map sequence stored = [0%Z; 1%Z] /\
    map role stored = ["system"; "human"] /\
    length stored <> length (@PMM.getMessages ListPipeline untrimmed (snd s3)).
Proof.
  split; [vm_compute; reflexivity|]. split; [vm_compute; reflexivity|].
  split; [vm_compute; reflexivity|].
  eexists. split; [vm_compute; reflexivity|].
  split; [reflexivity|]. split; [reflexivity|]. vm_compute. discriminate.
Qed.


(** C1, at the failing input: a human message with an additional
    annotation is stored with the annotation and restored without it, on
    either adapter. *)
Theorem C1_annotations_dropped :
  add_then_reopen (InMemoryAdapter Mem.new) "persist-case" [spoken_hello]
  = Some ([spoken_hello], [HumanMessage (JStr "Hello world") (JObj [])]) /\
  add_then_reopen new_sqlite "persist-case" [spoken_hello]
  = Some ([spoken_hello], [HumanMessage (JStr "Hello world") (JObj [])]) /\
  (exists w first,
     @PMM.new RefRuntime.runtime _ untrimmed calm_env
       {| PMM.opt_maxTokens := None; PMM.opt_conversationId := Some "persist-case";
          PMM.opt_dbPath := None; PMM.opt_memory := Some new_sqlite |} empty_world
     = (Ok first, w) /\
     fst (@Adapter.getMessages RefRuntime.runtime calm_env "persist-case"
            (let s := add_all calm_env [spoken_hello] (w, first) in
             (fst s, PMM.memory (snd s))))
     = Ok [{| role := "human"; content := "Hello world"; sequence := 0;
              createdAt := Some 1700000000000%Z;
              metadata := Some [("additional_kwargs", JObj [("source", JStr "voice")])] |}]).
Proof.
  split; [vm_compute; reflexivity|]. split; [vm_compute; reflexivity|].
  eexists _, _. split; [vm_compute; reflexivity|]. vm_compute. reflexivity.
Qed.

(* ===================================================================== *)
(** ** The copies of the transient adapter *)
(* ===================================================================== *)

Module HeapFacts.
Import ObjectHeap.

Lemma prop_get_set_same k v o : prop_get k (prop_set k v o) = v.
Proof.
  induction o as [|[k' v'] o IH]; simpl.
  - by rewrite String.eqb_refl.
  - destruct (String.eqb k k') eqn:E; simpl; [by rewrite String.eqb_refl|].
    by rewrite E.
Qed.

Lemma length_set_field l k v h : length (set_field l k v h) = length h.
Proof. unfold set_field. destruct (h !! l); [apply length_insert|reflexivity]. Qed.

Lemma lookup_set_field_ne l l' k v (h : Heap) :
  l <> l' -> set_field l k v h !! l' = h !! l'.
Proof.
  intros Hne. unfold set_field. destruct (h !! l); [|reflexivity].
  by apply list_lookup_insert_ne.
Qed.

Lemma metadata_of_app (h new : Heap) r :
  r < length h -> metadata_of (h ++ new) r = metadata_of h r.
Proof.
  intros Hr. unfold metadata_of, get_field. by rewrite lookup_app_l.
Qed.

Lemma fresh_row_weaken h h1 new r :
  length h <= length h1 -> fresh_row h1 (h1 ++ new) r -> fresh_row h (h1 ++ new) r.
Proof.
  intros Hle [Hr Hmd]. split; [lia|].
  destruct Hmd as [Hmd|(l & Hmd & Hl)]; [by left|]. right. exists l. split; [done|lia].
Qed.

Lemma fresh_row_app h h1 new r :
  fresh_row h h1 r -> fresh_row h (h1 ++ new) r.
Proof.
  intros [Hr Hmd]. split; [rewrite length_app; lia|].
  rewrite metadata_of_app by lia.
  destruct Hmd as [Hmd|(l & Hmd & Hl)]; [by left|]. right. exists l.
  split; [done|]. rewrite length_app. lia.
Qed.

Lemma copy_message_fresh message h :
  exists new,
    snd (copy_message message h) = h ++ new /\
    fresh_row h (h ++ new) (fst (copy_message message h)).
Proof.
  unfold copy_message, alloc.
  destruct (truthy (get_field h (VRef message) "metadata")).
  - cbn [fst snd]. eexists. split; [by rewrite <- app_assoc|].
    split; [rewrite !length_app; simpl; lia|].
    right. exists (length h). split; [|rewrite !length_app; simpl; lia].
    unfold metadata_of, get_field. rewrite length_app. simpl length.
    rewrite lookup_app_r by lia.
    replace (length h + 1 - length h) with 1 by lia. simpl.
    apply prop_get_set_same.
  - cbn [fst snd]. eexists. split; [reflexivity|].
    split; [rewrite length_app; simpl; lia|].
    left. unfold metadata_of, get_field.
    rewrite lookup_app_r by lia. rewrite Nat.sub_diag. simpl.
    apply prop_get_set_same.
Qed.

Lemma copy_messages_fresh messages : forall h,
  exists new,
    snd (copy_messages messages h) = h ++ new /\
    Forall (fresh_row h (h ++ new)) (fst (copy_messages messages h)).
Proof.
  induction messages as [|m ms IH]; intros h; simpl.
  - exists []. rewrite app_nil_r. split; [reflexivity|constructor].
  - destruct (copy_message_fresh m h) as (new1 & Hh1 & Hr1).
    destruct (copy_message m h) as [row h1]. cbn [fst snd] in *. subst h1.
    destruct (IH (h ++ new1)) as (new2 & Hh2 & Hrs).
    destruct (copy_messages ms (h ++ new1)) as [rows h2]. cbn [fst snd] in *. subst h2.
    exists (new1 ++ new2). rewrite app_assoc. split; [reflexivity|].
    constructor.
    + by apply fresh_row_app.
    + eapply Forall_impl; [exact Hrs|]. intros r Hr.
      apply fresh_row_weaken; [rewrite length_app; lia|exact Hr].
Qed.

Lemma agree_app n S h1 h2 new :
  agree n S h1 h2 -> agree n S (h1 ++ new) (h2 ++ new).
Proof.
  intros (Hlen & HS & Hn).
  assert (Hboth : forall x, h1 !! x = h2 !! x -> (h1 ++ new) !! x = (h2 ++ new) !! x).
  { intros x Hx. destruct (decide (x < length h1)) as [Hlt|Hge].
    - rewrite !lookup_app_l by lia. exact Hx.
    - rewrite !lookup_app_r by lia. by rewrite Hlen. }
  split; [rewrite !length_app; lia|]. split; intros x Hx; apply Hboth; auto.
Qed.

Lemma copy_message_agree n S h1 h2 m :
  agree n S h1 h2 -> S m ->
  (forall l, metadata_of h1 m = VRef l -> S l) ->
  exists new,
    copy_message m h1 = (fst (copy_message m h1), h1 ++ new) /\
    copy_message m h2 = (fst (copy_message m h1), h2 ++ new).
Proof.
  intros (Hlen & HS & Hn) Hm Hmd.
  assert (Hobj : h2 !! m = h1 !! m) by (symmetry; by apply HS).
  assert (Hspread : forall v, (forall l, v = VRef l -> S l) -> spread h2 v = spread h1 v).
  { intros [| | | | |l] Hv; try reflexivity. unfold spread.
    by rewrite (HS l (Hv l eq_refl)). }
  assert (Hfield : get_field h2 (VRef m) "metadata" = get_field h1 (VRef m) "metadata").
  { unfold get_field. by rewrite Hobj. }
  unfold copy_message, alloc. rewrite Hfield, <- Hlen.
  rewrite (Hspread (VRef m)) by (intros l [= <-]; exact Hm).
  rewrite (Hspread (get_field h1 (VRef m) "metadata")) by exact Hmd.
  destruct (truthy (get_field h1 (VRef m) "metadata")).
  - rewrite !length_app. simpl. rewrite <- Hlen.
    eexists. split; by rewrite <- app_assoc.
  - eexists. split; reflexivity.
Qed.

Lemma copy_messages_agree n S messages : forall h1 h2,
  agree n S h1 h2 ->
  Forall (fun m => m < length h1 /\ S m /\
                   forall l, metadata_of h1 m = VRef l -> S l) messages ->
  fst (copy_messages messages h1) = fst (copy_messages messages h2) /\
  agree n S (snd (copy_messages messages h1)) (snd (copy_messages messages h2)).
Proof.
  induction messages as [|m ms IH]; intros h1 h2 Hag Hms; simpl; [done|].
  apply Forall_cons in Hms as [(Hlt & Hm & Hmd) Hms].
  destruct (copy_message_agree n S h1 h2 m Hag Hm Hmd) as (new & H1 & H2).
  rewrite H1, H2.
  specialize (IH (h1 ++ new) (h2 ++ new) (agree_app _ _ _ _ new Hag)).
  destruct IH as [Hrows Hag'].
  { eapply Forall_impl; [exact Hms|]. intros m' (Hlt' & Hm' & Hmd').
    split; [rewrite length_app; lia|]. split; [exact Hm'|].
    intros l. rewrite metadata_of_app by exact Hlt'. apply Hmd'. }
  destruct (copy_messages ms (h1 ++ new)) as [rows1 h1'].
  destruct (copy_messages ms (h2 ++ new)) as [rows2 h2'].
  simpl in *. by rewrite Hrows.
Qed.

(** Appending to the heap keeps what the adapter keeps. *)
Lemma kept_app h new st l :
  well_formed (h, st) -> kept (h ++ new, st) l <-> kept (h, st) l.
Proof.
  intros Hwf. unfold kept. simpl.
  split; intros (cid & rows & row & Hst & Hrow & Hl); exists cid, rows, row;
    (split; [exact Hst|]; split; [exact Hrow|]).
  - destruct Hl as [->|Hmd]; [by left|]. right.
    rewrite metadata_of_app in Hmd; [exact Hmd|].
    apply Hwf. exists cid, rows, row. auto.
  - destruct Hl as [->|Hmd]; [by left|]. right.
    rewrite metadata_of_app; [exact Hmd|].
    apply Hwf. exists cid, rows, row. auto.
Qed.

Lemma well_formed_app h new st : well_formed (h, st) -> well_formed (h ++ new, st).
Proof.
  intros Hwf l Hl. apply kept_app in Hl; [|exact Hwf].
  apply Hwf in Hl. simpl in *. rewrite length_app. lia.
Qed.

(** The rows [getMessages] returns are new objects, and so are their
    metadata maps; what the adapter keeps is as before. *)
Lemma getMessages_fresh cid s :
  well_formed s ->
  let '(rows, s1) := getMessages cid s in
  well_formed s1 /\
  (forall x, kept s1 x <-> kept s x) /\
  Forall (fresh_row (fst s) (fst s1)) rows.
Proof.
  intros Hwf. destruct s as [h st]. unfold getMessages. cbn [fst snd].
  destruct (store st !! cid) as [messages|] eqn:Hst; [|by repeat split].
  destruct (copy_messages_fresh messages h) as (new & Hh & Hrows).
  destruct (copy_messages messages h) as [rows h1]. cbn [fst snd] in *. subst h1.
  split; [by apply well_formed_app|]. split; [intros x; by apply kept_app|exact Hrows].
Qed.

Lemma fresh_row_not_kept s s1 r :
  well_formed s -> (forall x, kept s1 x <-> kept s x) ->
  fresh_row (fst s) (fst s1) r ->
  ~ kept s1 r /\ forall l, metadata_of (fst s1) r = VRef l -> ~ kept s1 l.
Proof.
  intros Hwf Hkept [Hr Hmd]. split.
  - intros Hk. apply Hkept, Hwf in Hk. lia.
  - intros l Hl Hk. apply Hkept, Hwf in Hk.
    destruct Hmd as [Hmd|(l' & Hmd & Hl')]; [congruence|].
    rewrite Hl in Hmd. injection Hmd as <-. lia.
Qed.

(** [replaceConversation] keeps new objects only. *)
Lemma replaceConversation_fresh cid messages s :
  well_formed s ->
  let s1 := replaceConversation cid messages s in
  well_formed s1 /\
  forall l, l < length (fst s) -> ~ kept s l -> ~ kept s1 l.
Proof.
  intros Hwf. destruct s as [h st]. unfold replaceConversation. cbn [fst snd].
  destruct (copy_messages_fresh messages h) as (new & Hh & Hrows).
  destruct (copy_messages messages h) as [rows h1]. cbn [fst snd] in *. subst h1.
  assert (Hcases : forall l, kept (h ++ new, {| store := <[cid := rows]> (store st) |}) l ->
            kept (h, st) l \/ length h <= l < length (h ++ new)).
  { intros l (cid' & rows' & row & Hst & Hrow & Hl). simpl in *.
    destruct (decide (cid = cid')) as [<-|Hne].
    - rewrite lookup_insert_eq in Hst. injection Hst as <-. right.
      rewrite Forall_forall in Hrows. destruct (Hrows row Hrow) as [Hr Hmd].
      destruct Hl as [->|Hl]; [exact Hr|].
      destruct Hmd as [Hmd|(l' & Hmd & Hl')]; [congruence|].
      rewrite Hl in Hmd. by injection Hmd as <-.
    - rewrite lookup_insert_ne in Hst by exact Hne. left.
      assert (Hk : kept (h, st) row) by (exists cid', rows', row; auto).
      exists cid', rows', row. split; [exact Hst|]. split; [exact Hrow|].
      destruct Hl as [->|Hl]; [by left|]. right.
      rewrite metadata_of_app in Hl; [exact Hl|]. by apply Hwf in Hk. }
  split.
  - intros l Hl. destruct (Hcases l Hl) as [Hk|Hk]; [|simpl; lia].
    apply Hwf in Hk. simpl in *. rewrite length_app. lia.
  - intros l Hlt Hnk Hk. destruct (Hcases l Hk) as [Hk'|Hk']; [done|lia].
Qed.

(** A write to an object the adapter does not keep changes neither what
    it keeps nor what it returns, read to two levels. *)
Lemma write_outside l k v s :
  well_formed s -> ~ kept s l ->
  let s' := (set_field l k v (fst s), snd s) in
  well_formed s' /\
  (forall x, kept s' x <-> kept s x) /\
  (forall x, kept s x -> fst s' !! x = fst s !! x) /\
  forall cid, read_two_levels cid s' = read_two_levels cid s.
Proof.
  intros Hwf Hnk. destruct s as [h st]. cbn [fst snd].
  assert (Hsame : forall x, kept (h, st) x -> set_field l k v h !! x = h !! x).
  { intros x Hx. apply lookup_set_field_ne. intros ->. done. }
  assert (Hmd : forall row, kept (h, st) row ->
            metadata_of (set_field l k v h) row = metadata_of h row).
  { intros row Hrow. unfold metadata_of, get_field. by rewrite Hsame. }
  assert (Hkept : forall x, kept (set_field l k v h, st) x <-> kept (h, st) x).
  { intros x. unfold kept. cbn [fst snd].
    split; intros (cid & rows & row & Hst & Hrow & Hl); exists cid, rows, row;
      (split; [exact Hst|]; split; [exact Hrow|]);
      (destruct Hl as [->|Hl]; [by left|right]).
    - rewrite <- Hmd; [exact Hl|]. exists cid, rows, row. auto.
    - rewrite Hmd; [exact Hl|]. exists cid, rows, row. auto. }
  split; [|split; [exact Hkept|split; [exact Hsame|]]].
  - intros x Hx. apply Hkept, Hwf in Hx. simpl in *. by rewrite length_set_field.
  - intros cid. unfold read_two_levels, getMessages. cbn [fst snd].
    destruct (store st !! cid) as [messages|] eqn:Hst; [|reflexivity].
    assert (Hag : agree (length h) (fun x => kept (h, st) x) (set_field l k v h) h).
    { split; [apply length_set_field|]. split; [exact Hsame|].
      intros x Hx. rewrite !lookup_ge_None_2; [reflexivity|lia|].
      rewrite length_set_field. lia. }
    assert (Hms : Forall (fun m => m < length (set_field l k v h) /\ kept (h, st) m /\
                    forall l', metadata_of (set_field l k v h) m = VRef l' ->
                               kept (h, st) l') messages).
    { apply Forall_forall. intros m Hm.
      assert (Hk : kept (h, st) m) by (exists cid, messages, m; auto).
      split; [rewrite length_set_field; by apply Hwf in Hk|]. split; [exact Hk|].
      intros l' Hl'. rewrite Hmd in Hl' by exact Hk.
      exists cid, messages, m. auto. }
    destruct (copy_messages_agree _ _ messages _ _ Hag Hms) as [Hrows (Hlen & _ & Hnew)].
    destruct (copy_messages_fresh messages h) as (new & Hh & Hfresh).
    destruct (copy_messages messages (set_field l k v h)) as [rows1 h1].
    destruct (copy_messages messages h) as [rows2 h2].
    cbn [fst snd] in *. subst rows2 h2.
    apply map_ext_in. intros r Hr. apply list_elem_of_In in Hr.
    rewrite Forall_forall in Hfresh. destruct (Hfresh r Hr) as [[Hge _] Hmdr].
    assert (Hr1 : h1 !! r = (h ++ new) !! r) by (apply Hnew; lia).
    assert (Hmr : metadata_of h1 r = metadata_of (h ++ new) r).
    { unfold metadata_of, get_field. by rewrite Hr1. }
    rewrite Hr1, Hmr. f_equal.
    destruct Hmdr as [->|(l' & -> & Hl')]; [reflexivity|]. apply Hnew. lia.
Qed.

End HeapFacts.

(** C8, as amended: the transient adapter copies the row objects and their
    metadata maps, one level each.  In a state where the stored rows and
    their metadata maps are objects of the heap: the rows [getMessages]
    returns and their metadata maps are new objects, none of them kept by
    the adapter; [replaceConversation] keeps new objects only, so the rows
    passed to it and their metadata maps stay the caller's; and a write to
    a property of an object that the adapter does not keep leaves every
    object it keeps as it was, and with them every later result of
    [getMessages] read to two levels, the row object and its metadata map.
    The values inside the metadata map are shared with the caller. *)
Theorem C8_copies_to_two_levels (s : list ObjectHeap.Object * ObjectHeap.t) cid :
  ObjectHeap.well_formed s ->
  (let '(rows, s1) := ObjectHeap.getMessages cid s in
   ObjectHeap.well_formed s1 /\
   Forall (fun r =>
             ~ ObjectHeap.kept s1 r /\
             forall l, ObjectHeap.metadata_of (fst s1) r = ObjectHeap.VRef l ->
                       ~ ObjectHeap.kept s1 l) rows) /\
  (forall messages,
     let s1 := ObjectHeap.replaceConversation cid messages s in
     ObjectHeap.well_formed s1 /\
     forall l, l < length (fst s) -> ~ ObjectHeap.kept s l -> ~ ObjectHeap.kept s1 l) /\
  (forall l k v,
     ~ ObjectHeap.kept s l ->
     let s' := (ObjectHeap.set_field l k v (fst s), snd s) in
     ObjectHeap.well_formed s' /\
     (forall x, ObjectHeap.kept s' x <-> ObjectHeap.kept s x) /\
     (forall x, ObjectHeap.kept s x -> fst s' !! x = fst s !! x) /\
     forall cid', ObjectHeap.read_two_levels cid' s' = ObjectHeap.read_two_levels cid' s).
Proof.
  intros Hwf. split; [|split].
  - pose proof (HeapFacts.getMessages_fresh cid s Hwf) as H.
    destruct (ObjectHeap.getMessages cid s) as [rows s1].
    destruct H as (Hwf1 & Hkept & Hrows). split; [exact Hwf1|].
    eapply Forall_impl; [exact Hrows|]. intros r Hr.
    by apply (HeapFacts.fresh_row_not_kept s s1 r).
  - intros messages. by apply HeapFacts.replaceConversation_fresh.
  - intros l k v Hnk. by apply HeapFacts.write_outside.
Qed.

(* ===================================================================== *)
(** ** The claims on examples *)
(* ===================================================================== *)

(** The artifact of a stored tool row is the caller's object: a write to
    it through a returned row changes what [getMessages] returns next. *)
Lemma C8_counterexample :
  let s1 := ObjectHeap.replaceConversation "c" [2]
              (tool_row_heap, {| ObjectHeap.store := ∅ |}) in
  exists r s2,
    ObjectHeap.getMessages "c" s1 = ([r], s2) /\
    ObjectHeap.get_field (fst s2) (ObjectHeap.metadata_of (fst s2) r) "artifact"
    = ObjectHeap.VRef 0 /\
    ObjectHeap.read_messages 3 "c"
      (ObjectHeap.set_field 0 "n" (ObjectHeap.VNum 2) (fst s2), snd s2)
    <> ObjectHeap.read_messages 3 "c" s2.
Proof.
  eexists _, _. split; [vm_compute; reflexivity|].
  split; [vm_compute; reflexivity|]. vm_compute. discriminate.
Qed.

Lemma C8_witness :
  ObjectHeap.well_formed (tool_row_heap, {| ObjectHeap.store := ∅ |}) /\
  ObjectHeap.well_formed
    (ObjectHeap.replaceConversation "c" [2] (tool_row_heap, {| ObjectHeap.store := ∅ |})).
Proof.
  assert (Hwf : ObjectHeap.well_formed (tool_row_heap, {| ObjectHeap.store := ∅ |})).
  { intros l (cid & rows & row & Hst & _). simpl in Hst.
    rewrite lookup_empty in Hst. discriminate. }
  split; [exact Hwf|].
  destruct (C8_copies_to_two_levels _ "c" Hwf) as (_ & Hreplace & _).
  exact (proj1 (Hreplace [2])).
Defined.

Lemma C10_witness :
  lp_messages (PMM.super (empty_manager (InMemoryAdapter Mem.new) "c")) = [] /\
  @PMM.removeLast RefRuntime.runtime ListPipeline untrimmed calm_env
    (empty_world, empty_manager (InMemoryAdapter Mem.new) "c")
  = (Ok false, (empty_world, empty_manager (InMemoryAdapter Mem.new) "c")).
Proof.
  split; [reflexivity|].
  apply (proj2 (@C10_removeLast_empty RefRuntime.runtime) (fun _ l => l) calm_env
           empty_world (empty_manager (InMemoryAdapter Mem.new) "c")).
  reflexivity.
Defined.

Lemma C6_witness :
  let rows := [plain_row "system" "System prompt" 0; plain_row "human" "Hello world" 1] in
  let o := @SQL.new calm_env {| SQL.opt_dbPath := Some "/srv/app/chat.sqlite";
                                SQL.opt_journalMode := None |} in
  @replace_failure RefRuntime.runtime second_insert_fails rows = Some "insertMessage failed" /\
  disk (fst (snd (@SQL.replaceConversation RefRuntime.runtime second_insert_fails
                    "persist-case" rows (empty_world, o))))
  = disk empty_world.
Proof.
  intros rows o. split; [reflexivity|].
  apply (@C6_replace_all_or_nothing RefRuntime.runtime second_insert_fails "persist-case"
           rows empty_world o "insertMessage failed").
  reflexivity.
Defined.

Lemma C7_witness :
  let self := empty_manager three_rows_stored "persist-case" in
  @Adapter.getMessages RefRuntime.runtime human_rejected "persist-case"
    (add_call (CallGetMessages "persist-case") empty_world, three_rows_stored)
  = (Ok ([plain_row "system" "System prompt" 0]
         ++ plain_row "human" "Hello world" 1 :: [plain_row "ai" "Hi there!" 2]),
     (add_call (CallGetMessages "persist-case") empty_world, three_rows_stored)) /\
  @PMM.deserializeMessage RefRuntime.runtime human_rejected
    (plain_row "human" "Hello world" 1)
  = Throw "invalid message fields" /\
  @PMM.restoreFromMemory RefRuntime.runtime ListPipeline untrimmed human_rejected
    (empty_world, self)
  = (Ok tt,
     (add_log "PersistentMessageManager"
        ("Failed to restore chat history: " +:+ "invalid message fields") "warning"
        (add_call (CallGetMessages "persist-case") empty_world),
      {| PMM.super := {| lp_messages := [system_prompt]; lp_maxTokens := None |};
         PMM.memory := three_rows_stored;
         PMM.conversationId := "persist-case";
         PMM.restoring := false |})).
Proof.
  intros self.
  assert (Hget : @Adapter.getMessages RefRuntime.runtime human_rejected "persist-case"
            (add_call (CallGetMessages "persist-case") empty_world, three_rows_stored)
          = (Ok ([plain_row "system" "System prompt" 0]
                 ++ plain_row "human" "Hello world" 1 :: [plain_row "ai" "Hi there!" 2]),
             (add_call (CallGetMessages "persist-case") empty_world, three_rows_stored)))
    by (vm_compute; reflexivity).
  assert (Hbad : @PMM.deserializeMessage RefRuntime.runtime human_rejected
            (plain_row "human" "Hello world" 1) = Throw "invalid message fields")
    by (vm_compute; reflexivity).
  split; [exact Hget|]. split; [exact Hbad|].
  apply (proj1 (@C7_restore_fail_fast RefRuntime.runtime ListPipeline untrimmed
                  human_rejected empty_world self
                  [plain_row "system" "System prompt" 0]
                  (plain_row "human" "Hello world" 1)
                  [plain_row "ai" "Hi there!" 2]
                  [system_prompt] "invalid message fields" _ _ Hget
                  ltac:(repeat constructor) Hbad)).
Defined.

Lemma C2_witness :
  let add := @PMM.add RefRuntime.runtime ListPipeline untrimmed calm_env in
  let s3 := snd (add hi_there None
                   (snd (add hello_world None
                           (snd (add system_prompt None
                                   (empty_world, empty_manager new_sqlite "persist-case")))))) in
  let s4 := snd (@PMM.removeLast RefRuntime.runtime ListPipeline untrimmed calm_env s3) in
  @PMM.getMessages ListPipeline untrimmed (snd s4) = [system_prompt; hello_world] /\
  exists r0 r1,
    fst (@Adapter.getMessages RefRuntime.runtime calm_env "persist-case"
           (fst s4, PMM.memory (snd s4))) = Ok [r0; r1] /\
    sequence r0 = 0%Z /\ sequence r1 = 1%Z.
Proof.
  apply (proj1 (proj2 (proj2 (@C2_rewrite_dense_sequences RefRuntime.runtime)))
           (fun _ l => l)
           calm_env calm_env calm_env calm_env calm_env empty_world None new_sqlite
           "persist-case" system_prompt hello_world hi_there).
  - reflexivity.
  - vm_compute. repeat split; discriminate.
  - vm_compute. reflexivity.
Defined.


(* ===================================================================== *)
(** ** The reference runtime on examples *)
(* ===================================================================== *)

Example stringify_example :
  RefRuntime.stringify
    (JObj [("contentIsJson", JBool true);
           ("toolCalls", JArr [JObj [("name", JStr "click"); ("id", JNum (-7))]; JNull])])
  = RefRuntime.join (String (ascii_of_nat 34) EmptyString)
      ["{"; "contentIsJson"; ":true,"; "toolCalls"; ":[{"; "name"; ":"; "click"; ",";
       "id"; ":-7},null]}"].
Proof. vm_compute. reflexivity. Qed.

Example parse_example :
  RefRuntime.parse
    (RefRuntime.join (String (ascii_of_nat 34) EmptyString)
       [" { "; "a"; " : [1, 2, {"; "b"; ":"; "x\ny"; "}], "; "c"; " : null , "; "a";
        " : false } "])
  = Ok (JObj [("a", JBool false); ("c", JNull)]).
Proof. vm_compute. reflexivity. Qed.

Example parse_stringify_example :
  let v := JObj [("text", JStr ("line one" +:+ String (ascii_of_nat 10) "line two \ end"));
                 ("n", JNum 0); ("xs", JArr [JArr []; JObj []; JBool false])] in
  RefRuntime.parse (RefRuntime.stringify v) = Ok v.
Proof. vm_compute. reflexivity. Qed.
(* ===================================================================== *)
(** ** Further properties of the durable adapter *)
(* ===================================================================== *)

Section PathFacts.

Lemma is_white_space_js c :
  is_white_space c = true -> is_js_white_space (String c EmptyString) = true.
Proof. destruct c as [[] [] [] [] [] [] [] []]; vm_compute; congruence. Qed.

Lemma all_white_space_trim s : all_white_space s = true -> trim_nonempty s = false.
Proof.
  induction s as [|c s IH]; [reflexivity|]. cbn [all_white_space trim_nonempty].
  intros H. apply andb_true_iff in H as [Hc Hs].
  by rewrite (is_white_space_js c Hc), (IH Hs).
Qed.

Lemma is_js_white_space_In u : is_js_white_space u = true -> In u js_white_space.
Proof.
  unfold is_js_white_space. intros H. apply existsb_exists in H as (v & Hin & Heq).
  apply String.eqb_eq in Heq. by subst v.
Qed.

Lemma white_space_only_trim s : white_space_only s -> trim_nonempty s = false.
Proof.
  induction 1 as [|u s Hin _ IH]; [reflexivity|].
  unfold js_white_space in Hin. cbn [In] in Hin.
  repeat (destruct Hin as [<-|Hin]; [exact IH|]). destruct Hin.
Qed.

Lemma trim_white_space_only_within n : forall s,
  String.length s <= n -> trim_nonempty s = false -> white_space_only s.
Proof.
  induction n as [|n IH]; intros s Hlen H.
  - destruct s; [constructor|simpl in Hlen; lia].
  - destruct s as [|c1 s1]; [constructor|]. cbn [trim_nonempty] in H.
    cbn [String.length] in Hlen.
    destruct (is_js_white_space (String c1 EmptyString)) eqn:E1.
    { apply (white_space_more (String c1 EmptyString) s1);
        [by apply is_js_white_space_In|apply IH; [lia|exact H]]. }
    destruct s1 as [|c2 s2]; [discriminate|]. cbn [String.length] in Hlen.
    destruct (is_js_white_space (String c1 (String c2 EmptyString))) eqn:E2.
    { apply (white_space_more (String c1 (String c2 EmptyString)) s2);
        [by apply is_js_white_space_In|apply IH; [lia|exact H]]. }
    destruct s2 as [|c3 s3]; [discriminate|]. cbn [String.length] in Hlen.
    destruct (is_js_white_space (String c1 (String c2 (String c3 EmptyString)))) eqn:E3;
      [|discriminate].
    apply (white_space_more (String c1 (String c2 (String c3 EmptyString))) s3);
      [by apply is_js_white_space_In|apply IH; [lia|exact H]].
Qed.

(** [s.trim().length > 0] fails exactly on the strings [trim] leaves
    nothing of. *)
Lemma trim_nonempty_spec s : trim_nonempty s = false <-> white_space_only s.
Proof.
  split; [|apply white_space_only_trim].
  by apply (trim_white_space_only_within (String.length s)).
Qed.

Lemma trim_nonempty_visible s : trim_nonempty s = true -> ~ white_space_only s.
Proof. intros H Hw. apply white_space_only_trim in Hw. congruence. Qed.

Lemma visible_trim_nonempty s : ~ white_space_only s -> trim_nonempty s = true.
Proof.
  intros H. destruct (trim_nonempty s) eqn:E; [reflexivity|].
  destruct H. by apply trim_nonempty_spec.
Qed.

Lemma gives_no_path_given provided : gives_no_path provided -> SQL.given_path provided = None.
Proof.
  destruct provided as [p|]; simpl; [|reflexivity].
  intros H. by rewrite (white_space_only_trim p H).
Qed.

Lemma blank_option_given provided : blank_option provided -> SQL.given_path provided = None.
Proof.
  destruct provided as [p|]; simpl; [|reflexivity].
  intros H. by rewrite (all_white_space_trim p H).
Qed.

Lemma strip_trailing_slash_added s : strip_trailing_slash (s +:+ "/") = s.
Proof.
  induction s as [|c s IH]; [reflexivity|].
  change (String c s +:+ "/") with (String c (s +:+ "/")).
  destruct s as [|c' s']; [reflexivity|].
  change (String c' s' +:+ "/") with (String c' (s' +:+ "/")) in *.
  cbn [strip_trailing_slash]. cbn [strip_trailing_slash] in IH. by rewrite IH.
Qed.

Lemma strip_trailing_slash_none s :
  (forall s', s <> s' +:+ "/") -> strip_trailing_slash s = s.
Proof.
  induction s as [|c s IH]; [reflexivity|]. intros H.
  destruct s as [|c' s'].
  - simpl. destruct (Ascii.eqb_spec c "/"%char) as [->|]; [|reflexivity].
    by destruct (H EmptyString).
  - cbn [strip_trailing_slash]. cbn [strip_trailing_slash] in IH. rewrite IH; [reflexivity|].
    intros s'' Hs. apply (H (String c s'')). simpl. by rewrite Hs.
Qed.

(** X1: which path the durable adapter settles on.  The strings are the
    UTF-8 bytes of the JavaScript strings, and white space is what
    [String.prototype.trim] strips, the no-break space and the other
    Unicode spaces and line terminators included.  A [dbPath] option that
    is not white space only is the path, as given, whatever the
    environment; an option that is absent, empty or white space only
    gives way to the variable [BROWSEROS_CHAT_MEMORY_PATH] when that is not
    white space only; and when both are absent, empty or white space only
    the adapter is the one made without the option in an environment
    without the variable. *)
Theorem X1_path_precedence :
  (forall env p journalMode,
     ~ white_space_only p ->
     SQL.dbPath (SQL.new env {| SQL.opt_dbPath := Some p;
                                SQL.opt_journalMode := journalMode |}) = p) /\
  (forall env provided e journalMode,
     gives_no_path provided ->
     env_BROWSEROS_CHAT_MEMORY_PATH env = Some e -> ~ white_space_only e ->
     SQL.dbPath (SQL.new env {| SQL.opt_dbPath := provided;
                                SQL.opt_journalMode := journalMode |}) = e) /\
  (forall env provided journalMode,
     gives_no_path provided -> gives_no_path (env_BROWSEROS_CHAT_MEMORY_PATH env) ->
     SQL.new env {| SQL.opt_dbPath := provided; SQL.opt_journalMode := journalMode |}
     = SQL.new (without_path_variable env)
         {| SQL.opt_dbPath := None; SQL.opt_journalMode := journalMode |}).
Proof.
  split; [|split].
  - intros env p j Hp. simpl. unfold SQL.resolveDatabasePath. simpl.
    by rewrite (visible_trim_nonempty p Hp).
  - intros env provided e j Hb He Hv. simpl. unfold SQL.resolveDatabasePath.
    rewrite (gives_no_path_given provided Hb), He. simpl.
    by rewrite (visible_trim_nonempty e Hv).
  - intros env provided j Hb He. unfold SQL.new. simpl. f_equal.
    unfold SQL.resolveDatabasePath.
    by rewrite (gives_no_path_given provided Hb), (gives_no_path_given _ He).
Qed.

(** X2: the path of last resort.  When neither the option nor the
    variable gives a path and the [path] module cannot be loaded, the
    path is [chat_memory.sqlite] in the working directory, with one
    slash between them whether or not the working directory ends in one. *)
Theorem X2_default_path_one_slash env provided s :
  blank_option provided -> blank_option (env_BROWSEROS_CHAT_MEMORY_PATH env) ->
  env_fails env (OpRequire "path") = true ->
  env_cwd env = s +:+ "/" \/ (env_cwd env = s /\ forall s', s <> s' +:+ "/") ->
  SQL.resolveDatabasePath env provided = s +:+ "/chat_memory.sqlite".
Proof.
  intros Hb He Hreq Hcwd. unfold SQL.resolveDatabasePath.
  rewrite (blank_option_given provided Hb), (blank_option_given _ He).
  unfold dynamicRequire. rewrite Hreq.
  destruct Hcwd as [->|[-> Hs]].
  - by rewrite strip_trailing_slash_added.
  - by rewrite strip_trailing_slash_none.
Qed.

End PathFacts.

Section ConnectionFacts.
Context {RT : JSRuntime}.

Lemma ensured_connects env o :
  open_failure env o = None -> is_Some (SQL.database (ensured env o)).
Proof.
  intros H. unfold ensured. destruct (SQL.database o) as [db|] eqn:E; [by rewrite E|].
  rewrite H. simpl. eauto.
Qed.

Lemma ensured_database_cases env o :
  SQL.database (ensured env o)
  = match SQL.database o with
    | Some db => Some db
    | None => match open_failure env o with
              | Some _ => None
              | None => Some (connection o)
              end
    end.
Proof.
  unfold ensured. destruct (SQL.database o) as [db|] eqn:E; [exact E|].
  by destruct (open_failure env o).
Qed.

Lemma ensured_driver env o :
  SQL.database o = None -> SQL.driver (ensured env o) = driver_after env o.
Proof. intros H. unfold ensured. rewrite H. by destruct (open_failure env o). Qed.


(** X3: a failure to connect is not final.  Whatever went wrong in an
    earlier call (the driver missing, the file not opening, a pragma, the
    schema or a statement failing), the adapter tries again on its next
    call, and answers that it is available once nothing fails. *)
Theorem X3_reconnects_when_healthy env env' w o :
  (forall op, env_fails env' op = false) ->
  fst (SQL.isAvailable env' (snd (SQL.initialize env (w, o)))) = Ok true.
Proof.
  intros Hcalm. rewrite initialize_eq. cbn [snd]. rewrite isAvailable_eq. cbn [fst].
  f_equal. apply bool_decide_eq_true_2.
  rewrite (ensured_database_cases env' (ensured env o)).
  destruct (SQL.database (ensured env o)) as [db|] eqn:E; [eauto|].
  assert (Hopen : open_failure env' (ensured env o) = None).
  { unfold open_failure, driver_after, dynamicRequire. rewrite !Hcalm.
    by destruct (SQL.driver (ensured env o)). }
  rewrite Hopen. eauto.
Qed.

(** X4: the driver is loaded once.  After a call in which
    [require('better-sqlite3')] worked, the adapter keeps the module: a
    later call connects even when [require] fails then, provided nothing
    else does. *)
Theorem X4_driver_cached env env' w o :
  env_fails env (OpRequire "better-sqlite3") = false ->
  (forall op, op <> OpRequire "better-sqlite3" -> env_fails env' op = false) ->
  fst (SQL.isAvailable env' (snd (SQL.initialize env (w, o)))) = Ok true.
Proof.
  intros Hreq Hrest. rewrite initialize_eq. cbn [snd]. rewrite isAvailable_eq. cbn [fst].
  f_equal. apply bool_decide_eq_true_2.
  rewrite (ensured_database_cases env' (ensured env o)).
  destruct (SQL.database (ensured env o)) as [db|] eqn:E; [eauto|].
  assert (Hnone : SQL.database o = None).
  { rewrite ensured_database_cases in E. by destruct (SQL.database o). }
  assert (Hopen : open_failure env' (ensured env o) = None).
  { unfold open_failure, driver_after. rewrite (ensured_driver env o Hnone).
    unfold driver_after, dynamicRequire at 1. rewrite Hreq.
    rewrite !Hrest by discriminate.
    by destruct (SQL.driver o). }
  rewrite Hopen. eauto.
Qed.

(** X5: trouble with the directory is ignored.  When only the calls of
    [ensureDirectoryExists] fail (the [fs] or [path] module missing,
    [existsSync] or [mkdirSync] throwing), the adapter connects all the
    same, and logs nothing. *)
Theorem X5_directory_errors_ignored env w o :
  SQL.database o = None ->
  (forall op, env_fails env op = true ->
     op = OpFsExists \/ op = OpFsMkdir \/ op = OpRequire "fs" \/ op = OpRequire "path") ->
  SQL.isAvailable env (w, o) = (Ok true, (w, ensured env o)) /\
  SQL.database (ensured env o) = Some (connection o).
Proof.
  intros Hnone Honly.
  assert (Hok : forall op,
            op <> OpFsExists -> op <> OpFsMkdir -> op <> OpRequire "fs" ->
            op <> OpRequire "path" -> env_fails env op = false).
  { intros op H1 H2 H3 H4. destruct (env_fails env op) eqn:E; [|reflexivity].
    destruct (Honly op E) as [?|[?|[?|?]]]; contradiction. }
  assert (Hopen : open_failure env o = None).
  { unfold open_failure, driver_after, dynamicRequire.
    rewrite !Hok by discriminate. by destruct (SQL.driver o). }
  assert (Hdb : SQL.database (ensured env o) = Some (connection o)).
  { rewrite ensured_database_cases, Hnone, Hopen. reflexivity. }
  split; [|exact Hdb].
  rewrite isAvailable_eq, Hdb. rewrite bool_decide_eq_true_2 by eauto.
  unfold ensured_world. by rewrite Hnone, Hopen.
Qed.

Lemma new_settled env options : settled (SQL.new env options).
Proof. reflexivity. Qed.

Lemma ensured_settled env o : settled o -> settled (ensured env o).
Proof.
  unfold settled, ensured. intros H.
  destruct (SQL.database o) as [db|] eqn:E; [by rewrite E|].
  destruct (open_failure env o); simpl; [reflexivity|]. done.
Qed.

Lemma sqlite_call_object env call w o :
  snd (adapter_call (w, SQLiteAdapter o) (env, call)) = SQLiteAdapter (ensured env o).
Proof.
  unfold adapter_call, Adapter.initialize, Adapter.isAvailable, Adapter.replaceConversation,
    Adapter.getMessages, Adapter.clearConversation, Adapter.dispatch.
  destruct call; cbn [fst snd].
  - by rewrite initialize_eq.
  - by rewrite isAvailable_eq.
  - by rewrite replaceConversation_eq.
  - rewrite getMessages_eq.
    destruct (SQL.database (ensured env o)); [|reflexivity].
    destruct (SQL.statements (ensured env o)); [|reflexivity].
    by destruct (env_fails env OpSelectMessages).
  - by rewrite clearConversation_eq.
Qed.

(** X6: the durable adapter is never left half open.  After any sequence
    of method calls on a newly made adapter, in any environments, the
    object either has a connection on its own path, the statements
    prepared on that connection and its flag set, or has neither
    connection nor statements; its path is the one it was made with. *)
Theorem X6_never_half_open env0 options w calls :
  exists o,
    snd (foldl adapter_call (w, SQLiteAdapter (SQL.new env0 options)) calls)
    = SQLiteAdapter o /\
    settled o /\ SQL.dbPath o = SQL.dbPath (SQL.new env0 options).
Proof.
  assert (Hgen : forall calls w o, settled o ->
            exists o', snd (foldl adapter_call (w, SQLiteAdapter o) calls) = SQLiteAdapter o' /\
                       settled o' /\ SQL.dbPath o' = SQL.dbPath o).
  { clear. induction calls as [|[env call] calls IH]; intros w o Hs.
    - exists o. by repeat split.
    - simpl.
      destruct (adapter_call (w, SQLiteAdapter o) (env, call)) as [w1 a1] eqn:E.
      pose proof (sqlite_call_object env call w o) as Hobj. rewrite E in Hobj.
      simpl in Hobj. subst a1.
      destruct (IH w1 (ensured env o) (ensured_settled env o Hs)) as (o' & H1 & H2 & H3).
      exists o'. split; [exact H1|]. split; [exact H2|]. by rewrite H3, ensured_dbPath. }
  apply Hgen. apply new_settled.
Qed.

End ConnectionFacts.
Section StoreFacts.
Context {RT : JSRuntime}.

(** *** Rows of other conversations *)

Lemma filter_other_not_of cid cid' (l : list MessageRow) :
  cid' <> cid ->
  filter (fun r => String.eqb (row_conversation_id r) cid') (filter (not_of cid) l)
  = filter (fun r => String.eqb (row_conversation_id r) cid') l.
Proof.
  intros Hne. induction l as [|x l IH]; [reflexivity|].
  destruct (String.eqb (row_conversation_id x) cid) eqn:E.
  - rewrite (filter_cons_False (not_of cid)); [|unfold not_of; rewrite E; simpl; tauto].
    rewrite IH. rewrite filter_cons_False; [reflexivity|].
    apply String.eqb_eq in E. destruct (String.eqb_spec (row_conversation_id x) cid');
      simpl; [congruence|tauto].
  - rewrite (filter_cons_True (not_of cid)); [|unfold not_of; rewrite E; exact I].
    destruct (String.eqb (row_conversation_id x) cid') eqn:E'.
    + rewrite !filter_cons_True by (rewrite E'; exact I). by rewrite IH.
    + rewrite !filter_cons_False by (rewrite E'; simpl; tauto). exact IH.
Qed.

Lemma filter_other_table_rows cid cid' now rows :
  cid' <> cid ->
  filter (fun r => String.eqb (row_conversation_id r) cid') (map (table_row cid now) rows)
  = [].
Proof.
  intros Hne. induction rows as [|x rows IH]; [reflexivity|].
  simpl. rewrite filter_cons_False; [exact IH|].
  simpl. destruct (String.eqb_spec cid cid'); simpl; [congruence|tauto].
Qed.

Lemma selected_replaced_other cid cid' now rows d :
  cid' <> cid -> selected cid' (replaced cid now rows d) = selected cid' d.
Proof.
  intros Hne. unfold selected, replaced. simpl.
  rewrite filter_app, filter_other_not_of, filter_other_table_rows by exact Hne.
  by rewrite app_nil_r.
Qed.

Lemma selected_cleared_other cid cid' d :
  cid' <> cid -> selected cid' (cleared cid d) = selected cid' d.
Proof.
  intros Hne. unfold selected, cleared. simpl. by rewrite filter_other_not_of.
Qed.

Lemma selected_cleared cid d : selected cid (cleared cid d) = [].
Proof. unfold selected, cleared. simpl. by rewrite filter_of_not_of. Qed.

(** What a read returns depends on the files through the rows of the
    conversation alone. *)
Lemma getMessages_selected env cid w1 w2 o :
  (forall path, selected cid (database_at path w1) = selected cid (database_at path w2)) ->
  fst (SQL.getMessages env cid (w1, o)) = fst (SQL.getMessages env cid (w2, o)).
Proof.
  intros Hsel. rewrite !getMessages_eq.
  destruct (SQL.database (ensured env o)); [|reflexivity].
  destruct (SQL.statements (ensured env o)) as [st|]; [|reflexivity].
  destruct (env_fails env OpSelectMessages); [reflexivity|]. cbn [fst].
  pose proof (ensured_world_frame env o w1) as (H1 & _).
  pose proof (ensured_world_frame env o w2) as (H2 & _).
  specialize (Hsel (SQL.connection_path (SQL.prepared_on st))).
  unfold database_at in *. rewrite H1, H2. by rewrite Hsel.
Qed.

Lemma replace_world_other env st cid cid' rows w path :
  cid' <> cid ->
  selected cid' (database_at path (replace_world env st cid rows w))
  = selected cid' (database_at path w).
Proof.
  intros Hne. unfold replace_world. destruct (replace_failure env rows); [reflexivity|].
  destruct (decide (path = SQL.connection_path (SQL.prepared_on st))) as [->|Hp].
  - rewrite database_at_insert. rewrite selected_replaced_other by exact Hne. reflexivity.
  - unfold database_at. simpl. by rewrite lookup_insert_ne.
Qed.

Lemma clear_world_other env st cid cid' w path :
  cid' <> cid ->
  selected cid' (database_at path (clear_world env st cid w))
  = selected cid' (database_at path w).
Proof.
  intros Hne. unfold clear_world. destruct (clear_failure env); [reflexivity|].
  destruct (decide (path = SQL.connection_path (SQL.prepared_on st))) as [->|Hp].
  - rewrite database_at_insert. by rewrite selected_cleared_other.
  - unfold database_at. simpl. by rewrite lookup_insert_ne.
Qed.

(** X7: conversations are kept apart.  For both adapters, in any state
    and any environments, what [getMessages] returns for a conversation
    after [replaceConversation] or [clearConversation] was called for
    another one is what it returns when the adapter was only initialized
    instead: writing or clearing one conversation never changes the rows
    read for another. *)
Theorem X7_conversations_isolated env env' conversationId other rows w a :
  other <> conversationId ->
  fst (Adapter.getMessages env' other
         (snd (Adapter.replaceConversation env conversationId rows (w, a))))
  = fst (Adapter.getMessages env' other (snd (Adapter.initialize env (w, a)))) /\
  fst (Adapter.getMessages env' other
         (snd (Adapter.clearConversation env conversationId (w, a))))
  = fst (Adapter.getMessages env' other (snd (Adapter.initialize env (w, a)))).
Proof.
  intros Hne. destruct a as [o|m].
  - unfold Adapter.getMessages, Adapter.replaceConversation, Adapter.clearConversation,
      Adapter.initialize, Adapter.dispatch. cbn [fst snd].
    rewrite replaceConversation_eq, clearConversation_eq, initialize_eq. cbn [fst snd].
    assert (Hfst : forall (r1 r2 : Res (list ChatMemoryMessage) * SQL.State),
              fst r1 = fst r2 ->
              fst (let '(r, (w0, m')) := r1 in (r, (w0, SQLiteAdapter m')))
              = fst (let '(r, (w0, m')) := r2 in (r, (w0, SQLiteAdapter m')))).
    { intros [r1 [w1 m1]] [r2 [w2 m2]]. simpl. congruence. }
    split; apply Hfst; apply getMessages_selected; intros path.
    + destruct (SQL.database (ensured env o)); [|reflexivity].
      destruct (SQL.statements (ensured env o)); [|reflexivity].
      by apply replace_world_other.
    + destruct (SQL.database (ensured env o)); [|reflexivity].
      destruct (SQL.statements (ensured env o)); [|reflexivity].
      by apply clear_world_other.
  - unfold Adapter.getMessages, Adapter.replaceConversation, Adapter.clearConversation,
      Adapter.initialize, Adapter.dispatch, Mem.getMessages, Mem.replaceConversation,
      Mem.clearConversation, Mem.initialize.
    run. rewrite lookup_insert_ne by congruence. rewrite lookup_delete_ne by congruence.
    split; by destruct (Mem.store m !! other).
Qed.

(** *** Clearing *)

Lemma conversation_record_cleared cid d : conversation_record cid (cleared cid d) = None.
Proof.
  unfold conversation_record, cleared. simpl.
  induction (conversations d) as [|c cs IH]; [reflexivity|].
  destruct (String.eqb (conv_id c) cid) eqn:E.
  - rewrite filter_cons_False; [exact IH|]. rewrite E. simpl. tauto.
  - rewrite filter_cons_True; [|rewrite E; exact I]. simpl. by rewrite E.
Qed.

(** X8: what a clear removes.  When the adapter takes the clear (the
    transient one always; the durable one with a connection and no step
    of the transaction failing), every later [getMessages] for the
    conversation, in any environment, returns the empty list, and the
    durable adapter has dropped the record of the conversation as well. *)
Theorem X8_clear_removes_conversation env conversationId w a :
  clears env a ->
  let s' := snd (Adapter.clearConversation env conversationId (w, a)) in
  (forall env', fst (Adapter.getMessages env' conversationId s') = Ok []) /\
  match snd s' with
  | SQLiteAdapter o' =>
      conversation_record conversationId (database_at (SQL.dbPath o') (fst s')) = None
  | InMemoryAdapter m' => Mem.store m' !! conversationId = None
  end.
Proof.
  intros Hc. destruct a as [o|m].
  - destruct Hc as (Hcons & Hdb & Hok).
    unfold Adapter.clearConversation, Adapter.getMessages, Adapter.dispatch.
    cbn [fst snd]. rewrite clearConversation_eq. cbn [fst snd].
    destruct (ensured_consistent env o Hcons Hdb) as [Hdb' Hst'].
    rewrite Hdb', Hst'. unfold clear_world. rewrite Hok.
    cbn [SQL.connection_path SQL.prepared_on connection]. split.
    + intros env'. rewrite getMessages_eq.
      rewrite (ensured_open env' _ _ Hdb'). rewrite Hdb', Hst'.
      destruct (env_fails env' OpSelectMessages); [reflexivity|]. cbn [fst].
      unfold ensured_world at 1. rewrite Hdb'.
      cbn [SQL.connection_path SQL.prepared_on connection].
      rewrite database_at_insert. by rewrite selected_cleared.
    + rewrite ensured_dbPath. rewrite database_at_insert.
      apply conversation_record_cleared.
  - unfold Adapter.clearConversation, Adapter.getMessages, Adapter.dispatch,
      Mem.getMessages, Mem.clearConversation.
    run. rewrite lookup_delete_eq. by split.
Qed.

(** X9: [clearConversation] is all-or-nothing.  When a step of the clear
    fails (the transaction cannot begin, either delete throws, or the
    commit fails), the call returns normally, the database files are as
    before the call, and every later [getMessages], for any conversation
    and in any environment, returns what it would have returned had the
    files not been touched. *)
Theorem X9_clear_all_or_nothing env conversationId w o e :
  clear_failure env = Some e ->
  let s' := snd (SQL.clearConversation env conversationId (w, o)) in
  fst (SQL.clearConversation env conversationId (w, o)) = Ok tt /\
  disk (fst s') = disk w /\
  forall env' conversationId',
    fst (SQL.getMessages env' conversationId' s')
    = fst (SQL.getMessages env' conversationId' (w, snd s')).
Proof.
  intros Hfail. rewrite clearConversation_eq. cbn [fst snd].
  assert (Hd : disk (match SQL.database (ensured env o), SQL.statements (ensured env o) with
                     | Some _, Some st =>
                         clear_world env st conversationId (ensured_world env o w)
                     | _, _ => ensured_world env o w
                     end) = disk w).
  { pose proof (ensured_world_frame env o w) as (Hd & _).
    destruct (SQL.database (ensured env o)); [|exact Hd].
    destruct (SQL.statements (ensured env o)); [|exact Hd].
    unfold clear_world. rewrite Hfail. exact Hd. }
  split; [reflexivity|]. split; [exact Hd|].
  intros env' cid'. by apply getMessages_disk.
Qed.

(** *** [ORDER BY sequence] on any rows *)

Local Abbreviation by_sequence :=
  (fun a b : MessageRow => (row_sequence a <= row_sequence b)%Z).

Lemma insert_by_sequence_perm r rs : insert_by_sequence r rs ≡ₚ r :: rs.
Proof.
  induction rs as [|r' rs IH]; simpl; [reflexivity|].
  destruct (row_sequence r <? row_sequence r')%Z; [reflexivity|].
  rewrite IH. apply Permutation_swap.
Qed.

Lemma order_by_sequence_from_perm l : forall acc,
  foldl (fun sorted r => insert_by_sequence r sorted) acc l ≡ₚ acc ++ l.
Proof.
  induction l as [|x l IH]; intros acc; simpl.
  - by rewrite app_nil_r.
  - rewrite IH, insert_by_sequence_perm. simpl. apply Permutation_middle.
Qed.

Lemma order_by_sequence_perm l : order_by_sequence l ≡ₚ l.
Proof. unfold order_by_sequence. by rewrite order_by_sequence_from_perm. Qed.

Lemma insert_by_sequence_sorts r rs :
  StronglySorted by_sequence rs -> StronglySorted by_sequence (insert_by_sequence r rs).
Proof.
  induction 1 as [|r' rs Hs IH Hall]; simpl.
  - repeat constructor.
  - destruct (Z.ltb_spec (row_sequence r) (row_sequence r')) as [Hlt|Hle].
    + constructor; [by constructor|].
      constructor; [lia|].
      eapply Forall_impl; [exact Hall|]. simpl. intros x Hx. lia.
    + constructor; [exact IH|].
      rewrite insert_by_sequence_perm. constructor; [exact Hle|exact Hall].
Qed.

Lemma order_by_sequence_from_sorts l : forall acc,
  StronglySorted by_sequence acc ->
  StronglySorted by_sequence (foldl (fun sorted r => insert_by_sequence r sorted) acc l).
Proof.
  induction l as [|x l IH]; intros acc Hs; simpl; [exact Hs|].
  apply IH. by apply insert_by_sequence_sorts.
Qed.

Lemma order_by_sequence_sorts l : StronglySorted by_sequence (order_by_sequence l).
Proof. apply order_by_sequence_from_sorts. constructor. Qed.

Lemma sorted_sequences (l : list MessageRow) :
  StronglySorted by_sequence l ->
  StronglySorted Z.le (map sequence (map SQL.deserializeRow l)).
Proof.
  induction 1 as [|r rs Hs IH Hall]; simpl; [constructor|].
  constructor; [exact IH|].
  clear IH Hs. induction Hall as [|x xs Hx _ IH]; simpl; constructor; assumption.
Qed.

Lemma selected_replaced_any cid now rows d :
  selected cid (replaced cid now rows d) = order_by_sequence (map (table_row cid now) rows).
Proof.
  unfold selected, replaced. simpl.
  by rewrite filter_app, filter_of_not_of, filter_of_table_rows.
Qed.

(** The rows a durable adapter with a connection reads from its file. *)
Lemma getMessages_connected env cid w o :
  consistent o -> SQL.database (ensured env o) <> None ->
  env_fails env OpSelectMessages = false ->
  fst (SQL.getMessages env cid (w, o))
  = Ok (map SQL.deserializeRow (selected cid (database_at (SQL.dbPath o) w))).
Proof.
  intros Hcons Hdb Hread. rewrite getMessages_eq.
  destruct (ensured_consistent env o Hcons Hdb) as [Hdb' Hst'].
  rewrite Hdb', Hst', Hread. cbn [fst SQL.connection_path SQL.prepared_on connection].
  pose proof (ensured_world_frame env o w) as (Hd & _).
  unfold database_at. by rewrite Hd.
Qed.

(** The file of a durable adapter after a write it took. *)
Lemma replaceConversation_accepted env cid rows w o :
  accepts env (SQLiteAdapter o) rows ->
  database_at (SQL.dbPath o) (fst (snd (SQL.replaceConversation env cid rows (w, o))))
  = replaced cid (env_clock env (clock_reads w)) rows (database_at (SQL.dbPath o) w) /\
  snd (snd (SQL.replaceConversation env cid rows (w, o))) = ensured env o /\
  SQL.database (ensured env o) = Some (connection o).
Proof.
  intros (Hcons & Hdb & Hok). rewrite replaceConversation_eq. cbn [fst snd].
  destruct (ensured_consistent env o Hcons Hdb) as [Hdb' Hst'].
  rewrite Hdb', Hst'. unfold replace_world. rewrite Hok.
  cbn [SQL.connection_path SQL.prepared_on connection].
  rewrite database_at_insert.
  pose proof (ensured_world_frame env o w) as (Hd & Hclock & _).
  unfold database_at. by rewrite Hd, Hclock.
Qed.

(** X10: the durable adapter reads in sequence order.  After a write the
    adapter took, of rows in any order, [getMessages] returns the rows
    written, each as the adapter gives it back, none lost and none twice,
    sorted by ascending sequence. *)
Theorem X10_read_in_sequence_order env env' conversationId rows w o :
  accepts env (SQLiteAdapter o) rows ->
  env_fails env' OpSelectMessages = false ->
  exists stored,
    fst (SQL.getMessages env' conversationId
           (snd (SQL.replaceConversation env conversationId rows (w, o))))
    = Ok stored /\
    StronglySorted Z.le (map sequence stored) /\
    stored ≡ₚ map (stored_form (SQLiteAdapter o) conversationId
                     (env_clock env (clock_reads w))) rows.
Proof.
  intros Hacc Hread.
  destruct (replaceConversation_accepted env conversationId rows w o Hacc)
    as (Hfile & Hobj & Hdb).
  destruct (snd (SQL.replaceConversation env conversationId rows (w, o))) as [w1 o1] eqn:E.
  cbn [fst snd] in Hfile, Hobj. subst o1.
  eexists. split; [|split].
  - rewrite getMessages_connected; [reflexivity| | |exact Hread].
    + destruct Hacc as (Hcons & _). by apply ensured_is_consistent.
    + rewrite (ensured_open env' _ _ Hdb). by rewrite Hdb.
  - apply sorted_sequences. rewrite ensured_dbPath, Hfile, selected_replaced_any.
    apply order_by_sequence_sorts.
  - rewrite ensured_dbPath, Hfile, selected_replaced_any.
    rewrite order_by_sequence_perm. by rewrite map_map.
Qed.


(** X12: a metadata text that cannot be read costs the metadata, not the
    row.  A durable adapter with a connection returns one message for
    each row the file holds for the conversation, with the role, the
    content, the sequence and the time of the row; a row whose metadata
    column is NULL, empty or not valid JSON comes back without metadata. *)
Theorem X12_unreadable_metadata_dropped env conversationId w o :
  consistent o -> SQL.database (ensured env o) <> None ->
  env_fails env OpSelectMessages = false ->
  exists stored,
    fst (SQL.getMessages env conversationId (w, o)) = Ok stored /\
    Forall2 (fun row message =>
               role message = row_role row /\
               content message = row_content row /\
               sequence message = row_sequence row /\
               createdAt message = Some (row_created_at row) /\
               (row_metadata row = None \/ row_metadata row = Some EmptyString \/
                (exists text e, row_metadata row = Some text /\ JSON_parse text = Throw e) ->
                metadata message = None))
      (selected conversationId (database_at (SQL.dbPath o) w)) stored.
Proof.
  intros Hcons Hdb Hread. eexists. split; [by apply getMessages_connected|].
  induction (selected conversationId (database_at (SQL.dbPath o) w)) as [|row l IH];
    simpl; constructor; [|exact IH].
  repeat split. unfold SQL.deserializeRow. cbn [metadata].
  intros [H|[H|(text & e & H & Hparse)]]; rewrite H; simpl; [done|done|].
  destruct (0 <? String.length text)%nat; [|reflexivity]. by rewrite Hparse.
Qed.

(** X13: what is written is what is read.  For both adapters, after a
    write the adapter took, of rows in ascending sequence that carry
    their time and whose metadata maps come back from their JSON text,
    [getMessages] returns exactly the rows written. *)
Theorem X13_adapter_round_trip env env' conversationId rows w a :
  accepts env a rows -> reads env' a ->
  StronglySorted Z.le (map sequence rows) ->
  Forall (fun r => createdAt r <> None) rows ->
  Forall (row_survives a) rows ->
  fst (Adapter.getMessages env' conversationId
         (snd (Adapter.replaceConversation env conversationId rows (w, a))))
  = Ok rows.
Proof.
  intros Hacc Hread Hsorted Htime Hsurv.
  rewrite (adapter_echo env env' conversationId rows w a Hacc Hread Hsorted).
  by rewrite stored_form_all.
Qed.

(** *** The records of the conversations *)

Lemma conversation_record_upsert cid now cs :
  List.find (fun c => String.eqb (conv_id c) cid) (SQL.upsert_conversation cid now now cs)
  = Some {| conv_id := cid;
            conv_created_at :=
              match List.find (fun c => String.eqb (conv_id c) cid) cs with
              | Some c => conv_created_at c
              | None => now
              end;
            conv_updated_at := now |}.
Proof.
  induction cs as [|c cs IH]; simpl.
  - by rewrite String.eqb_refl.
  - destruct (String.eqb (conv_id c) cid) eqn:E; simpl.
    + by rewrite String.eqb_refl.
    + by rewrite E.
Qed.

Lemma conversation_record_upsert_other cid cid' created updated cs :
  cid' <> cid ->
  List.find (fun c => String.eqb (conv_id c) cid')
    (SQL.upsert_conversation cid created updated cs)
  = List.find (fun c => String.eqb (conv_id c) cid') cs.
Proof.
  intros Hne. induction cs as [|c cs IH]; simpl.
  - destruct (String.eqb_spec cid cid'); [congruence|reflexivity].
  - destruct (String.eqb_spec (conv_id c) cid) as [Hc|Hc]; simpl.
    + destruct (String.eqb_spec cid cid'); [congruence|].
      destruct (String.eqb_spec (conv_id c) cid'); [congruence|reflexivity].
    + destruct (String.eqb (conv_id c) cid'); [reflexivity|exact IH].
Qed.

Lemma upsert_conversation_ids cid created updated cs :
  map conv_id (SQL.upsert_conversation cid created updated cs) = map conv_id cs \/
  ((cid ∉ map conv_id cs) /\
   map conv_id (SQL.upsert_conversation cid created updated cs) = map conv_id cs ++ [cid]).
Proof.
  induction cs as [|c cs IH]; simpl.
  - right. split; [apply not_elem_of_nil|reflexivity].
  - destruct (String.eqb_spec (conv_id c) cid) as [Hc|Hc]; simpl.
    + left. by rewrite Hc.
    + destruct IH as [IH|[Hnot IH]].
      * left. by rewrite IH.
      * right. split; [|by rewrite IH].
        rewrite not_elem_of_cons. split; [congruence|exact Hnot].
Qed.

(** X14: the record of a conversation.  A write the durable adapter took
    leaves one record for the conversation: its update time is the time
    of the write and its creation time that of the record there was, or
    the time of the write when there was none; the records of the other
    conversations are as before, and no id gets a second record. *)
Theorem X14_conversation_record_kept env conversationId rows w o :
  accepts env (SQLiteAdapter o) rows ->
  let now := env_clock env (clock_reads w) in
  let before := database_at (SQL.dbPath o) w in
  let after :=
    database_at (SQL.dbPath o)
      (fst (snd (SQL.replaceConversation env conversationId rows (w, o)))) in
  conversation_record conversationId after
  = Some {| conv_id := conversationId;
            conv_created_at :=
              match conversation_record conversationId before with
              | Some c => conv_created_at c
              | None => now
              end;
            conv_updated_at := now |} /\
  (forall other, other <> conversationId ->
     conversation_record other after = conversation_record other before) /\
  (NoDup (map conv_id (conversations before)) ->
   NoDup (map conv_id (conversations after))).
Proof.
  intros Hacc now before after.
  destruct (replaceConversation_accepted env conversationId rows w o Hacc)
    as (Hfile & _ & _).
  subst after. rewrite Hfile. fold now before.
  unfold conversation_record, replaced. cbn [conversations].
  split; [apply conversation_record_upsert|].
  split; [intros other Hne; by apply conversation_record_upsert_other|].
  intros Hnd.
  destruct (upsert_conversation_ids conversationId now now (conversations before))
    as [->|[Hnot ->]]; [exact Hnd|].
  apply NoDup_app. split; [exact Hnd|]. split; [|apply NoDup_singleton].
  intros x Hx Hx'. apply list_elem_of_singleton in Hx'. by subst x.
Qed.

End StoreFacts.
(* ===================================================================== *)
(** ** Further properties of the manager *)
(* ===================================================================== *)

Section ConstructionFacts.
Context {RT : JSRuntime} {P : Type} {Base : MessageManager P}.








End ConstructionFacts.

Section OperationFacts.
Context {RT : JSRuntime} {P : Type} {Base : MessageManager P}.

Lemma cleared_frame env w (self : @PMM.t P) :
  let s' := snd (PMM.clear env (w, self)) in
  PMM.super (snd s') = super_clear (PMM.super self) /\
  PMM.conversationId (snd s') = PMM.conversationId self /\
  PMM.restoring (snd s') = PMM.restoring self.
Proof.
  rewrite clear_eq. cbn [snd]. destruct (PMM.restoring self) eqn:Hr.
  - simpl. by rewrite Hr.
  - destruct (Adapter.clearConversation env (PMM.conversationId self) _) as [r [w' a']].
    simpl. by rewrite Hr.
Qed.

(** X17: the list in memory does not wait for the store.  In every
    state and environment, [add], [setMaxTokens], [removeLast] and
    [clear] return normally, whatever becomes of the write, and leave the
    pipeline exactly as the operation of the base class leaves it;
    [removeLast] returns what the base class returned; the conversation
    id and the restoring flag are unchanged. *)
Theorem X17_memory_list_authoritative env w (self : @PMM.t P) :
  (forall m pos,
     fst (PMM.add env m pos (w, self)) = Ok tt /\
     let self' := snd (snd (PMM.add env m pos (w, self))) in
     PMM.super self' = super_add m pos (PMM.super self) /\
     PMM.conversationId self' = PMM.conversationId self /\
     PMM.restoring self' = PMM.restoring self) /\
  (forall n,
     fst (PMM.setMaxTokens env n (w, self)) = Ok tt /\
     let self' := snd (snd (PMM.setMaxTokens env n (w, self))) in
     PMM.super self' = super_setMaxTokens n (PMM.super self) /\
     PMM.conversationId self' = PMM.conversationId self /\
     PMM.restoring self' = PMM.restoring self) /\
  (fst (PMM.removeLast env (w, self)) = Ok (fst (super_removeLast (PMM.super self))) /\
   let self' := snd (snd (PMM.removeLast env (w, self))) in
   PMM.super self' = snd (super_removeLast (PMM.super self)) /\
   PMM.conversationId self' = PMM.conversationId self /\
   PMM.restoring self' = PMM.restoring self) /\
  (fst (PMM.clear env (w, self)) = Ok tt /\
   let self' := snd (snd (PMM.clear env (w, self))) in
   PMM.super self' = super_clear (PMM.super self) /\
   PMM.conversationId self' = PMM.conversationId self /\
   PMM.restoring self' = PMM.restoring self).
Proof.
  assert (Hp : forall p,
            let s' := persisted env (w, PMM.set_super p self) in
            PMM.super (snd s') = p /\
            PMM.conversationId (snd s') = PMM.conversationId self /\
            PMM.restoring (snd s') = PMM.restoring self).
  { intros p. pose proof (persisted_frame env w (PMM.set_super p self)) as (_ & H1 & H2 & H3).
    by repeat split. }
  split; [|split; [|split]].
  - intros m pos. rewrite add_eq. cbn [fst snd]. split; [reflexivity|].
    destruct (PMM.restoring self) eqn:Hr; [simpl; by rewrite Hr|].
    rewrite ?Hr. apply Hp.
  - intros n. rewrite setMaxTokens_eq. cbn [fst snd]. split; [reflexivity|].
    destruct (PMM.restoring self) eqn:Hr; [simpl; by rewrite Hr|].
    rewrite ?Hr. apply Hp.
  - rewrite removeLast_eq. cbn [fst snd]. split; [reflexivity|].
    destruct (fst (super_removeLast (PMM.super self)) && negb (PMM.restoring self));
      [apply Hp|by repeat split].
  - split; [by rewrite clear_eq|]. apply cleared_frame.
Qed.

(** X18: while the manager replays, its operations stay in memory.  With
    the restoring flag set, [add], [setMaxTokens], [removeLast] and
    [clear] change the pipeline and nothing else: no adapter call, no
    clock reading, no log entry, no change to the files or the adapter. *)
Theorem X18_silent_while_restoring env w (self : @PMM.t P) :
  PMM.restoring self = true ->
  (forall m pos,
     snd (PMM.add env m pos (w, self))
     = (w, PMM.set_super (super_add m pos (PMM.super self)) self)) /\
  (forall n,
     snd (PMM.setMaxTokens env n (w, self))
     = (w, PMM.set_super (super_setMaxTokens n (PMM.super self)) self)) /\
  snd (PMM.removeLast env (w, self))
  = (w, PMM.set_super (snd (super_removeLast (PMM.super self))) self) /\
  snd (PMM.clear env (w, self)) = (w, PMM.set_super (super_clear (PMM.super self)) self).
Proof.
  intros Hr. split; [|split; [|split]].
  - intros m pos. by rewrite add_eq, Hr.
  - intros n. by rewrite setMaxTokens_eq, Hr.
  - rewrite removeLast_eq, Hr. cbn [negb snd]. by rewrite andb_false_r.
  - by rewrite clear_eq, Hr.
Qed.

End OperationFacts.
Section SerializationFacts.
Context {RT : JSRuntime}.

(** *** When a row has metadata *)

Lemma obj_set_has_keys k v (o : Obj) : (0 <? length (obj_set k v o))%nat = true.
Proof. destruct o as [|[k' v'] o]; simpl; [reflexivity|]. by destruct (String.eqb k k'). Qed.

Lemma tool_metadata_keeps_keys m md :
  (0 <? length md)%nat = true -> (0 <? length (PMM.extractToolMetadata m md))%nat = true.
Proof.
  intros H. destruct m; simpl; try exact H.
  repeat match goal with
         | |- context [match ?x with Some _ => _ | None => _ end] => destruct x
         | |- context [if ?c then _ else _] => destruct c
         end; apply obj_set_has_keys.
Qed.

Lemma ai_metadata_keeps_keys m md :
  (0 <? length md)%nat = true -> (0 <? length (PMM.extractAIMetadata m md))%nat = true.
Proof.
  intros H. destruct m; simpl; try exact H.
  repeat match goal with
         | |- context [match ?x with Some _ => _ | None => _ end] => destruct x
         | |- context [if ?c then _ else _] => destruct c
         end; try apply obj_set_has_keys; exact H.
Qed.

Lemma bare_metadata m md :
  bare m = true -> PMM.extractAIMetadata m (PMM.extractToolMetadata m md) = md.
Proof.
  destruct m as [| |c kw tc itc um| | |]; simpl; try reflexivity; [|discriminate].
  intros H. apply andb_true_iff in H as [H Hum]. apply andb_true_iff in H as [Htc Hitc].
  destruct tc; [|discriminate]. destruct itc; [|discriminate]. simpl.
  apply negb_true_iff in Hum. by rewrite Hum.
Qed.

Lemma not_bare_metadata m md :
  bare m = false ->
  (0 <? length (PMM.extractAIMetadata m (PMM.extractToolMetadata m md)))%nat = true.
Proof.
  destruct m as [| |c kw tc itc um|c kw id status artifact tm| |]; simpl; try discriminate.
  - intros H. destruct tc as [|x tc]; simpl.
    + destruct itc as [|y itc]; simpl.
      * simpl in H. apply negb_false_iff in H. rewrite H.
        destruct um; [apply obj_set_has_keys|discriminate].
      * destruct (truthy um); [destruct um|]; apply obj_set_has_keys.
    + destruct (0 <? length itc)%nat; (destruct (truthy um); [destruct um|]);
        apply obj_set_has_keys.
  - intros _.
    repeat match goal with
           | |- context [match ?x with Some _ => _ | None => _ end] => destruct x
           | |- context [if ?c then _ else _] => destruct c
           end; apply obj_set_has_keys.
Qed.

(** X19: a row has metadata only when there is something to keep.  For
    a message whose annotations are an object, the row built for it has
    no metadata exactly when its content went in as it was (not as JSON
    text), the annotations are empty, and the message is not a tool
    message nor an AI message with tool calls, invalid tool calls or
    usage statistics. *)
Theorem X19_metadata_only_when_needed m o sequence now :
  msg_additional_kwargs m = JObj o ->
  metadata (row_of m sequence now) = None
  <-> PMM.isJson (PMM.normalizeContent m) = false /\ o = [] /\ bare m = true.
Proof.
  intros Hkw. unfold row_of. cbn [metadata]. unfold PMM.extractMetadata. rewrite Hkw.
  cbn [truthy Object_keys_length andb].
  set (j := PMM.isJson (PMM.normalizeContent m)).
  split.
  - intros Hnone.
    destruct (bare m) eqn:Hbare.
    + rewrite bare_metadata in Hnone by exact Hbare.
      destruct j; [destruct o; discriminate|].
      destruct o; [|discriminate]. split; [reflexivity|]. split; reflexivity.
    + rewrite not_bare_metadata in Hnone by exact Hbare. discriminate.
  - intros (Hj & -> & Hbare). rewrite Hj, bare_metadata by exact Hbare. reflexivity.
Qed.

(** *** Rows the manager did not write *)

Lemma role_not_cased (r : string) :
  Forall (fun known => r <> known) cased_roles ->
  String.eqb r MessageType.SYSTEM = false /\ String.eqb r MessageType.HUMAN = false /\
  String.eqb r MessageType.TOOL = false /\ String.eqb r MessageType.BROWSER_STATE = false /\
  String.eqb r MessageType.TODO_LIST = false.
Proof.
  unfold cased_roles. intros H.
  repeat (apply Forall_cons in H as [?%String.eqb_neq H]). by repeat split.
Qed.

(** X20: rows with an unknown role or without metadata.  A row whose
    role is none of system, human, tool, browser_state and todo_list,
    that is ai or anything else, is restored as an AI message with the
    content of the row; without metadata it has no annotations, tool
    calls or usage statistics.  A tool row without metadata is restored
    as a tool message with the empty tool call id and no status,
    artifact or metadata. *)
Theorem X20_foreign_rows_restored env record :
  (forall x, env_fails env (OpConstruct x) = false) ->
  (Forall (fun known => role record <> known) cased_roles ->
   exists m,
     PMM.deserializeMessage env record = Ok m /\
     _getMessageType m = MessageType.AI /\
     msg_content m = PMM.restoreContent record /\
     (metadata record = None ->
      m = AIMessage (JStr (content record)) (JObj []) [] [] None)) /\
  (role record = MessageType.TOOL -> metadata record = None ->
   PMM.deserializeMessage env record
   = Ok (ToolMessage (JStr (content record)) (JObj []) EmptyString None None None)).
Proof.
  intros Henv. split.
  - intros Hrole. destruct (role_not_cased _ Hrole) as (H1 & H2 & H3 & H4 & H5).
    unfold PMM.deserializeMessage. rewrite H1, H2, H3, H4, H5.
    unfold PMM.construct. rewrite Henv. eexists. split; [reflexivity|].
    split; [reflexivity|]. split; [reflexivity|].
    intros Hmd. unfold PMM.restoreContent. by rewrite Hmd.
  - intros Hrole Hmd. unfold PMM.deserializeMessage, PMM.restoreContent.
    rewrite Hrole, Hmd. cbn. unfold PMM.construct. by rewrite Henv.
Qed.

(** *** Content that is not stored as JSON *)

(** X21: a string stays a string.  For every runtime, a message whose
    content is a string is stored with that string as content and
    without the [contentIsJson] flag, and the content restored from its
    row is the same string: text that happens to be valid JSON is not
    decoded. *)
Theorem X21_string_content_verbatim m s sequence now :
  msg_content m = JStr s ->
  content (row_of m sequence now) = s /\
  obj_get "contentIsJson" (default [] (metadata (row_of m sequence now))) = None /\
  PMM.restoreContent (row_of m sequence now) = JStr s.
Proof.
  intros Hc.
  assert (Hn : PMM.normalizeContent m = {| PMM.sc_content := s; PMM.isJson := false |}).
  { unfold PMM.normalizeContent. by rewrite Hc. }
  unfold PMM.restoreContent, row_of. cbn [metadata content].
  rewrite extractMetadata_get, metadata_contentIsJson, Hn. by repeat split.
Qed.

(** X22: content that [JSON.stringify] rejects.  When the content of a
    message is not a string and [JSON.stringify] throws on it, the row
    is built all the same: its content is [String(content)], it carries
    no [contentIsJson] flag, and the content restored from it is that
    string. *)
Theorem X22_unserializable_content_as_string m e sequence now :
  (forall s, msg_content m <> JStr s) ->
  JSON_stringify (msg_content m) = Throw e ->
  content (row_of m sequence now) = String_of (msg_content m) /\
  obj_get "contentIsJson" (default [] (metadata (row_of m sequence now))) = None /\
  PMM.restoreContent (row_of m sequence now) = JStr (String_of (msg_content m)).
Proof.
  intros Hns Hthrow.
  assert (Hn : PMM.normalizeContent m
               = {| PMM.sc_content := String_of (msg_content m); PMM.isJson := false |}).
  { unfold PMM.normalizeContent. revert Hthrow Hns.
    destruct (msg_content m) as [| | |s| |]; intros Hthrow Hns; rewrite ?Hthrow;
      try reflexivity.
    by destruct (Hns s). }
  unfold PMM.restoreContent, row_of. cbn [metadata content].
  rewrite extractMetadata_get, metadata_contentIsJson, Hn. by repeat split.
Qed.

End SerializationFacts.

Section LifeCycleFacts.
Context {RT : JSRuntime} {P : Type} {Base : MessageManager P}.

(** The adapter after a clear it took: connected, and without rows for
    the conversation. *)
Lemma clear_taken env cid w a :
  clears env a ->
  let s' := snd (Adapter.clearConversation env cid (w, a)) in
  connected (snd s') /\
  forall env' w', disk w' = disk (fst s') ->
                  fst (Adapter.getMessages env' cid (w', snd s')) = Ok [].
Proof.
  intros Hc. destruct a as [o|m].
  - destruct Hc as (Hcons & Hdb & Hok).
    unfold Adapter.clearConversation, Adapter.getMessages, Adapter.dispatch.
    cbn [fst snd]. rewrite clearConversation_eq. cbn [fst snd].
    destruct (ensured_consistent env o Hcons Hdb) as [Hdb' Hst'].
    rewrite Hdb', Hst'. split; [simpl; by rewrite Hdb'|].
    intros env' w' Hd.
    rewrite getMessages_eq.
    rewrite (ensured_open env' _ _ Hdb'). rewrite Hdb', Hst'.
    destruct (env_fails env' OpSelectMessages); [reflexivity|]. cbn [fst].
    unfold ensured_world at 1. rewrite Hdb'.
    cbn [SQL.connection_path SQL.prepared_on connection].
    unfold database_at at 1. rewrite Hd.
    unfold clear_world. rewrite Hok.
    cbn [SQL.connection_path SQL.prepared_on connection disk set_disk].
    rewrite lookup_insert_eq. cbn [default from_option id]. by rewrite selected_cleared.
  - unfold Adapter.clearConversation, Adapter.getMessages, Adapter.dispatch,
      Mem.getMessages, Mem.clearConversation.
    run. split; [exact I|]. intros _ w' _. by rewrite lookup_delete_eq.
Qed.

(** X23: a cleared conversation stays cleared.  After [clear] on a
    manager whose adapter takes the clear, the pipeline is as the base
    class cleared it, the adapter has no rows for the conversation, and
    a manager made afterwards on that adapter and conversation id
    restores nothing: its pipeline is the one the base class starts
    with. *)
Theorem X23_clear_then_reopen env env2 w (p : P) a cid maxTokens dbPath :
  clears env a ->
  let live := {| PMM.super := p; PMM.memory := a; PMM.conversationId := cid;
                 PMM.restoring := false |} in
  let s1 := snd (PMM.clear env (w, live)) in
  PMM.super (snd s1) = super_clear p /\
  (forall env', fst (Adapter.getMessages env' cid (fst s1, PMM.memory (snd s1))) = Ok []) /\
  exists (self2 : @PMM.t P) w2,
    PMM.new env2
      {| PMM.opt_maxTokens := maxTokens; PMM.opt_conversationId := Some cid;
         PMM.opt_dbPath := dbPath; PMM.opt_memory := Some (PMM.memory (snd s1)) |}
      (fst s1)
    = (Ok self2, w2) /\
    PMM.super self2 = super_new maxTokens.
Proof.
  intros Hc live s1.
  pose proof (clear_taken env cid (add_call (CallClearConversation cid) w) a Hc)
    as [Hconn Hempty].
  assert (Hs1 : s1 = (let '(w', a') :=
                        snd (Adapter.clearConversation env cid
                               (add_call (CallClearConversation cid) w, a)) in
                      (w', PMM.set_memory a' (PMM.set_super (super_clear p) live)))).
  { subst s1. by rewrite clear_eq. }
  destruct (snd (Adapter.clearConversation env cid
                   (add_call (CallClearConversation cid) w, a))) as [w1 a1] eqn:E.
  cbn [fst snd] in Hconn, Hempty. rewrite Hs1. cbn [fst snd PMM.super PMM.memory
    PMM.set_memory PMM.set_super].
  pose proof Hempty as Hread.
  split; [reflexivity|]. split; [intros env'; by apply Hread|].
  rewrite new_eq. eexists _, _. split; [reflexivity|].
  unfold constructed, chosen_memory. cbn [PMM.opt_memory PMM.opt_maxTokens
    PMM.opt_conversationId].
  rewrite (probed_connected env2 _ _ Hconn). cbn [default].
  unfold restored. cbn [PMM.conversationId PMM.memory PMM.super]. unfold id.
  match goal with |- context [Adapter.getMessages env2 cid (?w0, a1)] =>
    pose proof (Hread env2 w0 eq_refl) as Hnone;
    destruct (Adapter.getMessages env2 cid (w0, a1)) as [r [w' a']] end.
  cbn [fst] in Hnone. by subst r.
Qed.

Lemma rows_of_times env messages : forall reads index,
  map createdAt (rows_of env reads index messages)
  = map (fun t => Some (env_clock env t)) (seq reads (length messages)).
Proof.
  induction messages as [|m messages IH]; intros reads index; [reflexivity|].
  simpl. by rewrite IH.
Qed.

Lemma stored_form_time a cid now row :
  createdAt row <> None -> createdAt (stored_form a cid now row) = createdAt row.
Proof.
  intros H. destruct a; simpl; [|reflexivity]. by destruct (createdAt row).
Qed.

Lemma stored_form_times a cid now rows :
  Forall (fun r => createdAt r <> None) rows ->
  map createdAt (map (stored_form a cid now) rows) = map createdAt rows.
Proof.
  induction 1 as [|row rows Hrow _ IH]; [reflexivity|].
  simpl. f_equal; [by apply stored_form_time|exact IH].
Qed.

(** X24: every rewrite stamps every row anew.  After a mutating
    operation whose write the adapter took, the time of row [i] is the
    reading of the clock taken for it during that operation, the
    [i]-th reading from the call on: the times the rows had in the store
    before are not kept. *)
Theorem X24_rows_restamped env env' op w (p : P) a cid :
  let live := {| PMM.super := p; PMM.memory := a; PMM.conversationId := cid;
                 PMM.restoring := false |} in
  let messages := super_getMessages (pipeline_after op p) in
  mutates op p = true ->
  accepts env a (rows_of env (clock_reads w) 0 messages) ->
  reads env' a ->
  let s' := snd (mutate env op (w, live)) in
  exists stored,
    fst (Adapter.getMessages env' cid (fst s', PMM.memory (snd s'))) = Ok stored /\
    map createdAt stored
    = map (fun t => Some (env_clock env t)) (seq (clock_reads w) (length messages)).
Proof.
  intros live messages Hm Hacc Hread s'. subst s' live.
  rewrite mutate_eq by exact Hm. cbn [snd].
  pose proof (persisted_stored env env' w
                {| PMM.super := pipeline_after op p; PMM.memory := a;
                   PMM.conversationId := cid; PMM.restoring := false |} Hacc Hread) as H.
  cbv zeta in H. cbn [PMM.super PMM.memory PMM.conversationId] in H.
  eexists. split; [exact H|]. fold messages.
  rewrite <- (rows_of_times env messages (clock_reads w) 0).
  apply stored_form_times, rows_of_createdAt.
Qed.

End LifeCycleFacts.

Section ExactRoundTrip.
Context {RT : JSRuntime} {P : Type} {Base : MessageManager P}.

(** X25: the round trip is exact where every field is restored.  After
    a mutating operation whose write the adapter took, a manager made on
    that adapter and conversation id replays into its pipeline exactly
    the messages the first manager holds, in the same order, provided
    each of them is one whose every field [deserializeMessage] restores
    and its content and metadata come back from their JSON text.  Those
    are: a system or human message with a string for content and no
    annotations; an AI message whose annotations are a record, without
    raw tool calls among them unless the message has tool calls of its
    own, and whose usage statistics, if any, are a record; a tool message
    whose annotations are a record, whose status is not the empty string
    and whose metadata, if any, is a record with a field; a browser-state
    or todo-list message with a string for content and no annotations. *)
Theorem X25_exact_round_trip env env2 op w (p : P) a cid maxTokens dbPath :
  let live := {| PMM.super := p; PMM.memory := a; PMM.conversationId := cid;
                 PMM.restoring := false |} in
  let messages := super_getMessages (pipeline_after op p) in
  let rows := rows_of env (clock_reads w) 0 messages in
  mutates op p = true ->
  accepts env a rows -> reads env2 a -> Forall (row_survives a) rows ->
  (forall x, env_fails env2 (OpConstruct x) = false) ->
  Forall content_survives messages ->
  Forall restorable messages ->
  let s1 := snd (mutate env op (w, live)) in
  PMM.getMessages (snd s1) = messages /\
  exists (self2 : @PMM.t P) w2,
    PMM.new env2
      {| PMM.opt_maxTokens := maxTokens; PMM.opt_conversationId := Some cid;
         PMM.opt_dbPath := dbPath; PMM.opt_memory := Some (PMM.memory (snd s1)) |}
      (fst s1)
    = (Ok self2, w2) /\
    PMM.super self2
    = foldl (fun q x => super_add x None q) (super_new maxTokens)
        (PMM.getMessages (snd s1)).
Proof.
  intros live messages rows Hm Hacc Hread Hsurv Henv Hcont Hrest s1.
  subst s1 live. rewrite mutate_eq by exact Hm. cbn [snd].
  assert (Hlist : PMM.getMessages
                    (snd (persisted env
                            (w, {| PMM.super := pipeline_after op p; PMM.memory := a;
                                   PMM.conversationId := cid; PMM.restoring := false |})))
                  = messages).
  { unfold PMM.getMessages.
    pose proof (persisted_frame env w
                  {| PMM.super := pipeline_after op p; PMM.memory := a;
                     PMM.conversationId := cid; PMM.restoring := false |})
      as (_ & _ & Hs & _).
    cbv zeta in Hs. by rewrite Hs. }
  split; [exact Hlist|]. rewrite Hlist.
  assert (Hbuilt : Forall constructible messages).
  { eapply Forall_impl; [exact Hrest|]. apply restorable_constructible. }
  destruct (reopen_persisted env env2 w (pipeline_after op p) a cid maxTokens dbPath
              Hacc Hread Hsurv Henv Hcont Hbuilt)
    as (self2 & w2 & Hnew & Hsuper).
  exists self2, w2. split; [exact Hnew|]. rewrite Hsuper. f_equal.
  fold messages. clear -Hrest. induction Hrest as [|x l Hx _ IH]; [reflexivity|].
  simpl. by rewrite (restorable_restored x Hx), IH.
Qed.

End ExactRoundTrip.
Section ReadFacts.
Context {RT : JSRuntime}.

(** X26: the transient adapter gives back what it was given.  Whatever
    the rows (in any order, with or without times and metadata) and
    whatever it held, after [replaceConversation] the transient adapter
    returns exactly those rows for the conversation, in the order given;
    after [clearConversation], and for a conversation it never held, it
    returns the empty list. *)
Theorem X26_transient_round_trip env env' conversationId rows w m :
  fst (Adapter.getMessages env' conversationId
         (snd (Adapter.replaceConversation env conversationId rows
                 (w, InMemoryAdapter m))))
  = Ok rows /\
  fst (Adapter.getMessages env' conversationId
         (snd (Adapter.clearConversation env conversationId (w, InMemoryAdapter m))))
  = Ok [] /\
  fst (Adapter.getMessages env' conversationId (w, InMemoryAdapter Mem.new)) = Ok [].
Proof.
  unfold Adapter.getMessages, Adapter.replaceConversation, Adapter.clearConversation,
    Adapter.dispatch, Mem.getMessages, Mem.replaceConversation, Mem.clearConversation.
  run. rewrite lookup_insert_eq, lookup_delete_eq, lookup_empty. simpl.
  split; [|by split]. f_equal. rewrite map_map.
  rewrite <- (map_id rows) at 2. apply map_ext. intros row. by rewrite !copy_message_id.
Qed.

Lemma getMessages_reopened env cid w o :
  fst (SQL.getMessages env cid (w, ensured env o)) = fst (SQL.getMessages env cid (w, o)).
Proof.
  rewrite !getMessages_eq, ensured_idempotent.
  destruct (SQL.database (ensured env o)) as [db|] eqn:Hdb; [|reflexivity].
  destruct (SQL.statements (ensured env o)) as [st|]; [|reflexivity].
  destruct (env_fails env OpSelectMessages); [reflexivity|]. cbn [fst].
  pose proof (ensured_world_frame env o w) as (H1 & _).
  pose proof (ensured_world_frame env (ensured env o) w) as (H2 & _).
  unfold database_at. by rewrite H1, H2.
Qed.

(** X27: reading changes no stored row.  For both adapters, in any state
    and environment, [getMessages] leaves what the adapter has stored as
    it was (the tables of the database at the path of the durable
    adapter, the map of the transient one): no row and no conversation
    record is added, changed or removed; and reading again in the same
    environment returns the same rows.  A durable adapter without a
    connection may open its database on the way, and with that create
    the file and its empty tables. *)
Theorem X27_reading_changes_nothing env conversationId w a :
  let r := Adapter.getMessages env conversationId (w, a) in
  stored_state (fst (snd r)) (snd (snd r)) = stored_state w a /\
  fst (Adapter.getMessages env conversationId (snd r)) = fst r.
Proof.
  intros r.
  pose proof (adapter_getMessages_frame env conversationId w a) as (Hd & _ & Hs).
  fold r in Hd, Hs. split; [exact Hs|].
  destruct a as [o|m].
  - pose proof (sqlite_call_object env (CallGetMessages conversationId) w o) as Ho.
    unfold adapter_call in Ho. cbn [fst snd] in Ho. fold r in Ho.
    destruct (snd r) as [w1 a1] eqn:E. cbn [fst snd] in Hd, Ho. subst a1.
    rewrite (adapter_getMessages_disk env conversationId w1 w _ Hd).
    subst r. unfold Adapter.getMessages, Adapter.dispatch. cbn [fst snd].
    pose proof (getMessages_reopened env conversationId w o) as Hsame.
    destruct (SQL.getMessages env conversationId (w, ensured env o)) as [r1 [w2 o2]].
    destruct (SQL.getMessages env conversationId (w, o)) as [r3 [w3 o3]].
    exact Hsame.
  - subst r. unfold Adapter.getMessages, Adapter.dispatch, Mem.getMessages. run.
    destruct (Mem.store m !! conversationId) eqn:E; simpl; by rewrite E.
Qed.

(** X28: a failure is logged once, success not at all.  On a durable
    adapter with a connection, [replaceConversation] adds to the log one
    entry of level error when a step of its transaction fails, with the
    message of that step, [clearConversation] one of level warning, and
    [getMessages] one of level error when the query fails; a call that
    goes through adds nothing. *)
Theorem X28_failures_logged_once env conversationId rows w o db :
  SQL.database o = Some db -> consistent o ->
  log (fst (snd (SQL.replaceConversation env conversationId rows (w, o))))
  = log w
    ++ match replace_failure env rows with
       | Some e =>
           [{| log_source := "SQLiteChatMemory";
               log_message := "Failed to persist chat history: " +:+ e;
               log_level := "error" |}]
       | None => []
       end /\
  log (fst (snd (SQL.clearConversation env conversationId (w, o))))
  = log w
    ++ match clear_failure env with
       | Some e =>
           [{| log_source := "SQLiteChatMemory";
               log_message := "Failed to clear chat history: " +:+ e;
               log_level := "warning" |}]
       | None => []
       end /\
  exists e,
    log (fst (snd (SQL.getMessages env conversationId (w, o))))
    = log w
      ++ if env_fails env OpSelectMessages
         then [{| log_source := "SQLiteChatMemory";
                  log_message := "Failed to load chat history: " +:+ e;
                  log_level := "error" |}]
         else [].
Proof.
  intros Hdb Hcons.
  pose proof Hcons as Hc. unfold consistent in Hc. rewrite Hdb in Hc.
  destruct Hc as [-> Hst].
  rewrite replaceConversation_eq, clearConversation_eq, getMessages_eq.
  rewrite (ensured_open env o _ Hdb). rewrite Hdb, Hst.
  unfold ensured_world. rewrite Hdb. cbn [fst snd].
  split; [|split].
  - unfold replace_world. destruct (replace_failure env rows); simpl; [reflexivity|].
    by rewrite app_nil_r.
  - unfold clear_world. destruct (clear_failure env); simpl; [reflexivity|].
    by rewrite app_nil_r.
  - eexists. destruct (env_fails env OpSelectMessages); simpl; [reflexivity|].
    by rewrite app_nil_r.
Qed.

End ReadFacts.
Section ReopenFacts.
Context {RT : JSRuntime} {P : Type} {Base : MessageManager P}.




End ReopenFacts.
(* ===================================================================== *)
(** ** The further properties on examples *)
(* ===================================================================== *)

#[local] Existing Instance RefRuntime.runtime.

Lemma X1_witness :
  SQL.dbPath (SQL.new path_in_variable
                {| SQL.opt_dbPath := Some "/data/chat.sqlite";
                   SQL.opt_journalMode := None |}) = "/data/chat.sqlite" /\
  SQL.dbPath (SQL.new path_in_variable
                {| SQL.opt_dbPath := Some (bytes [194; 160; 32]);
                   SQL.opt_journalMode := None |})
  = "/var/lib/chat.sqlite" /\
  SQL.new no_modules {| SQL.opt_dbPath := Some (bytes [226; 128; 175]);
                        SQL.opt_journalMode := None |}
  = SQL.new (without_path_variable no_modules)
      {| SQL.opt_dbPath := None; SQL.opt_journalMode := None |}.
Proof.
  split; [|split].
  - apply (proj1 X1_path_precedence). apply trim_nonempty_visible. reflexivity.
  - apply (proj1 (proj2 X1_path_precedence) path_in_variable (Some (bytes [194; 160; 32]))
             "/var/lib/chat.sqlite").
    + apply (white_space_more (bytes [194; 160]) (bytes [32])); [vm_compute; tauto|].
      apply (white_space_more (bytes [32]) EmptyString); [vm_compute; tauto|].
      apply white_space_none.
    + reflexivity.
    + apply trim_nonempty_visible. reflexivity.
  - apply (proj2 (proj2 X1_path_precedence)).
    + apply (white_space_more (bytes [226; 128; 175]) EmptyString); [vm_compute; tauto|].
      apply white_space_none.
    + apply trim_nonempty_spec. reflexivity.
Defined.

Lemma X2_witness :
  SQL.resolveDatabasePath no_modules None = "/srv/app/chat_memory.sqlite".
Proof.
  apply (X2_default_path_one_slash no_modules None "/srv/app");
    [exact I|reflexivity|reflexivity|left; reflexivity].
Defined.

Lemma X3_witness :
  fst (SQL.isAvailable cannot_open (empty_world, new_sqlite_object)) = Ok false /\
  fst (SQL.isAvailable calm_env
         (snd (SQL.initialize cannot_open (empty_world, new_sqlite_object)))) = Ok true.
Proof.
  split; [vm_compute; reflexivity|].
  apply X3_reconnects_when_healthy. intros op. reflexivity.
Defined.

Lemma X4_witness :
  fst (SQL.isAvailable driver_gone (empty_world, new_sqlite_object)) = Ok false /\
  fst (SQL.isAvailable driver_gone
         (snd (SQL.initialize cannot_open (empty_world, new_sqlite_object)))) = Ok true.
Proof.
  split; [vm_compute; reflexivity|].
  apply X4_driver_cached; [reflexivity|].
  intros op Hop. destruct op; try reflexivity. simpl.
  destruct (String.eqb_spec moduleName "better-sqlite3") as [->|]; [by destruct Hop|].
  reflexivity.
Defined.

Lemma X5_witness :
  SQL.isAvailable no_file_system (empty_world, new_sqlite_object)
  = (Ok true, (empty_world, ensured no_file_system new_sqlite_object)) /\
  SQL.database (ensured no_file_system new_sqlite_object)
  = Some (connection new_sqlite_object).
Proof.
  apply X5_directory_errors_ignored; [reflexivity|].
  intros op. destruct op; simpl; intros H; try discriminate; auto.
Defined.

Lemma X7_witness :
  fst (Adapter.getMessages calm_env "persist-case"
         (snd (Adapter.replaceConversation calm_env "clear-case"
                 [plain_row "human" "Test message" 0] (empty_world, three_rows_stored))))
  = fst (Adapter.getMessages calm_env "persist-case"
           (snd (Adapter.initialize calm_env (empty_world, three_rows_stored)))) /\
  fst (Adapter.getMessages calm_env "persist-case"
         (snd (Adapter.clearConversation calm_env "clear-case"
                 (empty_world, three_rows_stored))))
  = fst (Adapter.getMessages calm_env "persist-case"
           (snd (Adapter.initialize calm_env (empty_world, three_rows_stored)))).
Proof. apply X7_conversations_isolated. discriminate. Defined.

Lemma X8_witness :
  let s' := snd (Adapter.clearConversation calm_env "clear-case"
                   (fst one_row_written, SQLiteAdapter (snd one_row_written))) in
  (forall env', fst (Adapter.getMessages env' "clear-case" s') = Ok []) /\
  match snd s' with
  | SQLiteAdapter o' =>
      conversation_record "clear-case" (database_at (SQL.dbPath o') (fst s')) = None
  | InMemoryAdapter m' => Mem.store m' !! "clear-case" = None
  end.
Proof.
  apply (X8_clear_removes_conversation calm_env "clear-case" (fst one_row_written)
           (SQLiteAdapter (snd one_row_written))).
  vm_compute. repeat split; discriminate.
Defined.

Lemma X9_witness :
  let s' := snd (SQL.clearConversation delete_fails "clear-case" one_row_written) in
  fst (SQL.clearConversation delete_fails "clear-case" one_row_written) = Ok tt /\
  disk (fst s') = disk (fst one_row_written) /\
  forall env' conversationId',
    fst (SQL.getMessages env' conversationId' s')
    = fst (SQL.getMessages env' conversationId' (fst one_row_written, snd s')).
Proof.
  apply (X9_clear_all_or_nothing delete_fails "clear-case" (fst one_row_written)
           (snd one_row_written) "deleteConversation failed").
  reflexivity.
Defined.

Lemma X10_witness :
  exists stored,
    fst (SQL.getMessages calm_env "persist-case"
           (snd (SQL.replaceConversation calm_env "persist-case" rows_out_of_order
                   (empty_world, new_sqlite_object))))
    = Ok stored /\
    StronglySorted Z.le (map sequence stored) /\
    stored ≡ₚ map (stored_form (SQLiteAdapter new_sqlite_object) "persist-case"
                     (env_clock calm_env (clock_reads empty_world))) rows_out_of_order.
Proof.
  apply X10_read_in_sequence_order.
  - vm_compute. repeat split; discriminate.
  - reflexivity.
Defined.


Lemma X12_witness :
  exists stored,
    fst (SQL.getMessages calm_env "persist-case"
           (unreadable_metadata_world, new_sqlite_object)) = Ok stored /\
    Forall2 (fun row message =>
               role message = row_role row /\
               content message = row_content row /\
               sequence message = row_sequence row /\
               createdAt message = Some (row_created_at row) /\
               (row_metadata row = None \/ row_metadata row = Some EmptyString \/
                (exists text e, row_metadata row = Some text /\ JSON_parse text = Throw e) ->
                metadata message = None))
      (selected "persist-case"
         (database_at (SQL.dbPath new_sqlite_object) unreadable_metadata_world))
      stored.
Proof.
  apply X12_unreadable_metadata_dropped; [exact I|vm_compute; discriminate|reflexivity].
Defined.

Lemma X13_witness :
  fst (Adapter.getMessages calm_env "persist-case"
         (snd (Adapter.replaceConversation calm_env "persist-case" rows_in_order
                 (empty_world, new_sqlite))))
  = Ok rows_in_order.
Proof.
  apply X13_adapter_round_trip.
  - vm_compute. repeat split; discriminate.
  - reflexivity.
  - cbv [rows_in_order plain_row map sequence]. repeat constructor; lia.
  - repeat constructor; discriminate.
  - repeat constructor.
Defined.

Lemma X14_witness :
  let now := env_clock calm_env (clock_reads (fst one_row_written)) in
  let before := database_at (SQL.dbPath (snd one_row_written)) (fst one_row_written) in
  let after :=
    database_at (SQL.dbPath (snd one_row_written))
      (fst (snd (SQL.replaceConversation calm_env "clear-case" rows_in_order
                   one_row_written))) in
  conversation_record "clear-case" after
  = Some {| conv_id := "clear-case";
            conv_created_at :=
              match conversation_record "clear-case" before with
              | Some c => conv_created_at c
              | None => now
              end;
            conv_updated_at := now |} /\
  (forall other, other <> "clear-case" ->
     conversation_record other after = conversation_record other before) /\
  (NoDup (map conv_id (conversations before)) ->
   NoDup (map conv_id (conversations after))).
Proof.
  apply (X14_conversation_record_kept calm_env "clear-case" rows_in_order
           (fst one_row_written) (snd one_row_written)).
  vm_compute. repeat split; discriminate.
Defined.


Lemma X18_witness :
  (forall m pos,
     snd (@PMM.add _ _ untrimmed calm_env m pos (empty_world, replaying_manager))
     = (empty_world,
        PMM.set_super (@super_add _ untrimmed m pos (PMM.super replaying_manager))
          replaying_manager)) /\
  (forall n,
     snd (@PMM.setMaxTokens _ _ untrimmed calm_env n (empty_world, replaying_manager))
     = (empty_world,
        PMM.set_super (@super_setMaxTokens _ untrimmed n (PMM.super replaying_manager))
          replaying_manager)) /\
  snd (@PMM.removeLast _ _ untrimmed calm_env (empty_world, replaying_manager))
  = (empty_world,
     PMM.set_super (snd (@super_removeLast _ untrimmed (PMM.super replaying_manager)))
       replaying_manager) /\
  snd (@PMM.clear _ untrimmed calm_env (empty_world, replaying_manager))
  = (empty_world,
     PMM.set_super (@super_clear _ untrimmed (PMM.super replaying_manager))
       replaying_manager).
Proof. apply (@X18_silent_while_restoring _ _ untrimmed). reflexivity. Defined.

Lemma X19_witness :
  metadata (row_of hello_world 0 1700000000000) = None
  <-> PMM.isJson (PMM.normalizeContent hello_world) = false /\
      @nil (string * JSON) = [] /\ bare hello_world = true.
Proof. apply X19_metadata_only_when_needed. reflexivity. Defined.

Lemma X20_witness :
  (exists m,
     PMM.deserializeMessage calm_env (plain_row "function" "42" 0) = Ok m /\
     _getMessageType m = MessageType.AI /\
     msg_content m = PMM.restoreContent (plain_row "function" "42" 0) /\
     m = AIMessage (JStr "42") (JObj []) [] [] None) /\
  PMM.deserializeMessage calm_env (plain_row "tool" "done" 0)
  = Ok (ToolMessage (JStr "done") (JObj []) EmptyString None None None).
Proof.
  split.
  - destruct (proj1 (X20_foreign_rows_restored calm_env (plain_row "function" "42" 0)
                       (fun x => eq_refl)))
      as (m & H1 & H2 & H3 & H4).
    + unfold cased_roles. repeat (constructor; [discriminate|]). constructor.
    + exists m. split; [exact H1|]. split; [exact H2|]. split; [exact H3|].
      exact (H4 eq_refl).
  - apply (proj2 (X20_foreign_rows_restored calm_env (plain_row "tool" "done" 0)
                    (fun x => eq_refl))); reflexivity.
Defined.

Lemma X21_witness :
  content (row_of json_looking 0 1700000000000)
  = RefRuntime.stringify (JObj [("a", JNum 1)]) /\
  obj_get "contentIsJson" (default [] (metadata (row_of json_looking 0 1700000000000)))
  = None /\
  PMM.restoreContent (row_of json_looking 0 1700000000000)
  = JStr (RefRuntime.stringify (JObj [("a", JNum 1)])).
Proof. apply X21_string_content_verbatim. reflexivity. Defined.

Lemma X22_witness :
  content (@row_of bigint_runtime number_content 0 1700000000000)
  = @String_of bigint_runtime (msg_content number_content) /\
  obj_get "contentIsJson"
    (default [] (metadata (@row_of bigint_runtime number_content 0 1700000000000)))
  = None /\
  @PMM.restoreContent bigint_runtime (@row_of bigint_runtime number_content 0 1700000000000)
  = JStr (@String_of bigint_runtime (msg_content number_content)).
Proof.
  apply (@X22_unserializable_content_as_string bigint_runtime number_content
           "Do not know how to serialize a BigInt").
  - intros s. discriminate.
  - reflexivity.
Defined.

Lemma X23_witness :
  let live := {| PMM.super := {| lp_messages := [system_prompt]; lp_maxTokens := None |};
                 PMM.memory := three_rows_stored; PMM.conversationId := "persist-case";
                 PMM.restoring := false |} in
  let s1 := snd (@PMM.clear _ untrimmed calm_env (empty_world, live)) in
  PMM.super (snd s1)
  = @super_clear _ untrimmed {| lp_messages := [system_prompt]; lp_maxTokens := None |} /\
  (forall env',
     fst (Adapter.getMessages env' "persist-case" (fst s1, PMM.memory (snd s1))) = Ok []) /\
  exists (self2 : @PMM.t ListPipeline) w2,
    @PMM.new _ _ untrimmed calm_env
      {| PMM.opt_maxTokens := None; PMM.opt_conversationId := Some "persist-case";
         PMM.opt_dbPath := None; PMM.opt_memory := Some (PMM.memory (snd s1)) |}
      (fst s1)
    = (Ok self2, w2) /\
    PMM.super self2 = @super_new _ untrimmed None.
Proof.
  apply (@X23_clear_then_reopen _ _ untrimmed calm_env calm_env empty_world
           {| lp_messages := [system_prompt]; lp_maxTokens := None |} three_rows_stored
           "persist-case" None None).
  exact I.
Defined.

Lemma X24_witness :
  let live := empty_manager new_sqlite "persist-case" in
  let s' := snd (@mutate _ _ untrimmed calm_env (MutAdd hello_world None)
                   (empty_world, live)) in
  exists stored,
    fst (Adapter.getMessages calm_env "persist-case" (fst s', PMM.memory (snd s')))
    = Ok stored /\
    map createdAt stored = [Some 1700000000000%Z].
Proof.
  apply (@X24_rows_restamped _ _ untrimmed calm_env calm_env (MutAdd hello_world None)
           empty_world {| lp_messages := []; lp_maxTokens := None |} new_sqlite
           "persist-case").
  - reflexivity.
  - vm_compute. repeat split; discriminate.
  - reflexivity.
Defined.

Lemma X25_witness :
  let live := empty_manager new_sqlite "persist-case" in
  let s1 := snd (@mutate _ _ untrimmed calm_env (MutAdd hello_world None)
                   (empty_world, live)) in
  @PMM.getMessages _ untrimmed (snd s1) = [hello_world] /\
  exists (self2 : @PMM.t ListPipeline) w2,
    @PMM.new _ _ untrimmed calm_env
      {| PMM.opt_maxTokens := None; PMM.opt_conversationId := Some "persist-case";
         PMM.opt_dbPath := None; PMM.opt_memory := Some (PMM.memory (snd s1)) |}
      (fst s1)
    = (Ok self2, w2) /\
    PMM.super self2
    = foldl (fun q x => @super_add _ untrimmed x None q) (@super_new _ untrimmed None)
        (@PMM.getMessages _ untrimmed (snd s1)).
Proof.
  apply (@X25_exact_round_trip _ _ untrimmed calm_env calm_env (MutAdd hello_world None)
           empty_world {| lp_messages := []; lp_maxTokens := None |} new_sqlite
           "persist-case" None None).
  - reflexivity.
  - vm_compute. repeat split; discriminate.
  - reflexivity.
  - repeat constructor.
  - intros x. reflexivity.
  - repeat constructor.
  - constructor; [|constructor]. split; [reflexivity|]. by exists "Hello world".
Defined.

Lemma X28_witness :
  log (fst (snd (SQL.replaceConversation second_insert_fails "clear-case" rows_in_order
                   one_row_written)))
  = log (fst one_row_written)
    ++ match replace_failure second_insert_fails rows_in_order with
       | Some e =>
           [{| log_source := "SQLiteChatMemory";
               log_message := "Failed to persist chat history: " +:+ e;
               log_level := "error" |}]
       | None => []
       end /\
  log (fst (snd (SQL.clearConversation second_insert_fails "clear-case" one_row_written)))
  = log (fst one_row_written)
    ++ match clear_failure second_insert_fails with
       | Some e =>
           [{| log_source := "SQLiteChatMemory";
               log_message := "Failed to clear chat history: " +:+ e;
               log_level := "warning" |}]
       | None => []
       end /\
  exists e,
    log (fst (snd (SQL.getMessages second_insert_fails "clear-case" one_row_written)))
    = log (fst one_row_written)
      ++ if env_fails second_insert_fails OpSelectMessages
         then [{| log_source := "SQLiteChatMemory";
                  log_message := "Failed to load chat history: " +:+ e;
                  log_level := "error" |}]
         else [].
Proof.
  apply (X28_failures_logged_once second_insert_fails "clear-case" rows_in_order
           (fst one_row_written) (snd one_row_written)
           {| SQL.connection_path := "/srv/app/chat.sqlite" |}).
  - reflexivity.
  - vm_compute. by split.
Defined.

